(** * Research GraphRAG: query safety gateway and analytics aggregation

    A shallow embedding of
      - [research_graph_rag/utils/validators.py]   (classes [CypherValidator]
        and [EnhancedCypherValidator], with the validation steps of the query
        tools of [agents/base_agent.py] and [agents/relationship_agent.py]),
      - [research_query_agent.py]                  (the notebook-era [CypherValidator]),
      - [research_graph_rag/core/models.py]        ([CommunityInfo],
        [get_confidence_level]),
      - [research_graph_rag/agents/network_agent.py]
        ([_calculate_composite_confidence], [_process_network_results],
         [_process_community_results], [find_related_by_network_analysis]),
    followed by the properties proved about them.

    Conventions.
    - A Python [str] is a list of characters.  Queries are ASCII text; the
      case mappings, [\s] and [\w] below are Python's tables restricted to the
      code points below 128, and characters from 128 on are taken as symbols
      without case that are neither whitespace nor word characters.
    - A raised exception is the [Raise] branch of [pyresult].
    - Python floats are the binary64 primitive floats. *)

From Stdlib Require Import ZArith Floats List Lia Ascii String Bool Permutation Sorted.
From stdpp Require Import base option list strings gmap.

Set Warnings "-inexact-float".

(** ** Python values shared by the modules *)

Abbreviation str := (list ascii).

(** Source literals are written [py "text"]. *)
Definition lit (s : string) : str := list_ascii_of_string s.
Notation "'py' s" := (lit s%string) (at level 9, s at level 0, only parsing).

Inductive pyresult (E A : Type) : Type :=
| Ok (a : A)
| Raise (e : E).
Arguments Ok {E A} a.
Arguments Raise {E A} e.

Global Instance pyresult_ret {E} : MRet (pyresult E) := fun _ a => Ok a.
Global Instance pyresult_bind {E} : MBind (pyresult E) := fun _ _ k m =>
  match m with
  | Ok a => k a
  | Raise e => Raise e
  end.

(** ** [str] methods *)
Module PyStr.

Definition code (c : ascii) : N := N_of_ascii c.

Definition between (lo hi : N) (c : ascii) : bool :=
  ((lo <=? code c) && (code c <=? hi))%N.

Definition is_lower (c : ascii) : bool := between 97 122 c.
Definition is_upper (c : ascii) : bool := between 65 90 c.
Definition is_digit (c : ascii) : bool := between 48 57 c.
Definition is_alpha (c : ascii) : bool := is_lower c || is_upper c.

(** [str.isspace] / [\s]: TAB LF VT FF CR, FS GS RS US, SPACE. *)
Definition isspace (c : ascii) : bool :=
  between 9 13 c || between 28 31 c || (code c =? 32)%N.

(** [\w] *)
Definition is_word (c : ascii) : bool :=
  is_alpha c || is_digit c || (code c =? 95)%N.

Definition upper_char (c : ascii) : ascii :=
  if is_lower c then ascii_of_N (code c - 32) else c.
Definition lower_char (c : ascii) : ascii :=
  if is_upper c then ascii_of_N (code c + 32) else c.

Definition upper (s : str) : str := map upper_char s.
Definition lower (s : str) : str := map lower_char s.

Definition eqc (a b : ascii) : bool := Ascii.eqb a b.

Fixpoint eqs (a b : str) : bool :=
  match a, b with
  | [], [] => true
  | x :: a', y :: b' => eqc x y && eqs a' b'
  | _, _ => false
  end.

(** [s.startswith(p)] *)
Fixpoint startswith (p s : str) : bool :=
  match p, s with
  | [], _ => true
  | x :: p', y :: s' => eqc x y && startswith p' s'
  | _ :: _, [] => false
  end.

(** [needle in hay] *)
Fixpoint contains (needle hay : str) : bool :=
  startswith needle hay ||
  match hay with
  | [] => false
  | _ :: hay' => contains needle hay'
  end.

(** [x in collection] for a collection of strings *)
Definition mem (x : str) (xs : list str) : bool := existsb (eqs x) xs.

(** [s.count(c)] for a one-character [c] *)
Fixpoint count (c : ascii) (s : str) : nat :=
  match s with
  | [] => 0
  | x :: s' => (if eqc x c then 1 else 0) + count c s'
  end.

Fixpoint lstrip (s : str) : str :=
  match s with
  | [] => []
  | c :: s' => if isspace c then lstrip s' else s
  end.
Definition rstrip (s : str) : str := rev (lstrip (rev s)).
Definition strip (s : str) : str := rstrip (lstrip s).

(** The longest prefix of [s] whose characters satisfy [p], and the rest. *)
Fixpoint span (p : ascii -> bool) (s : str) : str * str :=
  match s with
  | [] => ([], [])
  | c :: s' =>
      if p c then let '(a, b) := span p s' in (c :: a, b) else ([], s)
  end.

End PyStr.

(** ** The [re] calls of the sources

    A pattern is given by its matcher at the start of a string, as [re.match]
    would run it: the captured groups and the length of the match.  The three
    drivers below are [re.search], [re.findall] and [re.sub]: leftmost match
    first, then on from the end of that match.  No pattern of the sources
    matches the empty string. *)
Module Re.
Import PyStr.

Definition matcher (G : Type) := str -> option (G * nat).

Section Drivers.
Context {G : Type} (m : matcher G).

Fixpoint search (s : str) : bool :=
  match m s with
  | Some _ => true
  | None => match s with
            | [] => false
            | _ :: s' => search s'
            end
  end.

(** [skip]: characters still covered by the previous match. *)
Fixpoint findall_from (skip : nat) (s : str) : list G :=
  match s with
  | [] => []
  | _ :: s' =>
      match skip with
      | S k => findall_from k s'
      | O => match m s with
             | Some (g, len) => g :: findall_from (pred len) s'
             | None => findall_from 0 s'
             end
      end
  end.
Definition findall (s : str) : list G := findall_from 0 s.

Fixpoint sub_from (repl : G -> str) (skip : nat) (s : str) : str :=
  match s with
  | [] => []
  | c :: s' =>
      match skip with
      | S k => sub_from repl k s'
      | O => match m s with
             | Some (g, len) => repl g ++ sub_from repl (pred len) s'
             | None => c :: sub_from repl 0 s'
             end
      end
  end.
Definition sub (repl : G -> str) (s : str) : str := sub_from repl 0 s.
End Drivers.

Definition not_newline (c : ascii) : bool := negb (code c =? 10)%N.

(** [r'//.*$'] with [re.MULTILINE]: from [//] to the end of the line. *)
Definition line_comment : matcher unit := fun s =>
  match s with
  | "/"%char :: "/"%char :: rest =>
      Some (tt, 2 + length (fst (span not_newline rest)))
  | _ => None
  end.

(** Length of the shortest prefix of [s] that ends in [*/]. *)
Fixpoint upto_close (s : str) : option nat :=
  match s with
  | [] => None
  | c :: s' =>
      match c, s' with
      | "*"%char, "/"%char :: _ => Some 2
      | _, _ => option_map S (upto_close s')
      end
  end.

(** [r'/\*.*?\*/'] with [re.DOTALL]: from [/*] to the first [*/] after it. *)
Definition block_comment : matcher unit := fun s =>
  match s with
  | "/"%char :: "*"%char :: rest =>
      option_map (fun n => (tt, 2 + n)) (upto_close rest)
  | _ => None
  end.

(** [r'\s+'] *)
Definition spaces : matcher unit := fun s =>
  match fst (span isspace s) with
  | [] => None
  | run => Some (tt, length run)
  end.

Definition is_proc_char (c : ascii) : bool :=
  is_alpha c || is_digit c || (code c =? 95)%N || (code c =? 46)%N.

(** [r'CALL\s+([a-zA-Z0-9_.]+)'] with [re.IGNORECASE] *)
Definition call_pattern : matcher str := fun s =>
  match s with
  | c :: a :: l1 :: l2 :: rest =>
      if eqs (upper [c; a; l1; l2]) (py "CALL") then
        let '(ws, rest') := span isspace rest in
        let name := fst (span is_proc_char rest') in
        match ws, name with
        | _ :: _, _ :: _ => Some (name, 4 + length ws + length name)
        | _, _ => None
        end
      else None
  | _ => None
  end.

Definition is_ident_char (c : ascii) : bool :=
  is_alpha c || is_digit c || (code c =? 95)%N.

(** The label regex of [validate_labels]: a colon, then the group
    [[A-Za-z][A-Za-z0-9_]*]. *)
Definition label_pattern : matcher str := fun s =>
  match s with
  | ":"%char :: c :: rest =>
      if is_alpha c then
        let name := c :: fst (span is_ident_char rest) in
        Some (name, 1 + length name)
      else None
  | _ => None
  end.

(** The relationship regex: [\[:], the group [[A-Za-z_][A-Za-z0-9_]*],
    then [\]]. *)
Definition rel_pattern : matcher str := fun s =>
  match s with
  | "["%char :: ":"%char :: c :: rest =>
      if is_alpha c || (code c =? 95)%N then
        let '(tl, after) := span is_ident_char rest in
        match after with
        | "]"%char :: _ => Some (c :: tl, 4 + length tl)
        | _ => None
        end
      else None
  | _ => None
  end.

(** The regex of the notebook-era [validate_labels]: a colon, then the
    group [[A-Za-z_][A-Za-z0-9_]*]. *)
Definition label_or_rel_pattern : matcher str := fun s =>
  match s with
  | ":"%char :: c :: rest =>
      if is_alpha c || (code c =? 95)%N then
        let name := c :: fst (span is_ident_char rest) in
        Some (name, 1 + length name)
      else None
  | _ => None
  end.

(** The property regex: the groups [\w+] and [\w+] around a dot. *)
Definition property_access : matcher (str * str) := fun s =>
  let '(var, rest) := span is_word s in
  match var, rest with
  | _ :: _, "."%char :: rest' =>
      match fst (span is_word rest') with
      | [] => None
      | prop => Some ((var, prop), length var + 1 + length prop)
      end
  | _, _ => None
  end.

(** [rf"\.{bad}\b"]: [bad] ends in a word character, so [\b] asks for the
    end of the string or a non-word character next. *)
Definition dot_name (bad : str) : matcher unit := fun s =>
  match s with
  | "."%char :: rest =>
      if startswith bad rest then
        match skipn (length bad) rest with
        | [] => Some (tt, 1 + length bad)
        | c :: _ => if is_word c then None else Some (tt, 1 + length bad)
        end
      else None
  | _ => None
  end.

(** [str.replace(old, new)] scans the same way for the literal [old]. *)
Definition literal (old : str) : matcher unit := fun s =>
  if startswith old s then Some (tt, length old) else None.

Definition is_quote (c : ascii) : bool :=
  (code c =? 34)%N || (code c =? 39)%N.
Definition is_char (n : N) (c : ascii) : bool := (code c =? n)%N.

(** Patterns of the shape [c1.*c2.*...cn]: after [c1], the other classes are
    met in this order with no newline skipped ([.] does not match one).  At a
    character of the awaited class the match takes it or, as [.*] may, goes
    past it. *)
Fixpoint in_order (classes : list (ascii -> bool)) (s : str) : bool :=
  match classes with
  | [] => true
  | p :: classes' =>
      match s with
      | [] => false
      | c :: s' =>
          if p c then in_order classes' s' || (not_newline c && in_order classes s')
          else not_newline c && in_order classes s'
      end
  end.

(** Only [re.search] is run on these patterns: whether they match is all
    that is recorded. *)
Definition chain (first : ascii -> bool) (others : list (ascii -> bool))
  : matcher unit := fun s =>
  match s with
  | c :: s' => if first c && in_order others s' then Some (tt, 1) else None
  | [] => None
  end.

End Re.

(** ** [for x in xs: if bad(x): raise ...]: the first offending element *)
Definition first_bad {A} (bad : A -> bool) (xs : list A) : option A := find bad xs.

(** ** research_graph_rag/utils/validators.py, class [CypherValidator] *)
Module validators.
Import PyStr Re.

(** [ValidationError(message, validation_type, invalid_value)].  The message
    is determined by the two keyword arguments (and, for the label and
    relationship errors, by the order in which the class set is joined); the
    empty-query error is the one raised with neither of them. *)
Record ValidationError := mkValidationError {
  validation_type : option str;
  invalid_value : option str
}.

Definition error (kind value : str) : ValidationError :=
  mkValidationError (Some kind) (Some value).

Definition FORBIDDEN_KEYWORDS : list str :=
  [py "CREATE"; py "MERGE"; py "DELETE"; py "REMOVE"; py "SET"; py "DROP";
   py "DETACH DELETE"; py "FOREACH"; py "LOAD CSV"].

Definition ALLOWED_PROCEDURES : list str :=
  [py "gds."; py "db.labels"; py "db.relationshipTypes"; py "db.propertyKeys";
   py "db.schema"; py "dbms.components"].

Definition VALID_LABELS : list str := [py "Author"; py "Work"; py "Topic"].

Definition VALID_RELATIONSHIPS : list str :=
  [py "WORK_AUTHORED_BY"; py "WORK_HAS_TOPIC"; py "RELATED_TO";
   py "COLLABORATED_WITH"; py "SHARES_TOPIC_WITH"].

Definition _validate_procedure_calls (cypher : str) : pyresult ValidationError unit :=
  let calls := findall call_pattern cypher in
  match first_bad (fun call =>
          let call_lower := lower call in
          negb (existsb (fun prefix => startswith prefix call_lower) ALLOWED_PROCEDURES))
        calls with
  | Some call => Raise (error (py "procedure_validation") call)
  | None => Ok tt
  end.

(** [FORBIDDEN_KEYWORDS] is a set: [order] is the order in which the
    interpreter happens to iterate over it. *)
Definition assert_read_only (order : list str) (cypher : str)
  : pyresult ValidationError unit :=
  let cypher_upper := upper cypher in
  match first_bad (fun keyword => contains keyword cypher_upper) order with
  | Some keyword => Raise (error (py "read_only_check") keyword)
  | None =>
      if contains (py "CALL ") cypher_upper
      then _validate_procedure_calls cypher
      else Ok tt
  end.

Definition validate_labels (cypher : str) : pyresult ValidationError unit :=
  let labels := findall label_pattern cypher in
  match first_bad (fun label => negb (mem label VALID_LABELS)) labels with
  | Some label => Raise (error (py "label_validation") label)
  | None => Ok tt
  end.

Definition validate_relationships (cypher : str) : pyresult ValidationError unit :=
  let relationships := findall rel_pattern cypher in
  match first_bad (fun rel => negb (mem rel VALID_RELATIONSHIPS)) relationships with
  | Some rel => Raise (error (py "relationship_validation") rel)
  | None => Ok tt
  end.

(** The three [suspicious_patterns]: string concatenation, parameter
    injection, template injection; each paired with its source text. *)
Definition DQ : str := [ascii_of_N 34].
Definition QUOTES : str := py "[" ++ DQ ++ py "\']".

Definition suspicious_patterns : list (str * matcher unit) :=
  [ (QUOTES ++ py ".*" ++ QUOTES ++ py ".*\+.*" ++ QUOTES,
     chain is_quote [is_quote; is_char 43; is_quote]);
    (QUOTES ++ py ".*\$.*" ++ QUOTES,
     chain is_quote [is_char 36; is_quote]);
    (QUOTES ++ py ".*\{.*\}.*" ++ QUOTES,
     chain is_quote [is_char 123; is_char 125; is_quote]) ].

Definition validate_properties (cypher : str) : pyresult ValidationError unit :=
  match first_bad (fun pattern => search (snd pattern) cypher) suspicious_patterns with
  | Some pattern => Raise (error (py "property_validation") (fst pattern))
  | None => Ok tt
  end.

Definition is_empty (s : str) : bool := match s with [] => true | _ => false end.

(** The cleaning steps of [prepare_cypher]. *)
Definition clean (cypher : str) : str :=
  let cleaned := strip cypher in
  let cleaned := sub line_comment (fun _ => []) cleaned in
  let cleaned := sub block_comment (fun _ => []) cleaned in
  let cleaned := sub spaces (fun _ => py " ") cleaned in
  cleaned.

Definition prepare_cypher (order : list str) (cypher : str)
  : pyresult ValidationError str :=
  if is_empty cypher || is_empty (strip cypher)
  then Raise (mkValidationError None None)
  else
    let cleaned := clean cypher in
    assert_read_only order cleaned ;;
    Ok cleaned.

Definition structure_error : ValidationError :=
  mkValidationError (Some (py "structure_validation")) None.

Definition validate_query_structure (cypher : str) : pyresult ValidationError unit :=
  let cypher_upper := upper cypher in
  if negb (count "(" cypher =? count ")" cypher)%nat then Raise structure_error
  else if negb (count "[" cypher =? count "]" cypher)%nat then Raise structure_error
  else if negb (count "{" cypher =? count "}" cypher)%nat then Raise structure_error
  else if negb (existsb (fun keyword => contains keyword cypher_upper)
                  [py "RETURN"; py "YIELD"])
          && negb (contains (py "CALL") cypher_upper)
  then Raise structure_error
  else Ok tt.

Definition validate_full (order : list str) (cypher : str)
  : pyresult ValidationError str :=
  prepared ← prepare_cypher order cypher ;
  validate_query_structure prepared ;;
  validate_properties prepared ;;
  (if negb (contains (py "CALL gds.") (upper prepared))
   then validate_labels prepared ;; validate_relationships prepared
   else Ok tt) ;;
  Ok prepared.

(** *** class [EnhancedCypherValidator] *)

Definition ENHANCED_RELATIONSHIPS : list str :=
  VALID_RELATIONSHIPS ++ [py "CO_AUTHORED"; py "WORKS_WITH"; py "SIMILAR_TO"].

Definition inference_patterns : list str :=
  [py "COLLABORATED_WITH"; py "SHARES_TOPIC_WITH"; py "CO_AUTHORED"; py "WORKS_WITH"].

Definition validate_enhanced_relationships (cypher : str)
  : pyresult ValidationError unit :=
  let relationships := findall rel_pattern cypher in
  match first_bad (fun rel => negb (mem rel ENHANCED_RELATIONSHIPS)
                              && negb (mem rel inference_patterns))
        relationships with
  | Some rel => Raise (error (py "enhanced_relationship_validation") rel)
  | None => Ok tt
  end.

(** The dict [enhancements], in the order it is written. *)
Definition enhancements : list (str * str) :=
  [ (py "COLLABORATED_WITH",
     py "[:WORK_AUTHORED_BY]->(:Work)<-[:WORK_AUTHORED_BY]");
    (py "CO_AUTHORED",
     py "[:WORK_AUTHORED_BY]->(:Work)<-[:WORK_AUTHORED_BY]");
    (py "SHARES_TOPIC_WITH",
     py "[:WORK_AUTHORED_BY]->(:Work)-[:WORK_HAS_TOPIC]->(:Topic)<-[:WORK_HAS_TOPIC]-(:Work)<-[:WORK_AUTHORED_BY]") ].

(** The regex built from a key of [enhancements] has no operator left
    after its escapes: it matches the text [-[:KEY]->] and nothing else. *)
Definition enhance_query_for_relationships (cypher : str) : str :=
  fold_left (fun enhanced_cypher '(pattern, replacement) =>
               sub (literal (py "-[:" ++ pattern ++ py "]->"))
                   (fun _ => py "-" ++ replacement ++ py "-") enhanced_cypher)
            enhancements cypher.

(** The validation steps of the query tool of
    [agents/relationship_agent.py]. *)
Definition enhanced_tool_validation (order : list str) (cypher : str)
  : pyresult ValidationError str :=
  safe_cypher ← prepare_cypher order cypher ;
  let safe_cypher := enhance_query_for_relationships safe_cypher in
  validate_enhanced_relationships safe_cypher ;;
  validate_properties safe_cypher ;;
  Ok safe_cypher.

(** The validation steps of the query tool of [agents/base_agent.py]. *)
Definition base_tool_validation (order : list str) (cypher : str)
  : pyresult ValidationError str :=
  safe_cypher ← prepare_cypher order cypher ;
  validate_properties safe_cypher ;;
  Ok safe_cypher.

End validators.

(** ** research_query_agent.py, the module-level tables and [CypherValidator] *)
Module research_query_agent.
Import PyStr Re.

(** [ValueError(message)] *)
Definition ValueError := str.

Definition FORBIDDEN_KEYWORDS : list str :=
  [py "CREATE"; py "MERGE"; py "DELETE"; py "SET"; py "DROP";
   py "REMOVE"; py "CALL"; py "LOAD CSV"; py "APOC"].

Definition SCHEMA : list (str * list str) :=
  [ (py "Author", [py "id"; py "name"; py "display_name"]);
    (py "Work", [py "id"; py "title"; py "type"; py "publication_date"]);
    (py "Topic", [py "id"; py "display_name"; py "score"]) ].

Definition PROPERTY_ALIASES : list (str * str) :=
  [ (py "publication_year", py "publication_date");
    (py "pub_year", py "publication_date");
    (py "year", py "publication_date") ].

Definition RELATIONSHIP_CANONICAL : list (str * str) :=
  [ (py "WROTE", py "WORK_AUTHORED_BY");
    (py "AUTHORED", py "WORK_AUTHORED_BY");
    (py "AUTHORED_BY", py "WORK_AUTHORED_BY");
    (py "HAS_TOPIC", py "WORK_HAS_TOPIC");
    (py "TOPIC_IN", py "WORK_HAS_TOPIC") ].

Definition VALID_LABELS : list str := [py "Author"; py "Work"; py "Topic"].

(** [order]: the iteration order of the set [FORBIDDEN_KEYWORDS]. *)
Definition assert_read_only (order : list str) (cypher : str)
  : pyresult ValueError unit :=
  let upper := upper cypher in
  match first_bad (fun kw => contains kw upper) order with
  | Some kw => Raise (py "Forbidden Cypher keyword: " ++ kw)
  | None => Ok tt
  end.

(** [any(prop in props for props in SCHEMA.values())] *)
Definition known_property (prop : str) : bool :=
  existsb (fun props => mem prop props) (map snd SCHEMA).

Definition validate_properties (cypher : str) : pyresult ValueError unit :=
  let matches := findall property_access cypher in
  match first_bad (fun '(var, prop) => negb (known_property prop)) matches with
  | Some (var, prop) =>
      Raise (py "Unknown property `" ++ prop ++ py "` referenced in Cypher.")
  | None => Ok tt
  end.

Definition normalize_properties (cypher : str) : str :=
  fold_left (fun cypher '(bad, good) =>
               sub (dot_name bad) (fun _ => py "." ++ good) cypher)
            PROPERTY_ALIASES cypher.

Definition normalize_relationships (cypher : str) : str :=
  fold_left (fun cypher '(bad, good) =>
               sub (literal (py ":" ++ bad)) (fun _ => py ":" ++ good) cypher)
            RELATIONSHIP_CANONICAL cypher.

Definition validate_labels (cypher : str) : pyresult ValueError unit :=
  let labels := findall label_or_rel_pattern cypher in
  match first_bad (fun label =>
          negb (mem label VALID_LABELS)
          && negb (mem label (map snd RELATIONSHIP_CANONICAL)))
        labels with
  | Some label => Raise (py "Unknown label or relationship: " ++ label)
  | None => Ok tt
  end.

Definition prepare_cypher (order : list str) (cypher : str)
  : pyresult ValueError str :=
  assert_read_only order cypher ;;
  let cypher := normalize_relationships cypher in
  validate_labels cypher ;;
  Ok cypher.

End research_query_agent.

(** ** research_graph_rag/core/models.py *)
Module models.

(** pydantic's [ValidationError] *)
Inductive ValidationError := validation_error.

(** [CommunityInfo.dict()] *)
Record CommunityInfo := mkCommunityInfo {
  community_id : Z;
  size : nat;
  works : list (str * str);
  total_works : nat;
  avg_centrality : option float;
  top_work : option (list (string * str))
}.

(** [CommunityInfo(community_id=..., size=..., works=..., total_works=...)]:
    the model asks for an [int] and for strings as the values of every
    work; [None] is refused.  The two optional fields keep their default. *)
Definition new_CommunityInfo (community_id : option Z) (size : nat)
           (works : list (option str * option str)) (total_works : nat)
  : pyresult ValidationError CommunityInfo :=
  match community_id,
        mapM (fun '(work_id, title) =>
                work_id ← work_id ; title ← title ; Some (work_id, title)) works with
  | Some community_id, Some works =>
      Ok (mkCommunityInfo community_id size works total_works None None)
  | _, _ => Raise validation_error
  end.

Definition is_large_community (c : CommunityInfo) (threshold : nat) : bool :=
  (threshold <=? size c)%nat.

(** [NetworkAnalysisResult.get_confidence_level], of the float that the
    object holds as its [confidence_score]. *)
Definition get_confidence_level (confidence_score : float) : string :=
  if (0.8 <=? confidence_score)%float then "Very High"
  else if (0.6 <=? confidence_score)%float then "High"
  else if (0.4 <=? confidence_score)%float then "Moderate"
  else if (0.2 <=? confidence_score)%float then "Low"
  else "Very Low".

End models.

(** ** research_graph_rag/agents/network_agent.py, class [NetworkAnalysisAgent] *)
Module network_agent.
Import PyStr.
Open Scope float_scope.

(** An entry of a result record (a [dict]): the key is missing, it holds
    [None], or it holds a value. *)
Inductive field (A : Type) : Type :=
| Absent
| Null
| Val (a : A).
Arguments Absent {A}.
Arguments Null {A}.
Arguments Val {A} a.

(** [record.get(key)] and [record.get(key, default)]; [None] is Python's. *)
Definition get {A} (f : field A) : option A :=
  match f with
  | Val a => Some a
  | Absent | Null => None
  end.
Definition get_default {A} (f : field A) (default : A) : option A :=
  match f with
  | Val a => Some a
  | Absent => Some default
  | Null => None
  end.

(** The keys the agent reads from a record of the analytics backend.  The
    graph procedures deliver scores as floats and the community as an
    integer; a 64-bit integer score would enter the arithmetic below as the
    float it converts to. *)
Record record := mkRecord {
  work_id : field str;
  title : field str;
  degree_centrality : field float;
  betweenness_centrality : field float;
  closeness_centrality : field float;
  pagerank_score : field float;
  community_id : field Z;
  totalCost : field float;
  similarity_score : field float;
  score : field float;
  confidence_score : field float
}.

Definition metric (r : record) (key : string) : field float :=
  if String.eqb key "degree_centrality" then degree_centrality r
  else if String.eqb key "betweenness_centrality" then betweenness_centrality r
  else if String.eqb key "closeness_centrality" then closeness_centrality r
  else if String.eqb key "pagerank_score" then pagerank_score r
  else if String.eqb key "totalCost" then totalCost r
  else if String.eqb key "similarity_score" then similarity_score r
  else if String.eqb key "score" then score r
  else if String.eqb key "confidence_score" then confidence_score r
  else Absent.

(** [processed_record['confidence_score'] = confidence] *)
Definition set_confidence (r : record) (confidence : field float) : record :=
  mkRecord (work_id r) (title r) (degree_centrality r) (betweenness_centrality r)
           (closeness_centrality r) (pagerank_score r) (community_id r)
           (totalCost r) (similarity_score r) (score r) confidence.

Inductive exn :=
| TypeError
| ValueError (msg : str)
| BackendError (msg : str).

Definition weights : list (string * float) :=
  [ ("degree_centrality", 0.2); ("betweenness_centrality", 0.3);
    ("closeness_centrality", 0.2); ("pagerank_score", 0.3) ]%string.

(** [min(a, b)] of two floats: [b] when [b < a], else [a]. *)
Definition py_min (a b : float) : float := if b <? a then b else a.

Definition _calculate_composite_confidence (r : record) : float :=
  let '(score, total_weight) :=
    fold_left (fun '(score, total_weight) '(metric_name, weight) =>
                 match get (metric r metric_name) with
                 | Some value =>
                     if 0 <? value
                     then (score + weight * value, total_weight + weight)
                     else (score, total_weight)
                 | None => (score, total_weight)
                 end)
              weights (0, 0) in
  let normalized_score := if 0 <? total_weight then score / total_weight else 0 in
  let normalized_score :=
    match get (community_id r) with
    | Some _ => normalized_score * 1.2
    | None => normalized_score
    end in
  py_min normalized_score 1.

Definition metric_map : list (string * string) :=
  [ ("centrality", "pagerank_score"); ("community", "pagerank_score");
    ("shortest_path", "totalCost"); ("similarity", "similarity_score") ]%string.

Fixpoint dict_get {V} (d : list (string * V)) (key : string) : option V :=
  match d with
  | [] => None
  | (k, v) :: d' => if String.eqb k key then Some v else dict_get d' key
  end.

Definition _get_main_metric (r : record) (analysis_type : string)
  : pyresult exn float :=
  let metric_key := default "score"%string (dict_get metric_map analysis_type) in
  let value := get_default (metric r metric_key) 0 in
  if String.eqb analysis_type "shortest_path" then
    match value with
    | None => Raise TypeError
    | Some value => Ok (if 0 <? value then 1 / (1 + value) else 0)
    end
  else
    Ok (match value with Some value => value | None => 0 end).

Definition _get_metrics_list (analysis_type : string) : list string :=
  default ["score"%string]
    (dict_get
       [ ("comprehensive", ["degree_centrality"; "betweenness_centrality";
                            "closeness_centrality"; "pagerank_score"; "community_id"]);
         ("community", ["pagerank_score"; "community_id"; "same_community"]);
         ("centrality", ["pagerank_score"]);
         ("shortest_path", ["totalCost"; "path_length"]);
         ("similarity", ["similarity_score"]) ]%string
       analysis_type).

(** The sort key [x.get('confidence_score', 0)]; [None] is Python's. *)
Definition sort_key (r : record) : option float := get_default (confidence_score r) 0.

(** [list.sort(key=..., reverse=True)] is a stable sort that only asks
    [key(a) < key(b)]: an element goes before the first one that its key is
    not below, equal keys keep their order.  Comparing with a [None] key
    raises [TypeError], which happens as soon as there are two elements.
    With a NaN among the keys [<] is not an order and the result of Python's
    merge sort depends on its runs; that case is outside the model. *)
Definition key_of (r : record) : float := default 0 (sort_key r).

Fixpoint insert_desc (x : record) (l : list record) : list record :=
  match l with
  | [] => [x]
  | y :: l' => if key_of x <? key_of y then y :: insert_desc x l' else x :: l
  end.

Definition sort_desc (l : list record) : pyresult exn (list record) :=
  if (2 <=? length l)%nat && existsb (fun r => bool_decide (sort_key r = None)) l
  then Raise TypeError
  else Ok (fold_right insert_desc [] l).

(** What the query tool returns: its own error dict, or the records. *)
Inductive tool_result :=
| ToolError (error message : str)
| ToolRecords (records : list record).

(** The dicts [_process_network_results] returns, and the error marker
    [{"error": str(e)}] of the caller. *)
Inductive entry :=
| ErrorMarker (e : exn)
| ToolFailure (error message : str)
| NoResults
| Ranked (count : nat) (records : list record)
         (analysis_type : string) (metrics_included : list string).

Definition process_record (analysis_type : string) (r : record)
  : pyresult exn record :=
  if String.eqb analysis_type "comprehensive" then
    let confidence := _calculate_composite_confidence r in
    Ok (set_confidence r (Val confidence))
  else if String.eqb analysis_type "community" then
    match get_default (confidence_score r) 0 with
    | Some confidence => Ok (set_confidence r (Val confidence))
    | None => Ok (set_confidence r Null)
    end
  else
    main_metric ← _get_main_metric r analysis_type ;
    Ok (set_confidence r (Val main_metric)).

Definition _process_network_results (result : tool_result) (analysis_type : string)
  : pyresult exn entry :=
  match result with
  | ToolError error message => Ok (ToolFailure error message)
  | ToolRecords [] => Ok NoResults
  | ToolRecords records =>
      processed_records ← mapM (process_record analysis_type) records ;
      processed_records ← sort_desc processed_records ;
      Ok (Ranked (length processed_records) processed_records analysis_type
                 (_get_metrics_list analysis_type))
  end.

(** [NetworkAnalysisConfig.validate_analysis_types] *)
Definition supported_types : list string :=
  [ "comprehensive"; "community"; "centrality"; "shortest_path"; "similarity" ]%string.
Definition validate_analysis_types (analysis_types : list string) : list string :=
  filter (fun t => t ∈ supported_types) analysis_types.

Definition query_map : list (string * string) :=
  [ ("comprehensive", "comprehensive_network_analysis");
    ("community", "find_related_by_centrality");
    ("centrality", "pagerank");
    ("shortest_path", "shortest_path");
    ("similarity", "node_similarity") ]%string.

(** The keys of [GDS_QUERY_TEMPLATES]. *)
Definition gds_templates : list string :=
  [ "create_projection"; "degree_centrality"; "betweenness_centrality";
    "closeness_centrality"; "pagerank"; "community_detection"; "shortest_path";
    "node_similarity"; "find_related_by_centrality";
    "comprehensive_network_analysis"; "graph_exists"; "drop_graph"; "graph_info";
    "eigenvector_centrality"; "triangles"; "local_clustering_coefficient";
    "weakly_connected_components"; "strongly_connected_components" ]%string.

(** The validation of the agent's own query tool; [order] as in
    [validators.assert_read_only]. *)
Definition _prepare_gds_query (order : list str) (cypher : str)
  : pyresult validators.ValidationError str :=
  if contains (py "CALL gds.") cypher then Ok cypher
  else
    validators.assert_read_only order cypher ;;
    Ok cypher.

(** Truth value of an optional string argument: [None] and [''] are false. *)
Definition truthy (s : option str) : bool :=
  match s with
  | Some (_ :: _) => true
  | _ => false
  end.

(** A member of a community as [_process_community_results] stores it:
    the [work_id] and the [title] that [record.get] gave. *)
Definition member : Type := option str * option str.

(** [if community_id not in communities: communities[community_id] = []]
    and [communities[community_id].append(work)]; the dict keeps its keys
    in the order of their first insertion. *)
Fixpoint add_member (community_id : option Z) (work : member)
         (communities : list (option Z * list member))
  : list (option Z * list member) :=
  match communities with
  | [] => [(community_id, [work])]
  | (k, works) :: rest =>
      if bool_decide (k = community_id)
      then (k, works ++ [work]) :: rest
      else (k, works) :: add_member community_id work rest
  end.

(** [community_stats.sort(key=lambda x: x['size'], reverse=True)] *)
Fixpoint insert_by_size (x : models.CommunityInfo) (l : list models.CommunityInfo)
  : list models.CommunityInfo :=
  match l with
  | [] => [x]
  | y :: l' =>
      if (models.size x <? models.size y)%nat
      then y :: insert_by_size x l' else x :: l
  end.

Inductive community_report :=
| CommunityFailure (error message : str)
| NoCommunities
| Communities (total_communities total_works : nat)
              (communities : list models.CommunityInfo)
              (largest_community_size : nat).

Definition _process_community_results (result : tool_result)
  : pyresult models.ValidationError community_report :=
  match result with
  | ToolError error message => Ok (CommunityFailure error message)
  | ToolRecords [] => Ok NoCommunities
  | ToolRecords records =>
      let communities :=
        fold_left (fun communities r =>
                     add_member (get (community_id r))
                                (get (work_id r), get (title r)) communities)
                  records [] in
      community_stats ←
        mapM (fun '(community_id, works) =>
                models.new_CommunityInfo community_id (length works)
                                         (firstn 5 works) (length works))
             communities ;
      let community_stats := fold_right insert_by_size [] community_stats in
      Ok (Communities (length communities) (length records) community_stats
                      (match communities with
                       | [] => 0%nat
                       | _ => list_max (map (fun c => length (snd c)) communities)
                       end))
  end.

Section Agent.
(** The backend: what the query tool does, return or raise, on the [n]-th
    call of the analysis loop, made for the given query template. *)
Variable neo4j_tool : nat -> string -> pyresult exn tool_result.

Definition _run_analysis_type (n : nat) (analysis_type : string)
  : pyresult exn tool_result :=
  match dict_get query_map analysis_type with
  | Some query_template =>
      if bool_decide (query_template ∈ gds_templates)
      then neo4j_tool n query_template
      else Raise (ValueError (py "Unsupported analysis type: "
                                ++ list_ascii_of_string analysis_type))
  | None => Raise (ValueError (py "Unsupported analysis type: "
                                 ++ list_ascii_of_string analysis_type))
  end.

(** The body of the [for] loop: [try: ... except Exception as e: ...]. *)
Definition attempt (n : nat) (analysis_type : string) : entry :=
  match (result ← _run_analysis_type n analysis_type ;
         _process_network_results result analysis_type) with
  | Ok processed => processed
  | Raise e => ErrorMarker e
  end.

Fixpoint analysis_loop (n : nat) (analysis_types : list string)
         (results : gmap string entry) : gmap string entry :=
  match analysis_types with
  | [] => results
  | analysis_type :: rest =>
      analysis_loop (S n) rest (<[analysis_type := attempt n analysis_type]> results)
  end.

Inductive response :=
| Error (msg : str)
| Report (analysis_types : list string) (results : gmap string entry).

(** [projection_ok]: the outcome of [ensure_graph_projection];
    [config_types]: [config.analysis_types]. *)
Definition find_related_by_network_analysis
           (title_keyword work_id : option str) (config_types : list string)
           (projection_ok : bool) : response :=
  if negb (truthy title_keyword) && negb (truthy work_id)
  then Error (py "Either title_keyword or work_id must be provided")
  else if negb projection_ok
  then Error (py "Failed to create graph projection for network analysis")
  else
    let analysis_types := validate_analysis_types config_types in
    Report analysis_types (analysis_loop 0 analysis_types ∅).
End Agent.

End network_agent.

(** ** The composite confidence score as the specification words it *)
Module reference.
Import network_agent.
Open Scope float_scope.

(** A metric of the weight table that is present and strictly greater than
    0, with its weight. *)
Definition select (r : record) (entry : string * float) : option (float * float) :=
  let '(metric_name, weight) := entry in
  match get (metric r metric_name) with
  | Some value => if 0 <? value then Some (weight, value) else None
  | None => None
  end.

(** The available metrics of a record, in the order of the weight table. *)
Definition available_metrics (r : record) : list (float * float) :=
  omap (select r) weights.

(** Running sums, from 0, left to right. *)
Definition weighted_sum (l : list (float * float)) : float :=
  fold_left (fun acc '(weight, value) => acc + weight * value) l 0.
Definition weight_sum (l : list (float * float)) : float :=
  fold_left (fun acc '(weight, _) => acc + weight) l 0.

Definition clamp_at_most_1 (x : float) : float := if 1 <? x then 1 else x.

Definition composite_confidence (r : record) : float :=
  let l := available_metrics r in
  let normalized := if 0 <? weight_sum l then weighted_sum l / weight_sum l else 0 in
  let boosted :=
    match community_id r with
    | Val _ => normalized * 1.2
    | Absent | Null => normalized
    end in
  clamp_at_most_1 boosted.
End reference.

(** ** Auxiliary definitions used by the proofs *)
Module Aux.
Import PyStr.

(** Whitespace collapsing as a one-pass function: [in_run] tells whether
    the previous character was whitespace. *)
Fixpoint collapse (in_run : bool) (s : str) : str :=
  match s with
  | [] => []
  | c :: s' =>
      if isspace c
      then (if in_run then collapse true s' else " "%char :: collapse true s')
      else c :: collapse false s'
  end.

(** [collapse] copies the word [n] unchanged: its whitespace is single
    blanks, none of them first or after whitespace. *)
Fixpoint kept (in_run : bool) (n : str) : bool :=
  match n with
  | [] => true
  | c :: n' =>
      if isspace c then negb in_run && eqc c " " && kept true n'
      else kept false n'
  end.

(** The first and the last character of [n] are not whitespace. *)
Definition solid_ends (n : str) : bool :=
  match hd_error n, hd_error (rev n) with
  | Some c, Some d => negb (isspace c) && negb (isspace d)
  | _, _ => false
  end.

Definition word_or_dot (c : ascii) : bool := is_word c || (code c =? 46)%N.

(** A letter or an underscore: the first character of a token of the
    notebook-era label scan. *)
Definition is_start (c : ascii) : bool := is_alpha c || (code c =? 95)%N.

(** A canonical label or relationship type of the notebook-era tables. *)
Definition canonical (token : str) : Prop :=
  In token research_query_agent.VALID_LABELS
  \/ In token (map snd research_query_agent.RELATIONSHIP_CANONICAL).

(** The message of the [ValueError] that [validate_properties] raises. *)
Definition unknown_property_error (prop : str) : research_query_agent.ValueError :=
  py "Unknown property `" ++ prop ++ py "` referenced in Cypher.".

(** [pre] is empty or ends in a character that is neither a word character
    nor a dot: no property access runs over its end. *)
Definition closed_end (pre : str) : Prop :=
  match rev pre with
  | [] => True
  | c :: _ => word_or_dot c = false
  end.

(** Classes of [spec_float] values. *)
Definition sf_nonneg (x : spec_float) : bool :=
  match x with
  | S754_zero _ | S754_finite false _ _ | S754_infinity false => true
  | _ => false
  end.
Definition sf_pos (x : spec_float) : bool :=
  match x with
  | S754_finite false _ _ | S754_infinity false => true
  | _ => false
  end.
Definition sf_finpos (x : spec_float) : bool :=
  match x with
  | S754_finite false _ _ => true
  | _ => false
  end.
Definition sf_sign_is (sx : bool) (x : spec_float) : bool :=
  match x with
  | S754_zero s | S754_infinity s | S754_finite s _ _ => Bool.eqb s sx
  | S754_nan => false
  end.

(** An order-preserving key of the floats that are not NaN. *)
Definition sf_key (x : spec_float) : Z * Z * Z :=
  match x with
  | S754_infinity true => (-2, 0, 0)
  | S754_finite true m e => (-1, - e, - Z.pos m)
  | S754_zero _ => (0, 0, 0)
  | S754_finite false m e => (1, e, Z.pos m)
  | S754_infinity false => (2, 0, 0)
  | S754_nan => (3, 0, 0)
  end%Z.

Definition cmp3 (a b : Z * Z * Z) : comparison :=
  let '(a1, a2, a3) := a in
  let '(b1, b2, b3) := b in
  match (a1 ?= b1)%Z with
  | Eq => match (a2 ?= b2)%Z with
          | Eq => (a3 ?= b3)%Z
          | c => c
          end
  | c => c
  end.
(** Whether every character of [s] is an ASCII character: the texts on
    which the tables of [PyStr] are Python's. *)
Definition ascii_only (s : str) : bool :=
  forallb (fun c => (code c <? 128)%N) s.

(** The characters of [s] before the first [t]. *)
Definition run (t : ascii) (s : str) : str :=
  fst (span (fun c => negb (eqc c t)) s).

(** A pattern that starts with the character [t] and looks no further than
    the next [t]. *)
Definition local_at {G} (t : ascii) (m : Re.matcher G) : Prop :=
  (forall s g, m s = Some g -> exists x, s = t :: x)
  /\ (forall x, m (t :: x) = m (t :: run t x))
  /\ (forall x g len, m (t :: x) = Some (g, len) -> len <= S (length (run t x))).

(** The aliases of a table replaced in turn: [mk bad] is the pattern of
    the alias [bad], and every replacement starts with [t]. *)
Definition rewrite_all (t : ascii) (mk : str -> Re.matcher unit)
           (l : list (str * str)) (s : str) : str :=
  fold_left (fun s '(bad, good) => Re.sub (mk bad) (fun _ => t :: good) s) l s.

(** A record without its [confidence_score] entry. *)
Definition without_confidence (r : network_agent.record) : network_agent.record :=
  network_agent.set_confidence r network_agent.Absent.

(** The entry that a record adds to its community. *)
Definition member_of (r : network_agent.record) : network_agent.member :=
  (network_agent.get (network_agent.work_id r),
   network_agent.get (network_agent.title r)).

(** Whether [record.get('community_id')] is [k]. *)
Definition in_community (k : option Z) (r : network_agent.record) : bool :=
  bool_decide (network_agent.get (network_agent.community_id r) = k).

(** [communities[k]], or the empty list for a key that is not there. *)
Fixpoint members (k : option Z) (communities : list (option Z * list network_agent.member))
  : list network_agent.member :=
  match communities with
  | [] => []
  | (k', works) :: rest => if bool_decide (k' = k) then works else members k rest
  end.

(** The dict [communities] after the grouping loop. *)
Definition grouped (records : list network_agent.record)
  : list (option Z * list network_agent.member) :=
  fold_left (fun communities r =>
               network_agent.add_member
                 (network_agent.get (network_agent.community_id r))
                 (network_agent.get (network_agent.work_id r),
                  network_agent.get (network_agent.title r)) communities)
            records [].

(** A validated work of a [CommunityInfo], as the pair it came from. *)
Definition as_member (w : str * str) : network_agent.member :=
  (Some (fst w), Some (snd w)).

(** At least as large as: the order of the community report. *)
Definition larger (a b : models.CommunityInfo) : Prop :=
  models.size b <= models.size a.

(** The confidence levels, from the lowest. *)
Definition level_rank (level : string) : nat :=
  if String.eqb level "Very High" then 4
  else if String.eqb level "High" then 3
  else if String.eqb level "Moderate" then 2
  else if String.eqb level "Low" then 1
  else 0.

Section ConfidenceAux.
Import network_agent.
Open Scope float_scope.

(** The record of the specification's example. *)
Definition example_record : record :=
  mkRecord Absent Absent (Val 0.5) Null (Val 0) (Val 0.8) (Val 3%Z)
           Absent Absent Absent Absent.

(** Whether a metric is present and positive. *)
Definition qualifies (r : record) (metric_name : string) : bool :=
  match get (metric r metric_name) with
  | Some value => 0 <? value
  | None => false
  end.

(** The sort key of a record is a float other than NaN. *)
Definition has_float_key (r : record) : bool :=
  match sort_key r with
  | Some c => c =? c
  | None => false
  end.

(** [a] ranks at least as high as [b]. *)
Definition ranks_above (a b : record) : Prop := (key_of b <=? key_of a) = true.

(** The records whose confidence equals [c]. *)
Definition with_confidence (c : float) (l : list record) : list record :=
  List.filter (fun r => key_of r =? c) l.

(** The query template an analysis kind runs. *)
Definition template_of (analysis_type : string) : string :=
  default ""%string (dict_get query_map analysis_type).
End ConfidenceAux.
End Aux.

(** * Properties *)

(** ** Strings *)
Section StrFacts.
Import PyStr.

Lemma eqc_true (a b : ascii) : eqc a b = true <-> a = b.
Proof. apply Ascii.eqb_eq. Qed.

Lemma eqs_true (a b : str) : eqs a b = true <-> a = b.
Proof.
  revert b; induction a as [|x a IH]; intros [|y b]; simpl; try easy.
  rewrite andb_true_iff, eqc_true, IH. split.
  - intros [-> ->]; reflexivity.
  - intros [= -> ->]; auto.
Qed.

Lemma mem_true (x : str) (xs : list str) : mem x xs = true <-> In x xs.
Proof.
  unfold mem. rewrite existsb_exists. split.
  - intros (y & Hy & E). apply eqs_true in E. now subst.
  - intros H. exists x. split; [assumption | now apply eqs_true].
Qed.

Lemma startswith_app (p s : str) :
  startswith p s = true <-> exists t, s = p ++ t.
Proof.
  revert s; induction p as [|x p IH]; intros s; simpl.
  - split; eauto.
  - destruct s as [|y s].
    + split; [discriminate | intros (t & [=])].
    + rewrite andb_true_iff, eqc_true, IH. split.
      * intros (-> & t & ->). now exists t.
      * intros (t & [= -> ->]). eauto.
Qed.

Lemma contains_app (needle hay : str) :
  contains needle hay = true <-> exists a b, hay = a ++ needle ++ b.
Proof.
  induction hay as [|c hay IH]; simpl.
  - rewrite orb_false_r, startswith_app. split.
    + intros (t & E). now exists [], t.
    + intros (a & b & E). symmetry in E.
      apply app_eq_nil in E as (-> & E). apply app_eq_nil in E as (-> & ->).
      now exists [].
  - rewrite orb_true_iff, startswith_app, IH. split.
    + intros [(t & E) | (a & b & E)].
      * now exists [], t.
      * exists (c :: a), b. now rewrite E.
    + intros ([|x a] & b & E); simpl in E.
      * left. now exists b.
      * right. injection E as -> ->. now exists a, b.
Qed.

Lemma contains_In (needle hay : str) (c : ascii) :
  contains needle hay = true -> In c needle -> In c hay.
Proof.
  intros H Hc. apply contains_app in H as (a & b & ->).
  apply in_or_app. right. apply in_or_app. now left.
Qed.

Lemma upper_char_not_lower (c : ascii) : is_lower (upper_char c) = false.
Proof. destruct c as [[] [] [] [] [] [] [] []]; reflexivity. Qed.

Lemma upper_not_lower (s : str) (c : ascii) : In c (upper s) -> is_lower c = false.
Proof.
  unfold upper. rewrite in_map_iff. intros (x & <- & _). apply upper_char_not_lower.
Qed.

(** An upper-cased string never contains a needle that has a lower-case
    letter in it. *)
Lemma upper_lacks (needle s : str) (c : ascii) :
  In c needle -> is_lower c = true -> contains needle (upper s) = false.
Proof.
  intros Hc Hl. destruct (contains needle (upper s)) eqn:E; [|reflexivity].
  pose proof (upper_not_lower s c (contains_In _ _ _ E Hc)). congruence.
Qed.

Lemma contains_nil (needle : str) : needle <> [] -> contains needle [] = false.
Proof. destruct needle; [congruence | reflexivity]. Qed.

End StrFacts.

(** ** Loops that raise at the first offending element *)
Section FirstBad.
Context {A : Type} (bad : A -> bool).

Lemma first_bad_Some (xs : list A) (x : A) :
  first_bad bad xs = Some x -> In x xs /\ bad x = true.
Proof. apply find_some. Qed.

Lemma first_bad_None (xs : list A) :
  first_bad bad xs = None <-> Forall (fun x => bad x = false) xs.
Proof.
  unfold first_bad. rewrite List.Forall_forall. split.
  - intros H x Hx. exact (find_none _ _ H x Hx).
  - induction xs as [|y xs IH]; intros H; simpl; [reflexivity|].
    rewrite (H y) by (left; reflexivity). apply IH.
    intros x Hx. apply H. now right.
Qed.

Lemma first_bad_found (xs : list A) (x : A) :
  In x xs -> bad x = true -> exists y, first_bad bad xs = Some y.
Proof.
  intros Hx Hb. destruct (first_bad bad xs) as [y|] eqn:E; [eauto|].
  apply first_bad_None in E. rewrite List.Forall_forall in E.
  rewrite (E x Hx) in Hb. discriminate.
Qed.

(** Whether the loop raises does not depend on the iteration order. *)
Lemma first_bad_None_perm (xs ys : list A) :
  Permutation xs ys -> first_bad bad ys = None -> first_bad bad xs = None.
Proof.
  intros P. rewrite !first_bad_None. intros H. now rewrite P.
Qed.
End FirstBad.

(** ** The read-only check *)
Section ReadOnly.
Import PyStr Re.

(** A keyword set and one order of iterating over it. *)
Variables keywords order : list str.
Hypothesis order_perm : Permutation order keywords.

Lemma scan_hit (text : str) (kw : str) :
  In kw keywords -> contains kw text = true ->
  exists kw', In kw' keywords /\ contains kw' text = true /\
              first_bad (fun k => contains k text) order = Some kw'.
Proof.
  intros Hin Hc.
  assert (Hin' : In kw order) by (now apply (Permutation_in _ (Permutation_sym order_perm))).
  destruct (first_bad_found (fun k => contains k text) order kw Hin' Hc) as (y & E).
  exists y. destruct (first_bad_Some _ _ _ E) as (Hy & Hby).
  repeat split; try assumption. now apply (Permutation_in _ order_perm).
Qed.

Lemma scan_miss (text : str) :
  Forall (fun kw => contains kw text = false) keywords ->
  first_bad (fun k => contains k text) order = None.
Proof.
  intros H. apply first_bad_None. now rewrite order_perm.
Qed.
End ReadOnly.

Section C10.
Import PyStr.

(** C10.  Forbidden-keyword matching is by raw substring of the upper-cased
    query, not by token: whenever the upper-cased query contains a forbidden
    keyword as a contiguous substring (inside a longer identifier or a
    quoted literal as well), [assert_read_only] raises, in the packaged
    validator (a [ValidationError] of the read-only check naming a keyword
    that occurs) and in the notebook-era one (a [ValueError] naming it),
    whatever the iteration order of the keyword set. *)
Theorem assert_read_only_substring (order order' : list str) (cypher : str) :
  Permutation order validators.FORBIDDEN_KEYWORDS ->
  Permutation order' research_query_agent.FORBIDDEN_KEYWORDS ->
  (forall kw, In kw validators.FORBIDDEN_KEYWORDS ->
              contains kw (upper cypher) = true ->
     exists k, In k validators.FORBIDDEN_KEYWORDS /\ contains k (upper cypher) = true /\
               validators.assert_read_only order cypher
               = Raise (validators.error (py "read_only_check") k)) /\
  (forall kw, In kw research_query_agent.FORBIDDEN_KEYWORDS ->
              contains kw (upper cypher) = true ->
     exists k, In k research_query_agent.FORBIDDEN_KEYWORDS /\
               contains k (upper cypher) = true /\
               research_query_agent.assert_read_only order' cypher
               = Raise (py "Forbidden Cypher keyword: " ++ k)).
Proof.
  intros P P'. split; intros kw Hin Hc.
  - destruct (scan_hit _ _ P (upper cypher) kw Hin Hc) as (k & Hk & Hkc & E).
    exists k. repeat split; try assumption.
    unfold validators.assert_read_only. now rewrite E.
  - destruct (scan_hit _ _ P' (upper cypher) kw Hin Hc) as (k & Hk & Hkc & E).
    exists k. repeat split; try assumption.
    unfold research_query_agent.assert_read_only. now rewrite E.
Qed.

(** An identifier: [OFFSET] contains [SET]. *)
Lemma assert_read_only_substring_witness :
  let q := py "MATCH (w:Work) RETURN w.title SKIP 5 OFFSET 2" in
  (exists k, In k validators.FORBIDDEN_KEYWORDS /\ contains k (upper q) = true /\
             validators.assert_read_only validators.FORBIDDEN_KEYWORDS q
             = Raise (validators.error (py "read_only_check") k)) /\
  (exists k, In k research_query_agent.FORBIDDEN_KEYWORDS /\
             contains k (upper q) = true /\
             research_query_agent.assert_read_only
               research_query_agent.FORBIDDEN_KEYWORDS q
             = Raise (py "Forbidden Cypher keyword: " ++ k)).
Proof.
  intros q.
  destruct (assert_read_only_substring
              validators.FORBIDDEN_KEYWORDS research_query_agent.FORBIDDEN_KEYWORDS q)
    as (H1 & H2); [reflexivity | reflexivity |].
  split.
  - apply (H1 (py "SET")); [simpl; tauto | reflexivity].
  - apply (H2 (py "SET")); [simpl; tauto | reflexivity].
Defined.

(** A quoted literal: ['Reset'] contains [SET]. *)
Example reset_literal_rejected :
  validators.assert_read_only validators.FORBIDDEN_KEYWORDS
    (py "MATCH (w:Work) WHERE w.title = 'Reset' RETURN w.title")
  = Raise (validators.error (py "read_only_check") (py "SET")).
Proof. reflexivity. Qed.
End C10.

(** ** The packaged gateway, [validators.CypherValidator] *)
Section Gateway.
Import PyStr Re validators.

Variable order : list str.
Hypothesis order_perm : Permutation order FORBIDDEN_KEYWORDS.

Lemma keyword_nonempty (kw : str) : In kw FORBIDDEN_KEYWORDS -> kw <> [].
Proof.
  unfold FORBIDDEN_KEYWORDS. simpl.
  intros H; repeat (destruct H as [<- | H]; [discriminate|]); contradiction.
Qed.

Lemma clean_blank (cypher : str) :
  is_empty cypher || is_empty (strip cypher) = true -> clean cypher = [].
Proof.
  intros H. unfold clean.
  assert (E : strip cypher = []).
  { apply orb_true_iff in H as [H | H].
    - destruct cypher; [reflexivity | discriminate].
    - destruct (strip cypher); [reflexivity | discriminate]. }
  rewrite E. reflexivity.
Qed.

Lemma prepare_cypher_hit (cypher kw : str) :
  In kw FORBIDDEN_KEYWORDS ->
  contains kw (upper (clean cypher)) = true ->
  exists k, In k FORBIDDEN_KEYWORDS /\
            contains k (upper (clean cypher)) = true /\
            prepare_cypher order cypher = Raise (error (py "read_only_check") k).
Proof.
  intros Hin Hc. unfold prepare_cypher.
  destruct (is_empty cypher || is_empty (strip cypher)) eqn:Hb.
  - rewrite (clean_blank _ Hb) in Hc. change (upper []) with (@nil ascii) in Hc.
    rewrite (contains_nil kw (keyword_nonempty kw Hin)) in Hc. discriminate.
  - destruct (scan_hit _ _ order_perm _ kw Hin Hc) as (k & Hk & Hkc & E).
    exists k. repeat split; try assumption.
    unfold assert_read_only. rewrite E. reflexivity.
Qed.

(** When no keyword occurs, the only thing left of the read-only check is
    the procedure allow-list. *)
Lemma assert_read_only_miss (cypher : str) :
  Forall (fun kw => contains kw (upper cypher) = false) FORBIDDEN_KEYWORDS ->
  assert_read_only order cypher
  = if contains (py "CALL ") (upper cypher)
    then _validate_procedure_calls cypher else Ok tt.
Proof.
  intros H. unfold assert_read_only.
  now rewrite (scan_miss _ _ order_perm _ H).
Qed.

(** The guard of [validate_full] looks for the mixed-case text [CALL gds.]
    in an upper-cased string. *)
Lemma gds_guard (prepared : str) :
  negb (contains (py "CALL gds.") (upper prepared)) = true.
Proof.
  rewrite (upper_lacks (py "CALL gds.") prepared "g"%char); try reflexivity.
  simpl; tauto.
Qed.

Lemma validate_full_unfold (cypher : str) :
  validate_full order cypher
  = (prepared ← prepare_cypher order cypher ;
     validate_query_structure prepared ;;
     validate_properties prepared ;;
     validate_labels prepared ;;
     validate_relationships prepared ;;
     Ok prepared).
Proof.
  unfold validate_full. destruct (prepare_cypher order cypher) as [p|e]; [|reflexivity].
  cbn [mbind pyresult_bind]. rewrite gds_guard.
  destruct (validate_query_structure p) as [[]|]; [|reflexivity].
  destruct (validate_properties p) as [[]|]; [|reflexivity].
  cbn [mbind pyresult_bind].
  destruct (validate_labels p) as [[]|]; [|reflexivity].
  cbn [mbind pyresult_bind].
  destruct (validate_relationships p) as [[]|]; reflexivity.
Qed.
End Gateway.

(** ** Cleaning keeps a keyword that is not inside a comment *)
Section Cleaning.
Import PyStr Re Aux.

(** A pattern that can only match where the text [opener] starts never
    fires in a string without [opener]. *)
Lemma sub_without_opener {G} (m : matcher G) (repl : G -> str) (opener s : str) :
  (forall t g, m t = Some g -> startswith opener t = true) ->
  contains opener s = false ->
  sub m repl s = s.
Proof.
  intros Hm. unfold sub. induction s as [|c s IH]; intros Hc; [reflexivity|].
  simpl in Hc. apply orb_false_iff in Hc as (Hs & Hc).
  cbn [sub_from]. destruct (m (c :: s)) as [[g len]|] eqn:E.
  - apply Hm in E. congruence.
  - now rewrite IH.
Qed.

Lemma line_comment_opener (t : str) g :
  line_comment t = Some g -> startswith (py "//") t = true.
Proof.
  destruct t as [|c t]; [discriminate|].
  destruct c as [[] [] [] [] [] [] [] []]; try discriminate.
  destruct t as [|d t]; [discriminate|].
  destruct d as [[] [] [] [] [] [] [] []]; try discriminate.
  reflexivity.
Qed.

Lemma block_comment_opener (t : str) g :
  block_comment t = Some g -> startswith (py "/*") t = true.
Proof.
  destruct t as [|c t]; [discriminate|].
  destruct c as [[] [] [] [] [] [] [] []]; try discriminate.
  destruct t as [|d t]; [discriminate|].
  destruct d as [[] [] [] [] [] [] [] []]; try discriminate.
  reflexivity.
Qed.

Lemma spaces_cons (c : ascii) (s : str) :
  spaces (c :: s)
  = if isspace c then Some (tt, S (length (fst (span isspace s)))) else None.
Proof.
  unfold spaces. cbn [span]. destruct (isspace c); [|reflexivity].
  now destruct (span isspace s).
Qed.

(** [re.sub(r'\s+', ' ', s)] is the one-pass [collapse]. *)
Lemma sub_spaces_collapse (s : str) :
  sub_from spaces (fun _ => py " ") (length (fst (span isspace s))) s = collapse true s
  /\ sub spaces (fun _ => py " ") s = collapse false s.
Proof.
  unfold sub. induction s as [|c s (IH1 & IH2)]; [split; reflexivity|].
  cbn [sub_from collapse span]. rewrite spaces_cons.
  destruct (isspace c) eqn:Hc.
  - destruct (span isspace s) as [a b] eqn:Es. cbn [fst length Nat.pred] in *.
    rewrite IH1. split; reflexivity.
  - cbn [fst length]. rewrite IH2. split; reflexivity.
Qed.

Lemma collapse_app (a rest : str) (p : bool) :
  exists p', collapse p (a ++ rest) = collapse p a ++ collapse p' rest.
Proof.
  revert p; induction a as [|c a IH]; intros p; simpl.
  - now exists p.
  - destruct (isspace c).
    + destruct (IH true) as (p' & ->). exists p'. now destruct p.
    + destruct (IH false) as (p' & ->). now exists p'.
Qed.

Lemma kept_collapse (n rest : str) (p : bool) :
  kept p n = true -> exists p', collapse p (n ++ rest) = n ++ collapse p' rest.
Proof.
  revert p; induction n as [|c n IH]; intros p H; simpl in *.
  - now exists p.
  - destruct (isspace c).
    + apply andb_true_iff in H as (H & Hk). apply andb_true_iff in H as (Hp & Hc).
      apply eqc_true in Hc. subst c. destruct p; [discriminate|].
      destruct (IH true Hk) as (p' & ->). now exists p'.
    + destruct (IH false H) as (p' & ->). now exists p'.
Qed.

Lemma collapse_keeps (n s : str) :
  kept true n = true -> kept false n = true ->
  contains n s = true -> contains n (collapse false s) = true.
Proof.
  intros Kt Kf H. apply contains_app in H as (a & b & ->).
  destruct (collapse_app a (n ++ b) false) as (p & ->).
  assert (K : kept p n = true) by (now destruct p).
  destruct (kept_collapse n b p K) as (p' & ->).
  apply contains_app. eauto.
Qed.

Lemma lstrip_keeps (n a b : str) :
  solid_ends n = true -> exists a', lstrip (a ++ n ++ b) = a' ++ n ++ b.
Proof.
  intros H. induction a as [|c a (a' & IH)]; simpl.
  - exists []. destruct n as [|c n]; [discriminate|].
    unfold solid_ends in H. cbn [hd_error] in H.
    destruct (hd_error (rev (c :: n))); [|discriminate].
    apply andb_true_iff in H as (H & _). simpl.
    now destruct (isspace c).
  - destruct (isspace c); [now exists a' | now exists (c :: a)].
Qed.

Lemma solid_ends_rev (n : str) : solid_ends (rev n) = solid_ends n.
Proof.
  unfold solid_ends. rewrite rev_involutive.
  destruct (hd_error n), (hd_error (rev n)); try reflexivity.
  apply andb_comm.
Qed.

Lemma strip_keeps (n s : str) :
  solid_ends n = true -> contains n s = true -> contains n (strip s) = true.
Proof.
  intros H Hc. apply contains_app in Hc as (a & b & ->).
  unfold strip, rstrip. destruct (lstrip_keeps n a b H) as (a' & ->).
  rewrite !rev_app_distr, <- app_assoc.
  destruct (lstrip_keeps (rev n) (rev b) (rev a')) as (b' & ->);
    [now rewrite solid_ends_rev|].
  rewrite !rev_app_distr, !rev_involutive, <- app_assoc.
  apply contains_app. eauto.
Qed.

Lemma isspace_upper (c : ascii) : isspace (upper_char c) = isspace c.
Proof. destruct c as [[] [] [] [] [] [] [] []]; reflexivity. Qed.

Lemma upper_lstrip (s : str) : upper (lstrip s) = lstrip (upper s).
Proof.
  induction s as [|c s IH]; [reflexivity|]. simpl.
  rewrite isspace_upper. now destruct (isspace c).
Qed.

Lemma upper_rev (s : str) : upper (rev s) = rev (upper s).
Proof. apply map_rev. Qed.

Lemma upper_strip (s : str) : upper (strip s) = strip (upper s).
Proof.
  unfold strip, rstrip.
  now rewrite upper_rev, upper_lstrip, upper_rev, upper_lstrip.
Qed.

Lemma upper_collapse (p : bool) (s : str) :
  upper (collapse p s) = collapse p (upper s).
Proof.
  revert p; induction s as [|c s IH]; intros p; [reflexivity|]. simpl.
  rewrite isspace_upper. destruct (isspace c).
  - destruct p; simpl; now rewrite IH.
  - simpl. now rewrite IH.
Qed.

Lemma lstrip_suffix (s : str) : exists a, s = a ++ lstrip s.
Proof.
  induction s as [|c s (a & IH)]; [now exists []|]. simpl.
  destruct (isspace c); [|now exists []].
  exists (c :: a). simpl. now rewrite <- IH.
Qed.

Lemma strip_inside (s : str) : exists a b, s = a ++ strip s ++ b.
Proof.
  unfold strip, rstrip. destruct (lstrip_suffix s) as (a & Ha).
  destruct (lstrip_suffix (rev (lstrip s))) as (b & Hb).
  exists a, (rev b). rewrite <- rev_app_distr, <- Hb, rev_involutive. exact Ha.
Qed.

Lemma contains_strip (n s : str) :
  contains n s = false -> contains n (strip s) = false.
Proof.
  intros H. destruct (contains n (strip s)) eqn:E; [|reflexivity].
  apply contains_app in E as (a & b & E).
  destruct (strip_inside s) as (a' & b' & Hs).
  assert (contains n s = true); [|congruence].
  apply contains_app. exists (a' ++ a), (b ++ b').
  rewrite Hs at 1. rewrite E. now rewrite <- !app_assoc.
Qed.

(** Without a comment opener the cleaned text is the stripped text with its
    whitespace collapsed. *)
Lemma clean_without_comments (cypher : str) :
  contains (py "//") cypher = false ->
  contains (py "/*") cypher = false ->
  validators.clean cypher = collapse false (strip cypher).
Proof.
  intros H1 H2. unfold validators.clean.
  rewrite (sub_without_opener line_comment _ (py "//"));
    [| apply line_comment_opener | now apply contains_strip].
  rewrite (sub_without_opener block_comment _ (py "/*"));
    [| apply block_comment_opener | now apply contains_strip].
  apply sub_spaces_collapse.
Qed.

Lemma clean_keeps (cypher kw : str) :
  contains (py "//") cypher = false ->
  contains (py "/*") cypher = false ->
  solid_ends kw = true -> kept true kw = true -> kept false kw = true ->
  contains kw (upper cypher) = true ->
  contains kw (upper (validators.clean cypher)) = true.
Proof.
  intros H1 H2 Hs Kt Kf Hc.
  rewrite (clean_without_comments _ H1 H2), upper_collapse, upper_strip.
  apply collapse_keeps; try assumption. now apply strip_keeps.
Qed.

Lemma keyword_shape (kw : str) :
  In kw validators.FORBIDDEN_KEYWORDS ->
  solid_ends kw = true /\ kept true kw = true /\ kept false kw = true.
Proof.
  unfold validators.FORBIDDEN_KEYWORDS. simpl.
  intros H; repeat (destruct H as [<- | H]; [repeat split; reflexivity|]);
    contradiction.
Qed.
End Cleaning.

(** ** Token scans *)
Section Scanning.
Import PyStr Re Aux.

Lemma span_split (p : ascii -> bool) (s : str) :
  s = fst (span p s) ++ snd (span p s)
  /\ Forall (fun c => p c = true) (fst (span p s)).
Proof.
  induction s as [|c s (IH1 & IH2)]; simpl; [split; [reflexivity | constructor]|].
  destruct (p c) eqn:E; [|split; [reflexivity | constructor]].
  destruct (span p s) as [a b]; simpl in *. split; [now rewrite IH1 at 1 | now constructor].
Qed.

(** [span] stops exactly at the end of a run that is followed by the end of
    the string or by a character outside the class. *)
Lemma span_exact (p : ascii -> bool) (a b : str) :
  Forall (fun c => p c = true) a ->
  match b with [] => True | c :: _ => p c = false end ->
  span p (a ++ b) = (a, b).
Proof.
  intros Ha Hb. induction Ha as [|c a Hc Ha IH]; simpl.
  - destruct b as [|c b]; [reflexivity | cbn [span]; now rewrite Hb].
  - now rewrite Hc, IH.
Qed.

(** A match of the property regex is made of word characters and one dot. *)
Lemma property_access_shape (s : str) g (len : nat) :
  property_access s = Some (g, len) ->
  exists rest, s = firstn len s ++ rest /\ length (firstn len s) = len
               /\ Forall (fun c => word_or_dot c = true) (firstn len s).
Proof.
  unfold property_access.
  destruct (span_split is_word s) as (Hs & Hw).
  destruct (span is_word s) as [var rest] eqn:E. cbn [fst snd] in *.
  destruct var as [|v var]; [discriminate|].
  destruct rest as [|d rest]; [discriminate|].
  destruct (Ascii.eqb_spec d "."); [subst d|];
    [| destruct d as [[] [] [] [] [] [] [] []]; try discriminate; congruence].
  destruct (span_split is_word rest) as (Hr & Hp).
  destruct (span is_word rest) as [prop rest'] eqn:E'. cbn [fst snd] in *.
  destruct prop as [|q prop]; [discriminate|]. intros [= <- <-].
  set (m := (v :: var) ++ "."%char :: q :: prop).
  assert (Hm : s = m ++ rest').
  { subst m. rewrite Hs, Hr. now rewrite <- app_assoc. }
  assert (Hl : length m = length (v :: var) + 1 + length (q :: prop)).
  { subst m. rewrite length_app. simpl. lia. }
  assert (Hl' : S (length var + 1 + S (length prop)) = length m)
    by (rewrite Hl; reflexivity).
  rewrite Hl', Hm, firstn_app, Nat.sub_diag, firstn_all. cbn [firstn].
  rewrite app_nil_r. exists rest'. repeat split.
  subst m. apply Forall_app. split.
  - eapply List.Forall_impl; [|exact Hw]. intros c Hc. unfold word_or_dot. now rewrite Hc.
  - constructor; [reflexivity|].
    eapply List.Forall_impl; [|exact Hp]. intros c Hc. unfold word_or_dot. now rewrite Hc.
Qed.

Lemma closed_end_tail (c : ascii) (pre : str) :
  closed_end (c :: pre) -> closed_end pre.
Proof.
  unfold closed_end. simpl.
  destruct (rev pre) as [|d r] eqn:E; easy.
Qed.

Lemma closed_end_last (pre : str) (n : nat) :
  closed_end pre -> pre <> [] ->
  Forall (fun c => word_or_dot c = true) (firstn n pre) -> n < length pre.
Proof.
  intros Hc Hne Hf. destruct (Nat.lt_ge_cases n (length pre)) as [|Hge]; [assumption|].
  rewrite firstn_all2 in Hf by assumption. unfold closed_end in Hc.
  destruct (rev pre) as [|d r] eqn:E.
  - apply (f_equal (@rev _)) in E. rewrite rev_involutive in E. now elim Hne.
  - assert (Hd : In d pre) by (apply in_rev; rewrite E; now left).
    rewrite List.Forall_forall in Hf. rewrite (Hf d Hd) in Hc. discriminate.
Qed.

(** Scanning a prefix that ends outside any match leaves the scan of the
    rest untouched. *)
Lemma findall_prefix (pre rest : str) (k : nat) :
  closed_end pre -> k <= length pre ->
  exists found,
    findall_from property_access k (pre ++ rest)
    = found ++ findall_from property_access 0 rest.
Proof.
  revert k; induction pre as [|c pre IH]; intros k Hc Hk.
  - simpl in Hk. assert (k = 0) by lia. subst. now exists [].
  - cbn [app findall_from]. destruct k as [|k].
    + destruct (property_access (c :: pre ++ rest)) as [[g len]|] eqn:E.
      * destruct (property_access_shape _ _ _ E) as (r & Hs & Hl & Hf).
        assert (Hlt : len < length (c :: pre)).
        { apply closed_end_last; [assumption | discriminate |].
          destruct (Nat.le_gt_cases len (length (c :: pre))) as [Hle|Hgt].
          - change (c :: pre ++ rest) with ((c :: pre) ++ rest) in Hf.
            rewrite firstn_app in Hf. apply Forall_app in Hf as (Hf & _). exact Hf.
          - exfalso.
            change (c :: pre ++ rest) with ((c :: pre) ++ rest) in Hf.
            rewrite firstn_app in Hf. apply Forall_app in Hf as (Hf & _).
            rewrite firstn_all2 in Hf by lia.
            pose proof (closed_end_last (c :: pre) (length (c :: pre)) Hc
                          ltac:(discriminate)) as Hx.
            rewrite firstn_all in Hx. specialize (Hx Hf). lia. }
        destruct (IH (pred len)) as (found & ->).
        -- now apply (closed_end_tail c).
        -- simpl in Hlt. lia.
        -- now exists (g :: found).
      * destruct (IH 0) as (found & ->); [|lia|now exists found].
        now apply (closed_end_tail c).
    + destruct (IH k) as (found & ->); [|simpl in *; lia|now exists found].
      now apply (closed_end_tail c).
Qed.

Lemma is_word_not_dot (c : ascii) : is_word c = true -> c <> "."%char.
Proof. intros H ->. discriminate. Qed.

(** A delimited access [var.prop] is one of the extracted pairs. *)
Lemma findall_delimited (pre var prop post : str) :
  closed_end pre ->
  var <> [] -> Forall (fun c => is_word c = true) var ->
  prop <> [] -> Forall (fun c => is_word c = true) prop ->
  match post with [] => True | c :: _ => is_word c = false end ->
  In (var, prop) (findall property_access (pre ++ var ++ py "." ++ prop ++ post)).
Proof.
  intros Hc Hv Hvw Hp Hpw Hpost. unfold findall.
  destruct (findall_prefix pre (var ++ py "." ++ prop ++ post) 0 Hc ltac:(lia))
    as (found & ->).
  apply in_or_app. right.
  assert (E : property_access (var ++ py "." ++ prop ++ post)
              = Some ((var, prop), length var + 1 + length prop)).
  { unfold property_access. rewrite (span_exact is_word var) by (assumption || reflexivity).
    destruct var as [|v var]; [now elim Hv|]. cbn [lit list_ascii_of_string app].
    rewrite (span_exact is_word prop) by assumption. cbn [fst].
    destruct prop as [|q prop]; [now elim Hp | reflexivity]. }
  destruct var as [|v var]; [now elim Hv|].
  cbn [app findall_from]. cbn [app] in E. rewrite E. now left.
Qed.

Lemma span_prefix (p : ascii -> bool) (a b : str) :
  Forall (fun c => p c = true) a -> fst (span p (a ++ b)) = a ++ fst (span p b).
Proof.
  induction 1 as [|c a Hc Ha IH]; [reflexivity|]. cbn [app span]. rewrite Hc.
  destruct (span p (a ++ b)) as [x y]. cbn [fst] in *. now rewrite IH.
Qed.

Lemma is_start_ident (c : ascii) : is_start c = true -> is_ident_char c = true.
Proof.
  unfold is_start, is_ident_char. intros H.
  apply orb_true_iff in H as [-> | ->]; [reflexivity | apply orb_true_r].
Qed.

(** A match of the notebook-era label regex is a colon and a name. *)
Lemma label_or_rel_shape (s : str) (name : str) (len : nat) :
  label_or_rel_pattern s = Some (name, len) ->
  exists c rest,
    s = ":"%char :: c :: rest /\ is_start c = true
    /\ name = c :: fst (span is_ident_char rest) /\ len = S (length name).
Proof.
  destruct s as [|x [|c rest]]; try discriminate;
    [destruct x as [[] [] [] [] [] [] [] []]; discriminate|].
  destruct (Ascii.eqb_spec x ":") as [->|Hx].
  - cbn [label_or_rel_pattern]. fold (is_start c).
    destruct (is_start c) eqn:E; [|discriminate]. intros [= <- <-]. eauto 6.
  - destruct x as [[] [] [] [] [] [] [] []]; try discriminate; congruence.
Qed.

(** Every colon followed by a letter or an underscore starts a token of the
    scan: the skipped characters of a match are never colons. *)
Lemma colon_starts_token (a rest : str) (c : ascii) (k : nat) :
  is_start c = true ->
  Forall (fun x => is_ident_char x = true) (firstn k (a ++ ":"%char :: c :: rest)) ->
  In (c :: fst (span is_ident_char rest))
     (findall_from label_or_rel_pattern k (a ++ ":"%char :: c :: rest)).
Proof.
  intros Hc. revert k; induction a as [|x a IH]; intros k Hk.
  - destruct k as [|k]; [|cbn [app firstn] in Hk; inversion Hk; discriminate].
    cbn [app findall_from label_or_rel_pattern]. fold (is_start c). rewrite Hc. now left.
  - cbn [app findall_from]. destruct k as [|k].
    + destruct (label_or_rel_pattern (x :: a ++ ":"%char :: c :: rest))
        as [[name len]|] eqn:E.
      * right. destruct (label_or_rel_shape _ _ _ E) as (c0 & r0 & Hs & Hc0 & Hn & ->).
        injection Hs as -> Hs. apply IH. cbn [Nat.pred]. rewrite Hs, Hn.
        destruct (span_split is_ident_char r0) as (Hr & Hf). rewrite Hr at 2.
        change (c0 :: ?u ++ ?v) with ((c0 :: u) ++ v).
        rewrite firstn_app, Nat.sub_diag, firstn_all. cbn [firstn]. rewrite app_nil_r.
        constructor; [now apply is_start_ident | exact Hf].
      * apply IH. constructor.
    + apply IH. cbn [app firstn] in Hk. now inversion Hk.
Qed.

Lemma token_of_occurrence (a b name : str) :
  match name with c :: _ => is_start c = true | [] => False end ->
  Forall (fun x => is_ident_char x = true) name ->
  exists token,
    In token (findall label_or_rel_pattern (a ++ py ":" ++ name ++ b))
    /\ startswith name token = true.
Proof.
  intros Hs Hn. destruct name as [|c name]; [contradiction|].
  exists (c :: fst (span is_ident_char (name ++ b))). split.
  - apply (colon_starts_token a (name ++ b) c 0 Hs). constructor.
  - apply Forall_cons in Hn as (_ & Hn). rewrite (span_prefix _ _ _ Hn).
    apply startswith_app. exists (fst (span is_ident_char b)). reflexivity.
Qed.
End Scanning.

(** ** The notebook-era gateway *)
Section NotebookGateway.
Import PyStr Re Aux research_query_agent.

Lemma notebook_read_only_miss (order : list str) (cypher : str) :
  Permutation order FORBIDDEN_KEYWORDS ->
  Forall (fun kw => contains kw (upper cypher) = false) FORBIDDEN_KEYWORDS ->
  assert_read_only order cypher = Ok tt.
Proof.
  intros P H. unfold assert_read_only. now rewrite (scan_miss _ _ P _ H).
Qed.

(** No alias is the beginning of a canonical name. *)
Lemma alias_not_canonical (bad good token : str) :
  In (bad, good) RELATIONSHIP_CANONICAL -> canonical token ->
  startswith bad token = false.
Proof.
  unfold canonical, RELATIONSHIP_CANONICAL, VALID_LABELS. cbn [In map snd].
  intros Hb Ht.
  assert (Hname : In token [py "Author"; py "Work"; py "Topic";
                            py "WORK_AUTHORED_BY"; py "WORK_HAS_TOPIC"]).
  { cbn [In]. tauto. }
  clear Ht. cbn [In] in Hname.
  repeat (destruct Hname as [<- | Hname];
          [repeat (destruct Hb as [[= <- <-] | Hb]; [reflexivity|]); contradiction|]).
  contradiction.
Qed.

Lemma alias_absent (cypher bad good : str) :
  In (bad, good) RELATIONSHIP_CANONICAL ->
  Forall canonical (findall label_or_rel_pattern cypher) ->
  contains (py ":" ++ bad) cypher = false.
Proof.
  intros Hb Hc. destruct (contains (py ":" ++ bad) cypher) eqn:E; [|reflexivity].
  apply contains_app in E as (a & b & ->).
  change ((py ":" ++ bad) ++ b) with (py ":" ++ bad ++ b) in Hc.
  destruct (token_of_occurrence a b bad) as (token & Hin & Hp).
  - unfold RELATIONSHIP_CANONICAL in Hb. cbn [In] in Hb.
    repeat (destruct Hb as [[= <- <-] | Hb]; [reflexivity|]). contradiction.
  - unfold RELATIONSHIP_CANONICAL in Hb. cbn [In] in Hb.
    repeat (destruct Hb as [[= <- <-] | Hb]; [repeat constructor|]). contradiction.
  - rewrite List.Forall_forall in Hc.
    rewrite (alias_not_canonical bad good token Hb (Hc token Hin)) in Hp. discriminate.
Qed.

Lemma normalize_canonical (cypher : str) :
  Forall canonical (findall label_or_rel_pattern cypher) ->
  normalize_relationships cypher = cypher.
Proof.
  intros Hc. unfold normalize_relationships.
  assert (G : forall aliases,
             (forall bad good, In (bad, good) aliases -> In (bad, good) RELATIONSHIP_CANONICAL) ->
             fold_left (fun cypher '(bad, good) =>
                          sub (literal (py ":" ++ bad)) (fun _ => py ":" ++ good) cypher)
                       aliases cypher = cypher).
  { induction aliases as [|[bad good] aliases IH]; intros Hsub; [reflexivity|].
    cbn [fold_left].
    rewrite (sub_without_opener (literal (py ":" ++ bad)) _ (py ":" ++ bad)).
    - apply IH. intros b g Hin. apply Hsub. now right.
    - intros t g. unfold literal. now destruct (startswith (py ":" ++ bad) t).
    - apply (alias_absent cypher bad good); [|assumption]. apply Hsub. now left. }
  apply G. auto.
Qed.

(** A query without forbidden keyword whose tokens are all canonical is
    returned as it is. *)
Lemma notebook_prepare_accepts (order : list str) (cypher : str) :
  Permutation order FORBIDDEN_KEYWORDS ->
  Forall (fun kw => contains kw (upper cypher) = false) FORBIDDEN_KEYWORDS ->
  Forall canonical (findall label_or_rel_pattern cypher) ->
  prepare_cypher order cypher = Ok cypher.
Proof.
  intros P Hk Hc. unfold prepare_cypher.
  rewrite (notebook_read_only_miss order _ P Hk). cbn [mbind pyresult_bind].
  rewrite (normalize_canonical _ Hc). unfold validate_labels.
  replace (first_bad _ _) with (@None str); [reflexivity|].
  symmetry. apply first_bad_None. eapply List.Forall_impl; [|exact Hc].
  intros token [Ht | Ht]; apply mem_true in Ht; rewrite Ht; [reflexivity|].
  apply andb_false_r.
Qed.
End NotebookGateway.

(** ** Properties of the packaged gateway *)
Section GatewayProperties.
Import PyStr Re Aux validators.

Lemma prepare_cypher_miss (order : list str) (cypher : str) :
  Permutation order FORBIDDEN_KEYWORDS ->
  is_empty cypher || is_empty (strip cypher) = false ->
  Forall (fun kw => contains kw (upper (clean cypher)) = false) FORBIDDEN_KEYWORDS ->
  prepare_cypher order cypher
  = ((if contains (py "CALL ") (upper (clean cypher))
      then _validate_procedure_calls (clean cypher) else Ok tt) ;;
     Ok (clean cypher)).
Proof.
  intros P Hb H. unfold prepare_cypher. rewrite Hb.
  now rewrite (assert_read_only_miss order P _ H).
Qed.

(** C1, as the code has it.  A forbidden keyword (CREATE, MERGE, DELETE,
    REMOVE, SET, DROP, DETACH DELETE, FOREACH, LOAD CSV; any case, any
    position) makes [prepare_cypher] raise the read-only [ValidationError],
    naming a forbidden keyword that occurs in the cleaned query, and no
    prepared query is returned, provided the keyword is still there after
    cleaning: that is so whenever the raw query has no comment opener
    (neither [//] nor [/*]); a keyword inside a comment is removed with it. *)
Theorem prepare_cypher_rejects_keyword (order : list str) (cypher kw : str) :
  Permutation order FORBIDDEN_KEYWORDS ->
  In kw FORBIDDEN_KEYWORDS ->
  contains kw (upper (clean cypher)) = true
  \/ (contains kw (upper cypher) = true
      /\ contains (py "//") cypher = false /\ contains (py "/*") cypher = false) ->
  exists k, In k FORBIDDEN_KEYWORDS /\
            contains k (upper (clean cypher)) = true /\
            prepare_cypher order cypher = Raise (error (py "read_only_check") k).
Proof.
  intros P Hin H. apply (prepare_cypher_hit order P cypher kw Hin).
  destruct H as [H | (H & H1 & H2)]; [assumption|].
  destruct (keyword_shape kw Hin) as (Hs & Kt & Kf).
  now apply clean_keeps.
Qed.

Lemma prepare_cypher_rejects_keyword_witness :
  exists k, In k FORBIDDEN_KEYWORDS /\
            contains k (upper (clean (py "MATCH (n:Author) detach  delete n"))) = true /\
            prepare_cypher FORBIDDEN_KEYWORDS (py "MATCH (n:Author) detach  delete n")
            = Raise (error (py "read_only_check") k).
Proof.
  apply (prepare_cypher_rejects_keyword _ _ (py "DELETE")).
  - reflexivity.
  - simpl; tauto.
  - right. repeat split; vm_compute; reflexivity.
Defined.

(** C1 as stated fails: the keyword of this query sits in a line comment,
    the query is cleaned and returned. *)
Lemma prepare_cypher_keyword_in_comment :
  contains (py "CREATE") (upper (py "MATCH (n:Author) RETURN n.name // create")) = true
  /\ forall order, Permutation order FORBIDDEN_KEYWORDS ->
       prepare_cypher order (py "MATCH (n:Author) RETURN n.name // create")
       = Ok (py "MATCH (n:Author) RETURN n.name ").
Proof.
  split; [vm_compute; reflexivity|]. intros order P.
  rewrite (prepare_cypher_miss order _ P);
    [vm_compute; reflexivity | vm_compute; reflexivity |].
  repeat (constructor; [vm_compute; reflexivity|]). constructor.
Qed.

(** C6.  [validate_full] never skips the label and relationship checks:
    its guard cannot fire, so a query that passes the earlier checks and has
    an unknown [:Label] or [[:REL]] token is rejected, a [CALL gds.] query
    like any other. *)
Theorem validate_full_gds_not_exempt (order : list str) (cypher prepared : str) :
  prepare_cypher order cypher = Ok prepared ->
  validate_query_structure prepared = Ok tt ->
  validate_properties prepared = Ok tt ->
  (forall label,
      first_bad (fun l => negb (mem l VALID_LABELS)) (findall label_pattern prepared)
      = Some label ->
      validate_full order cypher = Raise (error (py "label_validation") label))
  /\ (forall rel,
        validate_labels prepared = Ok tt ->
        first_bad (fun r => negb (mem r VALID_RELATIONSHIPS))
                  (findall rel_pattern prepared) = Some rel ->
        validate_full order cypher = Raise (error (py "relationship_validation") rel)).
Proof.
  intros Hp Hs Hv. unfold validate_full. rewrite Hp. cbn [mbind pyresult_bind].
  rewrite Hs, Hv, gds_guard. cbn [mbind pyresult_bind]. split.
  - intros label E. unfold validate_labels. now rewrite E.
  - intros rel Hl E. rewrite Hl. cbn [mbind pyresult_bind].
    unfold validate_relationships. now rewrite E.
Qed.

Lemma validate_full_gds_not_exempt_witness :
  let q := py "CALL gds.pageRank.stream('research_network') YIELD nodeId, score WITH gds.util.asNode(nodeId) AS node, score WHERE node:Paper RETURN node.title, score" in
  contains (py "CALL gds.") q = true
  /\ validate_full FORBIDDEN_KEYWORDS q = Raise (error (py "label_validation") (py "Paper"))
  /\ network_agent._prepare_gds_query FORBIDDEN_KEYWORDS q = Ok q.
Proof.
  intros q. split; [vm_compute; reflexivity|]. split; [|vm_compute; reflexivity].
  apply (validate_full_gds_not_exempt FORBIDDEN_KEYWORDS q q);
    vm_compute; reflexivity.
Defined.

End GatewayProperties.

(** ** Properties of the notebook-era validator, [research_query_agent] *)

Section NotebookProperties.
Import PyStr Re Aux research_query_agent.

Lemma validate_properties_first (cypher : str) :
  validate_properties cypher
  = match first_bad (fun prop => negb (known_property prop))
                    (map snd (findall property_access cypher)) with
    | Some prop => Raise (unknown_property_error prop)
    | None => Ok tt
    end.
Proof.
  unfold validate_properties, first_bad.
  induction (findall property_access cypher) as [|[var prop] l IH]; [reflexivity|].
  simpl. destruct (negb (known_property prop)); [reflexivity | exact IH].
Qed.

Lemma no_quote_no_match (first : ascii -> bool) others (s : str) :
  Forall (fun c => first c = false) s -> search (chain first others) s = false.
Proof.
  induction 1 as [|c s Hc Hs IH]; [reflexivity|].
  cbn [search chain]. now rewrite Hc.
Qed.

Lemma first_bad_split {A} (bad : A -> bool) (pre post : list A) (x : A) :
  Forall (fun y => bad y = false) pre -> bad x = true ->
  first_bad bad (pre ++ x :: post) = Some x.
Proof.
  unfold first_bad. induction 1 as [|y pre Hy _ IH]; intros Hx; cbn [app find].
  - now rewrite Hx.
  - rewrite Hy. now apply IH.
Qed.

(** C7, as the code has it, for queries of ASCII characters.  The property
    check is [research_query_agent.CypherValidator.validate_properties], a
    check of its own that neither [prepare_cypher] nor [validate_full] runs.
    It scans the query left to right for accesses [word.word] that do not
    overlap; it accepts when every extracted property is in the union of the
    [SCHEMA] property sets, and otherwise raises [Unknown property] for the
    first extracted property, in the order of the scan, that is outside the
    union; an access that is delimited (no word character or dot just before
    it, no word character just after it) is always extracted, so a query
    with such an access to an unknown property is rejected.  The
    [validate_properties] that [validate_full] runs looks for three quote
    patterns only: a query without a quote character passes it whatever its
    property names. *)
Theorem validate_properties_checks_schema :
  (forall cypher,
      ascii_only cypher = true ->
      Forall (fun prop => known_property prop = true)
             (map snd (findall property_access cypher)) ->
      validate_properties cypher = Ok tt)
  /\ (forall cypher before prop after,
        ascii_only cypher = true ->
        map snd (findall property_access cypher) = before ++ prop :: after ->
        Forall (fun p => known_property p = true) before ->
        known_property prop = false ->
        validate_properties cypher = Raise (unknown_property_error prop))
  /\ (forall pre var prop post,
        ascii_only (pre ++ var ++ py "." ++ prop ++ post) = true ->
        closed_end pre ->
        var <> [] -> Forall (fun c => is_word c = true) var ->
        prop <> [] -> Forall (fun c => is_word c = true) prop ->
        match post with [] => True | c :: _ => is_word c = false end ->
        known_property prop = false ->
        exists p, In p (map snd (findall property_access
                                   (pre ++ var ++ py "." ++ prop ++ post)))
                  /\ known_property p = false
                  /\ validate_properties (pre ++ var ++ py "." ++ prop ++ post)
                     = Raise (unknown_property_error p))
  /\ (forall cypher,
        Forall (fun c => is_quote c = false) cypher ->
        validators.validate_properties cypher = Ok tt).
Proof.
  repeat split.
  - intros cypher _ H. rewrite validate_properties_first.
    replace (first_bad _ _) with (@None str); [reflexivity|].
    symmetry. apply first_bad_None. eapply List.Forall_impl; [|exact H].
    intros prop ->. reflexivity.
  - intros cypher before prop after _ E Hb Hk. rewrite validate_properties_first, E.
    rewrite first_bad_split; [reflexivity | | now rewrite Hk].
    eapply List.Forall_impl; [|exact Hb]. intros p ->. reflexivity.
  - intros pre var prop post _ Hc Hv Hvw Hp Hpw Hpost Hk.
    set (q := pre ++ var ++ py "." ++ prop ++ post).
    assert (Hin : In prop (map snd (findall property_access q))).
    { apply in_map_iff. exists (var, prop). split; [reflexivity|].
      now apply findall_delimited. }
    rewrite validate_properties_first.
    destruct (first_bad_found (fun prop => negb (known_property prop)) _ prop Hin)
      as (p & E); [now rewrite Hk|].
    rewrite E. destruct (first_bad_Some _ _ _ E) as (Hi & Hn).
    exists p. repeat split; [exact Hi | now destruct (known_property p)].
  - intros cypher H. unfold validators.validate_properties, validators.suspicious_patterns.
    cbn [first_bad find snd]. now rewrite !no_quote_no_match.
Qed.

Lemma validate_properties_checks_schema_witness :
  (validate_properties (py "MATCH (w:Work) RETURN w.title") = Ok tt)
  /\ validate_properties (py "MATCH (w:Work) RETURN w.title, w.pages, w.isbn")
     = Raise (unknown_property_error (py "pages"))
  /\ (exists p, In p (map snd (findall property_access
                                 (py "MATCH (w:Work) RETURN " ++ py "w" ++ py "." ++
                                  py "invalid_property" ++ py " LIMIT 5")))
                /\ known_property p = false
                /\ validate_properties
                     (py "MATCH (w:Work) RETURN " ++ py "w" ++ py "." ++
                      py "invalid_property" ++ py " LIMIT 5")
                   = Raise (unknown_property_error p))
  /\ validators.validate_properties (py "MATCH (w:Work) RETURN w.invalid_property") = Ok tt.
Proof.
  destruct validate_properties_checks_schema as (H1 & H2 & H3 & H4).
  split; [|split; [|split]].
  - apply H1; [vm_compute; reflexivity|]. vm_compute. repeat constructor.
  - apply (H2 _ [py "title"] (py "pages") [py "isbn"]).
    + vm_compute; reflexivity.
    + vm_compute; reflexivity.
    + repeat constructor.
    + vm_compute; reflexivity.
  - apply H3.
    + vm_compute; reflexivity.
    + vm_compute; reflexivity.
    + discriminate.
    + repeat constructor.
    + discriminate.
    + repeat constructor.
    + reflexivity.
    + vm_compute; reflexivity.
  - apply H4. repeat constructor.
Defined.

(** C7 as stated fails: the property check that full validation runs does
    not reject an unknown property, and the notebook-era check misses the
    property behind a chained access. *)
Lemma validate_full_accepts_unknown_property :
  let q := py "MATCH (w:Work) RETURN w.invalid_property" in
  In (py "w", py "invalid_property") (findall property_access q)
  /\ known_property (py "invalid_property") = false
  /\ validators.validate_properties q = Ok tt
  /\ (forall order, Permutation order validators.FORBIDDEN_KEYWORDS ->
        validators.validate_full order q = Ok q)
  /\ known_property (py "bogus") = false
  /\ validate_properties (py "MATCH (a:Author) RETURN a.name.bogus") = Ok tt.
Proof.
  intros q. repeat split; try (vm_compute; reflexivity).
  - vm_compute. tauto.
  - intros order P. rewrite (validate_full_unfold order).
    rewrite (prepare_cypher_miss order _ P);
      [vm_compute; reflexivity | vm_compute; reflexivity |].
    repeat (constructor; [vm_compute; reflexivity|]). constructor.
Qed.

(** C8.  The declared alias [AUTHORED_BY] does not reach its canonical
    form: [AUTHORED] is replaced first, inside it, and leaves the token
    [WORK_AUTHORED_BY_BY], which [prepare_cypher] then rejects as unknown;
    the canonical [WORK_AUTHORED_BY] is not among the tokens of the
    normalized query.  The alias [AUTHORED] itself is normalized and
    accepted. *)
Theorem normalize_relationships_mangles_authored_by :
  let q := py "MATCH (a:Author)-[:AUTHORED_BY]->(w:Work) RETURN a.name" in
  In (py "AUTHORED_BY", py "WORK_AUTHORED_BY") RELATIONSHIP_CANONICAL
  /\ findall label_or_rel_pattern q = [py "Author"; py "AUTHORED_BY"; py "Work"]
  /\ normalize_relationships q
     = py "MATCH (a:Author)-[:WORK_AUTHORED_BY_BY]->(w:Work) RETURN a.name"
  /\ findall label_or_rel_pattern (normalize_relationships q)
     = [py "Author"; py "WORK_AUTHORED_BY_BY"; py "Work"]
  /\ (forall order, Permutation order FORBIDDEN_KEYWORDS ->
        prepare_cypher order q
        = Raise (py "Unknown label or relationship: WORK_AUTHORED_BY_BY"))
  /\ (forall order, Permutation order FORBIDDEN_KEYWORDS ->
        prepare_cypher order (py "MATCH (a:Author)-[:AUTHORED]->(w:Work) RETURN a.name")
        = Ok (py "MATCH (a:Author)-[:WORK_AUTHORED_BY]->(w:Work) RETURN a.name")).
Proof.
  intros q. repeat split; try (vm_compute; reflexivity).
  - simpl; tauto.
  - intros order P. unfold prepare_cypher.
    rewrite (notebook_read_only_miss order _ P);
      [vm_compute; reflexivity|].
    repeat (constructor; [vm_compute; reflexivity|]). constructor.
  - intros order P. unfold prepare_cypher.
    rewrite (notebook_read_only_miss order _ P);
      [vm_compute; reflexivity|].
    repeat (constructor; [vm_compute; reflexivity|]). constructor.
Qed.
End NotebookProperties.

(** ** Binary64 arithmetic *)
Section Rounding.
Import Aux.
Variables prec emax : Z.

Lemma shr_1_nonneg mrs : (0 <= shr_m mrs -> 0 <= shr_m (shr_1 mrs))%Z.
Proof. destruct mrs as [[|[p|p|]|p] r s]; simpl; lia. Qed.

Lemma iter_shr_1_nonneg p mrs :
  (0 <= shr_m mrs -> 0 <= shr_m (SpecFloat.iter_pos shr_1 p mrs))%Z.
Proof.
  revert mrs; induction p as [p IH|p IH|]; intros mrs H; simpl.
  - apply IH, IH. now apply shr_1_nonneg.
  - now apply IH, IH.
  - now apply shr_1_nonneg.
Qed.

Lemma shr_fexp_nonneg m e l :
  (0 <= m -> 0 <= shr_m (fst (shr_fexp prec emax m e l)))%Z.
Proof.
  intros H. unfold shr_fexp, shr.
  assert (H0 : (0 <= shr_m (shr_record_of_loc m l))%Z) by (now destruct l as [|[]]).
  destruct (fexp prec emax (Zdigits2 m + e) - e)%Z; simpl; try assumption.
  now apply iter_shr_1_nonneg.
Qed.

Lemma round_nearest_even_nonneg m l : (0 <= m -> 0 <= round_nearest_even m l)%Z.
Proof.
  intros H. destruct l as [|[]]; simpl; try assumption; try lia.
  destruct (Z.even m); lia.
Qed.

(** Rounding a non-negative mantissa gives a zero, a finite number or an
    infinity of the requested sign. *)
Lemma binary_round_aux_sign sx mx ex lx :
  (0 <= mx)%Z -> sf_sign_is sx (binary_round_aux prec emax sx mx ex lx) = true.
Proof.
  intros H. unfold binary_round_aux.
  pose proof (shr_fexp_nonneg mx ex lx H) as H1.
  destruct (shr_fexp prec emax mx ex lx) as [mrs' e']. cbn [fst] in H1.
  pose proof (shr_fexp_nonneg _ e' loc_Exact
                (round_nearest_even_nonneg _ (loc_of_shr_record mrs') H1)) as H2.
  destruct (shr_fexp prec emax _ e' loc_Exact) as [mrs'' e'']. cbn [fst] in H2.
  destruct (shr_m mrs'') as [|m|m]; [| |lia]; cbn [sf_sign_is].
  - apply eqb_reflx.
  - destruct (e'' <=? emax - prec)%Z; apply eqb_reflx.
Qed.

Lemma SFmul_finpos_pos w v :
  sf_finpos w = true -> sf_pos v = true -> sf_nonneg (SFmul prec emax w v) = true.
Proof.
  destruct w as [| | |[] mw ew]; try discriminate.
  destruct v as [| [] | |[] mv ev]; try discriminate; intros _ _; [reflexivity|].
  cbn [SFmul xorb].
  pose proof (binary_round_aux_sign false (Z.pos (mw * mv)) (ew + ev) loc_Exact
                ltac:(lia)) as H.
  destruct (binary_round_aux _ _ _ _ _ _) as [[]|[]| |[] m e]; try discriminate; reflexivity.
Qed.

Lemma SFmul_nonneg_finpos x w :
  sf_nonneg x = true -> sf_finpos w = true -> sf_nonneg (SFmul prec emax x w) = true.
Proof.
  destruct w as [| | |[] mw ew]; try discriminate.
  destruct x as [s|[]| |[] mx ex]; try discriminate; intros _ _;
    [destruct s; reflexivity | reflexivity |].
  cbn [SFmul xorb].
  pose proof (binary_round_aux_sign false (Z.pos (mx * mw)) (ex + ew) loc_Exact
                ltac:(lia)) as H.
  destruct (binary_round_aux _ _ _ _ _ _) as [[]|[]| |[] m e]; try discriminate; reflexivity.
Qed.

Lemma SFadd_nonneg x y :
  sf_nonneg x = true -> sf_nonneg y = true -> sf_nonneg (SFadd prec emax x y) = true.
Proof.
  destruct x as [sx|[]| |[] mx ex]; try discriminate;
    destruct y as [sy|[]| |[] my ey]; try discriminate; intros _ _;
    try reflexivity; try (destruct sx; reflexivity); try (destruct sy; reflexivity).
  - destruct sx, sy; reflexivity.
  - cbn [SFadd cond_Zopp]. unfold binary_normalize.
    set (a := fst (shl_align mx ex _)). set (b := fst (shl_align my ey _)).
    destruct (Z.pos a + Z.pos b)%Z as [|ab|ab] eqn:E; [lia| |lia].
    unfold binary_round. destruct (shl_align ab _ _) as [mz ez].
    pose proof (binary_round_aux_sign false (Z.pos mz) ez loc_Exact ltac:(lia)) as H.
    destruct (binary_round_aux _ _ _ _ _ _) as [[]|[]| |[] m e]; try discriminate; reflexivity.
Qed.

Lemma SFdiv_nonneg_finpos x t :
  sf_nonneg x = true -> sf_finpos t = true -> sf_nonneg (SFdiv prec emax x t) = true.
Proof.
  destruct t as [| | |[] mt et]; try discriminate.
  destruct x as [s|[]| |[] mx ex]; try discriminate; intros _ _;
    [destruct s; reflexivity | reflexivity |].
  cbn [SFdiv xorb]. unfold SFdiv_core_binary.
  set (m' := match _ with Z.pos _ => _ | _ => _ end).
  assert (Hm : (0 <= m')%Z).
  { subst m'. destruct (_ - _ - _)%Z; try lia. apply Z.shiftl_nonneg. lia. }
  pose proof (Z.div_pos m' (Z.pos mt) Hm ltac:(lia)) as Hq.
  unfold Z.div in Hq. destruct (Z.div_eucl m' (Z.pos mt)) as [q r].
  pose proof (binary_round_aux_sign false q
                (Z.min (fexp prec emax (Zdigits2 (Z.pos mx) + ex - (Zdigits2 (Z.pos mt) + et)))
                       (ex - et))
                (new_location (Z.pos mt) r) Hq) as H.
  destruct (binary_round_aux _ _ _ _ _ _) as [[]|[]| |[] m e]; try discriminate; reflexivity.
Qed.
End Rounding.

Section FloatOrder.
Import Aux.
Open Scope float_scope.

Lemma zero_SF : Prim2SF 0 = S754_zero false.
Proof. reflexivity. Qed.

Lemma leb0_nonneg (x : float) : (0 <=? x) = true <-> sf_nonneg (Prim2SF x) = true.
Proof.
  rewrite leb_spec, zero_SF. unfold SFleb.
  destruct (Prim2SF x) as [s|[]| |[] m e]; simpl; split; congruence.
Qed.

Lemma ltb0_pos (x : float) : (0 <? x) = true <-> sf_pos (Prim2SF x) = true.
Proof.
  rewrite ltb_spec, zero_SF. unfold SFltb.
  destruct (Prim2SF x) as [s|[]| |[] m e]; simpl; split; congruence.
Qed.

Lemma mul_finpos_pos (w v : float) :
  sf_finpos (Prim2SF w) = true -> (0 <? v) = true -> (0 <=? w * v) = true.
Proof.
  intros Hw Hv. apply leb0_nonneg. rewrite mul_spec.
  apply SFmul_finpos_pos; [assumption | now apply ltb0_pos].
Qed.

Lemma mul_nonneg_finpos (x w : float) :
  (0 <=? x) = true -> sf_finpos (Prim2SF w) = true -> (0 <=? x * w) = true.
Proof.
  intros Hx Hw. apply leb0_nonneg. rewrite mul_spec.
  apply SFmul_nonneg_finpos; [now apply leb0_nonneg | assumption].
Qed.

Lemma add_nonneg (x y : float) :
  (0 <=? x) = true -> (0 <=? y) = true -> (0 <=? x + y) = true.
Proof.
  intros Hx Hy. apply leb0_nonneg. rewrite add_spec.
  apply SFadd_nonneg; now apply leb0_nonneg.
Qed.

Lemma div_nonneg_finpos (x t : float) :
  (0 <=? x) = true -> sf_finpos (Prim2SF t) = true -> (0 <=? x / t) = true.
Proof.
  intros Hx Ht. apply leb0_nonneg. rewrite div_spec.
  apply SFdiv_nonneg_finpos; [now apply leb0_nonneg | assumption].
Qed.

(** The comparison of two floats that are not NaN is the lexicographic
    comparison of their keys. *)
Lemma SFcompare_key (x y : spec_float) :
  x <> S754_nan -> y <> S754_nan ->
  SFcompare x y = Some (cmp3 (sf_key x) (sf_key y)).
Proof.
  intros Hx Hy.
  destruct x as [sx|[]| |[] mx ex]; try congruence;
    destruct y as [sy|[]| |[] my ey]; try congruence;
    try reflexivity; unfold SFcompare, sf_key, cmp3; f_equal;
    change (Pos.compare_cont Eq mx my) with (Z.pos mx ?= Z.pos my)%Z;
    repeat match goal with
      | |- context [(?a ?= ?b)%Z] => destruct (Z.compare_spec a b)
      end; cbn [CompOpp]; try reflexivity; try lia.
Qed.

Ltac cmp3_solve :=
  unfold cmp3;
  repeat match goal with
    | |- context [(?a ?= ?b)%Z] => destruct (Z.compare_spec a b)
    | H : context [(?a ?= ?b)%Z] |- _ => destruct (Z.compare_spec a b)
    end; try congruence; try lia.

Lemma cmp3_total (a b : Z * Z * Z) : cmp3 a b <> Lt -> cmp3 b a <> Gt.
Proof. destruct a as [[a1 a2] a3], b as [[b1 b2] b3]. cmp3_solve. Qed.

Lemma cmp3_lt_le (a b : Z * Z * Z) : cmp3 a b = Lt -> cmp3 a b <> Gt.
Proof. congruence. Qed.

Lemma cmp3_trans (a b c : Z * Z * Z) :
  cmp3 a b <> Gt -> cmp3 b c <> Gt -> cmp3 a c <> Gt.
Proof. destruct a as [[a1 a2] a3], b as [[b1 b2] b3], c as [[c1 c2] c3]. cmp3_solve. Qed.

Lemma cmp3_eq_lt (a b c : Z * Z * Z) :
  cmp3 a c = Eq -> cmp3 b c = Eq -> cmp3 a b <> Lt.
Proof. destruct a as [[a1 a2] a3], b as [[b1 b2] b3], c as [[c1 c2] c3]. cmp3_solve. Qed.

(** [x == x]: [x] is not NaN. *)
Lemma eqb_refl_not_nan (x : float) : (x =? x) = true <-> Prim2SF x <> S754_nan.
Proof.
  rewrite FloatAxioms.eqb_spec. unfold SFeqb. split.
  - intros H E. rewrite E in H. discriminate.
  - intros H. rewrite (SFcompare_key _ _ H H).
    destruct (sf_key (Prim2SF x)) as [[a b] c]. unfold cmp3.
    now rewrite !Z.compare_refl.
Qed.

Lemma leb0_not_nan (x : float) : (0 <=? x) = true -> (x =? x) = true.
Proof.
  intros H. apply eqb_refl_not_nan. apply leb0_nonneg in H.
  intros E. rewrite E in H. discriminate.
Qed.

Lemma leb_not_nan (x y : float) : (x <=? y) = true -> (x =? x) = true /\ (y =? y) = true.
Proof.
  rewrite leb_spec. unfold SFleb. intros H.
  split; apply eqb_refl_not_nan; intros E; rewrite E in H;
    [|destruct (Prim2SF x)]; discriminate.
Qed.

Lemma not_ltb_leb (x y : float) :
  (x =? x) = true -> (y =? y) = true -> (x <? y) = false -> (y <=? x) = true.
Proof.
  rewrite !eqb_refl_not_nan, ltb_spec, leb_spec. unfold SFltb, SFleb.
  intros Hx Hy. rewrite (SFcompare_key _ _ Hx Hy), (SFcompare_key _ _ Hy Hx).
  intros H. pose proof (cmp3_total (sf_key (Prim2SF x)) (sf_key (Prim2SF y))) as T.
  destruct (cmp3 (sf_key (Prim2SF x)) _); try discriminate;
    destruct (cmp3 (sf_key (Prim2SF y)) _); try reflexivity;
    exfalso; apply T; congruence.
Qed.

Lemma ltb_leb (x y : float) : (x <? y) = true -> (x <=? y) = true.
Proof.
  rewrite ltb_spec, leb_spec. unfold SFltb, SFleb.
  destruct (SFcompare _ _) as [[]|]; congruence.
Qed.

Lemma leb_trans (x y z : float) :
  (x <=? y) = true -> (y <=? z) = true -> (x <=? z) = true.
Proof.
  intros Hxy Hyz.
  destruct (leb_not_nan _ _ Hxy) as (Hx & Hy), (leb_not_nan _ _ Hyz) as (_ & Hz).
  revert Hxy Hyz. apply eqb_refl_not_nan in Hx, Hy, Hz.
  rewrite !leb_spec. unfold SFleb.
  rewrite (SFcompare_key _ _ Hx Hy), (SFcompare_key _ _ Hy Hz), (SFcompare_key _ _ Hx Hz).
  intros H1 H2.
  pose proof (cmp3_trans (sf_key (Prim2SF x)) (sf_key (Prim2SF y)) (sf_key (Prim2SF z))) as T.
  destruct (cmp3 (sf_key (Prim2SF x)) (sf_key (Prim2SF y))); try discriminate;
    destruct (cmp3 (sf_key (Prim2SF y)) (sf_key (Prim2SF z))); try discriminate;
    destruct (cmp3 (sf_key (Prim2SF x)) (sf_key (Prim2SF z))); try reflexivity;
    exfalso; apply T; congruence.
Qed.

(** Two floats equal to a third one are not strictly ordered. *)
Lemma eqb_not_ltb (x y c : float) :
  (x =? c) = true -> (y =? c) = true -> (x <? y) = false.
Proof.
  rewrite !FloatAxioms.eqb_spec, ltb_spec. unfold SFeqb, SFltb. intros H1 H2.
  assert (Hx : Prim2SF x <> S754_nan) by (intros E; rewrite E in H1; discriminate).
  assert (Hy : Prim2SF y <> S754_nan) by (intros E; rewrite E in H2; discriminate).
  assert (Hc : Prim2SF c <> S754_nan)
    by (intros E; rewrite E in H1; destruct (Prim2SF x); discriminate).
  rewrite (SFcompare_key _ _ Hx Hc) in H1. rewrite (SFcompare_key _ _ Hy Hc) in H2.
  rewrite (SFcompare_key _ _ Hx Hy).
  pose proof (cmp3_eq_lt (sf_key (Prim2SF x)) (sf_key (Prim2SF y)) (sf_key (Prim2SF c))) as T.
  destruct (cmp3 (sf_key (Prim2SF x)) (sf_key (Prim2SF c))); try discriminate.
  destruct (cmp3 (sf_key (Prim2SF y)) (sf_key (Prim2SF c))); try discriminate.
  destruct (cmp3 (sf_key (Prim2SF x)) (sf_key (Prim2SF y))); try reflexivity.
  exfalso; now apply T.
Qed.
End FloatOrder.

(** ** The composite confidence score *)
Section Confidence.
Import Aux network_agent reference.
Open Scope float_scope.

Lemma omap_cons {A B} (f : A -> option B) (x : A) (l : list A) :
  omap f (x :: l)
  = match f x with
    | Some y => y :: omap f l
    | None => omap f l
    end.
Proof. reflexivity. Qed.

(** The two accumulators of the loop are the two running sums over the
    available metrics. *)
Lemma running_sums (r : record) (ws : list (string * float)) (s t : float) :
  fold_left (fun '(score, total_weight) '(metric_name, weight) =>
               match get (metric r metric_name) with
               | Some value =>
                   if 0 <? value
                   then (score + weight * value, total_weight + weight)
                   else (score, total_weight)
               | None => (score, total_weight)
               end) ws (s, t)
  = (fold_left (fun acc '(weight, value) => acc + weight * value) (omap (select r) ws) s,
     fold_left (fun acc '(weight, _) => acc + weight) (omap (select r) ws) t).
Proof.
  revert s t; induction ws as [|[name w] ws IH]; intros s t; [reflexivity|].
  rewrite omap_cons. cbn [fold_left select].
  destruct (get (metric r name)) as [v|]; [destruct (0 <? v)|]; cbn [fold_left]; apply IH.
Qed.

Lemma calculate_is_reference (r : record) :
  _calculate_composite_confidence r = composite_confidence r.
Proof.
  unfold _calculate_composite_confidence, composite_confidence.
  rewrite running_sums.
  change (omap (select r) weights) with (available_metrics r).
  fold (weighted_sum (available_metrics r)). fold (weight_sum (available_metrics r)).
  unfold py_min, clamp_at_most_1. now destruct (community_id r).
Qed.

(** C3, as the code has it.  The score is the reference definition: the
    weighted sum of the present, positive metrics (weights 0.2, 0.3, 0.2,
    0.3) over the sum of their weights, 0 when there is none, times 1.2 when
    [community_id] is not null, clamped to at most 1.0; and the record of
    the example gets 0.816. *)
Theorem composite_confidence_matches_reference :
  (forall r, _calculate_composite_confidence r = composite_confidence r)
  /\ _calculate_composite_confidence example_record = 0.816.
Proof.
  split; [exact calculate_is_reference | vm_compute; reflexivity].
Qed.

(** C3 as stated fails on its example: the two available metrics give
    (0.2*0.5 + 0.3*0.8) / 0.5 = 0.68, times 1.2 is 0.816, below the clamp. *)
Lemma example_confidence_is_not_1 :
  available_metrics example_record = [(0.2, 0.5); (0.3, 0.8)]
  /\ _calculate_composite_confidence example_record = 0.816
  /\ (_calculate_composite_confidence example_record =? 1) = false
  /\ (_calculate_composite_confidence example_record <? 1) = true.
Proof. repeat split; vm_compute; reflexivity. Qed.

Lemma weights_finpos :
  Forall (fun entry => sf_finpos (Prim2SF (snd entry)) = true) weights.
Proof. repeat constructor. Qed.

Lemma available_shape (r : record) (ws : list (string * float)) :
  Forall (fun entry => sf_finpos (Prim2SF (snd entry)) = true) ws ->
  Forall (fun '(w, v) => sf_finpos (Prim2SF w) = true /\ (0 <? v) = true)
         (omap (select r) ws).
Proof.
  induction 1 as [|[name w] ws Hw Hws IH]; [constructor|].
  rewrite omap_cons. cbn [select].
  destruct (get (metric r name)) as [v|]; [destruct (0 <? v) eqn:E|]; try exact IH.
  constructor; [split; assumption | exact IH].
Qed.

Lemma weighted_sum_nonneg (l : list (float * float)) (acc : float) :
  Forall (fun '(w, v) => sf_finpos (Prim2SF w) = true /\ (0 <? v) = true) l ->
  (0 <=? acc) = true ->
  (0 <=? fold_left (fun acc '(weight, value) => acc + weight * value) l acc) = true.
Proof.
  intros H; revert acc; induction H as [|[w v] l (Hw & Hv) Hl IH]; intros acc Ha;
    [exact Ha|].
  cbn [fold_left]. apply IH, add_nonneg; [exact Ha | now apply mul_finpos_pos].
Qed.

Lemma available_weights (r : record) (ws : list (string * float)) :
  map fst (omap (select r) ws)
  = omap (fun '(name, w) => if qualifies r name then Some w else None) ws.
Proof.
  induction ws as [|[name w] ws IH]; [reflexivity|].
  rewrite !omap_cons. cbn [select]. unfold qualifies at 1.
  destruct (get (metric r name)) as [v|]; [destruct (0 <? v)|]; cbn [map fst];
    now rewrite IH.
Qed.

Lemma weight_sum_map (l : list (float * float)) (acc : float) :
  fold_left (fun acc '(weight, _) => acc + weight) l acc
  = fold_left (fun acc weight => acc + weight) (map fst l) acc.
Proof.
  revert acc; induction l as [|[w v] l IH]; intros acc; [reflexivity|]. apply IH.
Qed.

(** The sum of the weights of any selection of the four metrics is 0 or a
    positive finite number. *)
Lemma weight_sum_cases (r : record) :
  weight_sum (available_metrics r) = 0
  \/ ((0 <? weight_sum (available_metrics r)) = true
      /\ sf_finpos (Prim2SF (weight_sum (available_metrics r))) = true).
Proof.
  unfold weight_sum, available_metrics. rewrite weight_sum_map.
  rewrite available_weights. unfold weights. rewrite !omap_cons.
  destruct (qualifies r "degree_centrality"), (qualifies r "betweenness_centrality"),
    (qualifies r "closeness_centrality"), (qualifies r "pagerank_score");
    vm_compute; auto.
Qed.

Lemma clamp_range (x : float) :
  (0 <=? x) = true ->
  (0 <=? clamp_at_most_1 x) = true /\ (clamp_at_most_1 x <=? 1) = true.
Proof.
  intros H. unfold clamp_at_most_1. destruct (1 <? x) eqn:E.
  - split; reflexivity.
  - split; [exact H|]. apply not_ltb_leb; [reflexivity | now apply leb0_not_nan | exact E].
Qed.

Lemma composite_confidence_range (r : record) :
  (0 <=? composite_confidence r) = true /\ (composite_confidence r <=? 1) = true.
Proof.
  unfold composite_confidence. apply clamp_range.
  assert (Hn : (0 <=? (if 0 <? weight_sum (available_metrics r)
                       then weighted_sum (available_metrics r)
                            / weight_sum (available_metrics r)
                       else 0)) = true).
  { destruct (weight_sum_cases r) as [-> | (-> & Hf)]; [reflexivity|].
    apply div_nonneg_finpos; [|exact Hf].
    apply weighted_sum_nonneg; [|reflexivity].
    apply available_shape, weights_finpos. }
  destruct (community_id r); try exact Hn.
  apply mul_nonneg_finpos; [exact Hn | reflexivity].
Qed.

Lemma calculate_not_nan (r : record) :
  (_calculate_composite_confidence r =? _calculate_composite_confidence r) = true.
Proof.
  rewrite calculate_is_reference. apply leb0_not_nan, composite_confidence_range.
Qed.

(** C4.  Whatever the record holds (metrics present, absent, null, zero,
    infinite or NaN), the score is in [0, 1]; in particular the 1.2 bonus
    never carries it above 1.0; and it is exactly 0.0 when none of the four
    weighted metrics is present and positive. *)
Theorem composite_confidence_bounds (r : record) :
  (0 <=? _calculate_composite_confidence r) = true
  /\ (_calculate_composite_confidence r <=? 1) = true
  /\ ((forall metric_name weight value,
          In (metric_name, weight) weights ->
          get (metric r metric_name) = Some value -> (0 <? value) = false) ->
      _calculate_composite_confidence r = 0).
Proof.
  rewrite calculate_is_reference.
  destruct (composite_confidence_range r) as (H0 & H1).
  repeat split; try assumption.
  intros Hnone. unfold composite_confidence.
  assert (E : available_metrics r = []).
  { unfold available_metrics.
    assert (G : forall ws, (forall n w, In (n, w) ws -> In (n, w) weights) ->
                           omap (select r) ws = []).
    { induction ws as [|[n w] ws IH]; intros Hsub; [reflexivity|].
      rewrite omap_cons. cbn [select].
      rewrite IH by (intros n' w' Hin; apply Hsub; now right).
      destruct (get (metric r n)) as [v|] eqn:Ev; [|reflexivity].
      now rewrite (Hnone n w v (Hsub n w (or_introl eq_refl)) Ev). }
    apply G. auto. }
  rewrite E. now destruct (community_id r).
Qed.

Lemma composite_confidence_bounds_witness :
  let r := mkRecord Absent Absent (Val infinity) Null (Val 0) (Val nan) (Val 7%Z)
                    Absent Absent Absent Absent in
  (0 <=? _calculate_composite_confidence r) = true
  /\ (_calculate_composite_confidence r <=? 1) = true
  /\ _calculate_composite_confidence
       (mkRecord Absent Absent Absent Null (Val 0) (Val (-0.25)) (Val 7%Z)
                 Absent Absent Absent Absent) = 0.
Proof.
  intros r. destruct (composite_confidence_bounds r) as (H0 & H1 & _).
  split; [exact H0 | split; [exact H1|]].
  apply composite_confidence_bounds.
  intros n w v Hin. unfold weights in Hin. simpl in Hin.
  repeat (destruct Hin as [[= <- <-] | Hin];
          [intros E; vm_compute in E; try discriminate;
           injection E as <-; vm_compute; reflexivity|]).
  contradiction.
Defined.
End Confidence.

(** ** Ranking *)
Section Ranking.
Import Aux network_agent.
Open Scope float_scope.

Lemma insert_desc_perm (x : record) (l : list record) :
  Permutation (x :: l) (insert_desc x l).
Proof.
  induction l as [|y l IH]; [reflexivity|]. cbn [insert_desc].
  destruct (key_of x <? key_of y); [|reflexivity].
  rewrite perm_swap. now constructor.
Qed.

Lemma sort_perm (l : list record) : Permutation l (fold_right insert_desc [] l).
Proof.
  induction l as [|x l IH]; [reflexivity|]. cbn [fold_right].
  rewrite <- insert_desc_perm. now constructor.
Qed.

Lemma has_float_key_key (r : record) :
  has_float_key r = true -> (key_of r =? key_of r) = true.
Proof.
  unfold has_float_key, key_of. destruct (sort_key r) as [c|]; [easy | discriminate].
Qed.

Lemma insert_desc_sorted (x : record) (l : list record) :
  has_float_key x = true -> Forall (fun r => has_float_key r = true) l ->
  StronglySorted ranks_above l ->
  StronglySorted ranks_above (insert_desc x l).
Proof.
  intros Hx Hl Hs. induction Hs as [|y l Hs IH Hy]; cbn [insert_desc].
  - repeat constructor.
  - apply Forall_cons in Hl as (Hky & Hl).
    destruct (key_of x <? key_of y) eqn:E.
    + constructor; [now apply IH|].
      rewrite <- insert_desc_perm. constructor; [|exact Hy].
      unfold ranks_above. now apply ltb_leb.
    + assert (Hxy : ranks_above x y).
      { unfold ranks_above. apply not_ltb_leb; auto using has_float_key_key. }
      constructor; [now constructor|]. constructor; [exact Hxy|].
      eapply List.Forall_impl; [|exact Hy]. intros z Hz. unfold ranks_above in *.
      now apply (leb_trans _ (key_of y)).
Qed.

Lemma sort_sorted (l : list record) :
  Forall (fun r => has_float_key r = true) l ->
  StronglySorted ranks_above (fold_right insert_desc [] l).
Proof.
  induction 1 as [|x l Hx Hl IH]; [constructor|]. cbn [fold_right].
  apply insert_desc_sorted; try assumption. now rewrite <- sort_perm.
Qed.

Lemma insert_desc_stable (c : float) (x : record) (l : list record) :
  with_confidence c (insert_desc x l) = with_confidence c (x :: l).
Proof.
  unfold with_confidence. induction l as [|y l IH]; [reflexivity|].
  cbn [insert_desc]. destruct (key_of x <? key_of y) eqn:E; [|reflexivity].
  cbn [List.filter] in *. rewrite IH.
  destruct (key_of x =? c) eqn:Ex, (key_of y =? c) eqn:Ey; try reflexivity.
  rewrite (eqb_not_ltb _ _ _ Ex Ey) in E. discriminate.
Qed.

Lemma sort_stable (c : float) (l : list record) :
  with_confidence c (fold_right insert_desc [] l) = with_confidence c l.
Proof.
  induction l as [|x l IH]; [reflexivity|]. cbn [fold_right].
  rewrite insert_desc_stable. unfold with_confidence in *. cbn [List.filter].
  now rewrite IH.
Qed.

Lemma sort_desc_Ok (l : list record) :
  Forall (fun r => has_float_key r = true) l ->
  sort_desc l = Ok (fold_right insert_desc [] l).
Proof.
  intros H. unfold sort_desc.
  replace (existsb _ l) with false; [now rewrite andb_false_r|].
  symmetry. apply not_true_iff_false. intros E.
  apply existsb_exists in E as (r & Hr & E). rewrite List.Forall_forall in H.
  specialize (H r Hr). unfold has_float_key in H.
  apply bool_decide_eq_true in E. rewrite E in H. discriminate.
Qed.

Lemma mapM_comprehensive (records : list record) :
  mapM (process_record "comprehensive") records
  = Ok (map (fun r => set_confidence r (Val (_calculate_composite_confidence r))) records).
Proof.
  induction records as [|r l IH]; [reflexivity|].
  cbn [mapM map]. rewrite IH. reflexivity.
Qed.

(** C5, as the code has it.  The ranked list is a rearrangement of the
    processed records, sorted descending by [confidence_score], and records
    with equal [confidence_score] keep the order they came in; the title
    plays no part.  This holds for any processed records whose scores are
    floats other than NaN, and for every non-empty result of the
    comprehensive analysis. *)
Theorem ranking_sorted_and_stable :
  (forall processed,
      Forall (fun r => has_float_key r = true) processed ->
      exists ranked,
        sort_desc processed = Ok ranked
        /\ Permutation processed ranked
        /\ StronglySorted ranks_above ranked
        /\ forall c, with_confidence c ranked = with_confidence c processed)
  /\ (forall records,
        records <> [] ->
        exists ranked,
          _process_network_results (ToolRecords records) "comprehensive"
          = Ok (Ranked (length records) ranked "comprehensive"
                       (_get_metrics_list "comprehensive"))
          /\ Permutation
               (map (fun r => set_confidence r (Val (_calculate_composite_confidence r)))
                    records) ranked
          /\ StronglySorted ranks_above ranked
          /\ forall c,
              with_confidence c ranked
              = with_confidence c
                  (map (fun r => set_confidence r (Val (_calculate_composite_confidence r)))
                       records)).
Proof.
  assert (G : forall processed,
             Forall (fun r => has_float_key r = true) processed ->
             exists ranked,
               sort_desc processed = Ok ranked
               /\ Permutation processed ranked
               /\ StronglySorted ranks_above ranked
               /\ forall c, with_confidence c ranked = with_confidence c processed).
  { intros l H. exists (fold_right insert_desc [] l).
    split; [now apply sort_desc_Ok|]. split; [apply sort_perm|].
    split; [now apply sort_sorted | intros c; apply sort_stable]. }
  split; [exact G|]. intros records Hne.
  set (processed := map (fun r => set_confidence r (Val (_calculate_composite_confidence r)))
                        records).
  destruct (G processed) as (ranked & Hs & Hp & Hsorted & Hstable).
  { subst processed. apply Forall_map. apply List.Forall_forall. intros r _.
    unfold has_float_key. cbn. apply calculate_not_nan. }
  exists ranked. repeat split; try assumption.
  unfold _process_network_results. destruct records as [|r0 rest]; [now elim Hne|].
  rewrite mapM_comprehensive. fold processed. cbn [mbind pyresult_bind].
  rewrite Hs. cbn [mbind pyresult_bind].
  rewrite <- (Permutation_length Hp). subst processed. now rewrite length_map.
Qed.

Lemma ranking_sorted_and_stable_witness :
  let r (t : string) (c : float) :=
    mkRecord Absent (Val (py t)) Absent Absent Absent Absent Absent
             Absent Absent Absent (Val c) in
  exists ranked,
    sort_desc [r "Graphs" 0.25; r "Zeta" 0.75; r "Alpha" 0.75] = Ok ranked
    /\ ranked = [r "Zeta" 0.75; r "Alpha" 0.75; r "Graphs" 0.25]
    /\ StronglySorted ranks_above ranked.
Proof.
  intros r.
  destruct ranking_sorted_and_stable as (H & _).
  destruct (H [r "Graphs" 0.25; r "Zeta" 0.75; r "Alpha" 0.75])
    as (ranked & Hs & _ & Hsorted & _).
  - repeat constructor.
  - exists ranked. split; [exact Hs|]. split; [|exact Hsorted].
    vm_compute in Hs. now injection Hs as <-.
Defined.

(** C5 as stated fails: two records with the same score come back in their
    input order, here ["Zeta"] before ["Alpha"], not in title order. *)
Lemma ties_are_not_ordered_by_title :
  let r (t : string) (c : float) :=
    mkRecord Absent (Val (py t)) Absent Absent Absent Absent Absent
             Absent Absent Absent (Val c) in
  _process_network_results (ToolRecords [r "Zeta" 0.75; r "Alpha" 0.75]) "community"
  = Ok (Ranked 2 [r "Zeta" 0.75; r "Alpha" 0.75] "community"
               ["pagerank_score"; "community_id"; "same_community"]%string).
Proof. vm_compute. reflexivity. Qed.
End Ranking.

(** ** Fail-soft fan-out *)
Section FanOut.
Import Aux network_agent.

Variable neo4j_tool : nat -> string -> pyresult exn tool_result.

Lemma analysis_loop_other (types : list string) (n : nat)
      (results : gmap string entry) (kind : string) :
  kind ∉ types ->
  analysis_loop neo4j_tool n types results !! kind = results !! kind.
Proof.
  revert n results; induction types as [|t types IH]; intros n results Hn; [reflexivity|].
  cbn [analysis_loop]. apply not_elem_of_cons in Hn as (Hne & Hn).
  rewrite IH by assumption. now apply lookup_insert_ne.
Qed.

(** The entry of a kind is the outcome of its last attempt. *)
Lemma analysis_loop_last (pre post : list string) (kind : string) (n : nat)
      (results : gmap string entry) :
  kind ∉ post ->
  analysis_loop neo4j_tool n (pre ++ kind :: post) results !! kind
  = Some (attempt neo4j_tool (n + length pre) kind).
Proof.
  intros Hn. revert n results; induction pre as [|t pre IH]; intros n results.
  - cbn [app analysis_loop length]. rewrite analysis_loop_other by assumption.
    rewrite Nat.add_0_r. apply lookup_insert_eq.
  - cbn [app analysis_loop length]. rewrite IH. f_equal. f_equal. lia.
Qed.

Lemma supported_has_template (kind : string) (n : nat) :
  kind ∈ supported_types ->
  _run_analysis_type neo4j_tool n kind = neo4j_tool n (template_of kind).
Proof.
  unfold supported_types. rewrite !elem_of_cons, elem_of_nil.
  intros [-> | [-> | [-> | [-> | [-> | []]]]]]; reflexivity.
Qed.

(** C9.  With a selector given and the projection ensured, the analysis
    returns a report, it does not raise, and the entry of every requested
    kind is decided by the backend call of that kind alone: an error marker
    carrying the exception when that call (or the processing of its result)
    raises, the processed result otherwise.  A failing kind leaves the
    entries of the other kinds as they are. *)
Theorem analysis_failures_are_isolated
        (title_keyword work_id : option str) (config_types : list string) :
  truthy title_keyword = true \/ truthy work_id = true ->
  exists results,
    find_related_by_network_analysis neo4j_tool title_keyword work_id config_types true
    = Report (validate_analysis_types config_types) results
    /\ forall pre kind post,
        validate_analysis_types config_types = pre ++ kind :: post ->
        kind ∉ post ->
        match neo4j_tool (length pre) (template_of kind) with
        | Raise e => results !! kind = Some (ErrorMarker e)
        | Ok result =>
            results !! kind
            = Some (match _process_network_results result kind with
                    | Ok processed => processed
                    | Raise e => ErrorMarker e
                    end)
        end.
Proof.
  intros Hsel.
  exists (analysis_loop neo4j_tool 0 (validate_analysis_types config_types) ∅). split.
  - unfold find_related_by_network_analysis.
    destruct Hsel as [E | E]; rewrite E; cbn [negb andb]; [reflexivity|].
    now rewrite andb_false_r.
  - intros pre kind post E Hpost. rewrite E, analysis_loop_last by assumption.
    cbn [Nat.add]. unfold attempt.
    rewrite supported_has_template.
    + destruct (neo4j_tool (length pre) (template_of kind)) as [result|e]; reflexivity.
    + assert (Hin : kind ∈ validate_analysis_types config_types)
          by (rewrite E; apply elem_of_app; right; left).
      unfold validate_analysis_types in Hin. now apply list_elem_of_filter in Hin.
Qed.
End FanOut.

Section FanOutExample.
Import Aux network_agent.
Open Scope float_scope.

(** The example of the specification: centrality and community requested,
    the community call raises a timeout. *)
Lemma analysis_failures_are_isolated_witness :
  let work := mkRecord (Val (py "W1")) (Val (py "Graph mining")) Absent Absent Absent
                       (Val 0.5) Absent Absent Absent Absent Absent in
  let backend (n : nat) (template : string) : pyresult exn tool_result :=
    if String.eqb template "find_related_by_centrality"
    then Raise (BackendError (py "timeout"))
    else Ok (ToolRecords [work]) in
  exists results,
    find_related_by_network_analysis backend (Some (py "graph")) None
      ["centrality"; "community"]%string true
    = Report ["centrality"; "community"]%string results
    /\ results !! "community"%string = Some (ErrorMarker (BackendError (py "timeout")))
    /\ results !! "centrality"%string
       = Some (Ranked 1 [set_confidence work (Val 0.5)] "centrality"
                      ["pagerank_score"%string]).
Proof.
  intros work backend.
  destruct (analysis_failures_are_isolated backend (Some (py "graph")) None
              ["centrality"; "community"]%string) as (results & Hr & H);
    [left; reflexivity|].
  exists results. split; [exact Hr|]. split.
  - exact (H ["centrality"%string] "community"%string [] eq_refl (not_elem_of_nil _)).
  - refine (H [] "centrality"%string ["community"%string] eq_refl _).
    intros Hin. apply list_elem_of_singleton in Hin. discriminate.
Defined.
End FanOutExample.

(** ** The text that [prepare_cypher] returns *)
Section CleanedText.
Import PyStr Re Aux validators.

Lemma kept_collapsed (p : bool) (s : str) : kept p (collapse p s) = true.
Proof.
  revert p; induction s as [|c s IH]; intros p; [reflexivity|].
  cbn [collapse]. destruct (isspace c) eqn:E.
  - destruct p; [apply IH|].
    change (kept false (" "%char :: collapse true s)) with (kept true (collapse true s)).
    apply IH.
  - cbn [kept]. rewrite E. apply IH.
Qed.

Lemma kept_split (p : bool) (a b : str) (c : ascii) :
  kept p (a ++ c :: b) = true -> isspace c = true ->
  c = " "%char /\ match b with [] => True | d :: _ => isspace d = false end.
Proof.
  revert p; induction a as [|x a IH]; intros p H Hc.
  - cbn [app kept] in H. rewrite Hc in H.
    apply andb_prop in H as [H Hb]. apply andb_prop in H as [_ H].
    apply eqc_true in H. split; [exact H|].
    destruct b as [|d b]; [exact I|]. cbn [kept] in Hb.
    destruct (isspace d); [discriminate | reflexivity].
  - cbn [app kept] in H. destruct (isspace x).
    + apply andb_prop in H as [_ H]. now apply (IH true).
    + now apply (IH false).
Qed.

Lemma clean_kept (cypher : str) : kept false (clean cypher) = true.
Proof.
  unfold clean. rewrite (proj2 (sub_spaces_collapse _)). apply kept_collapsed.
Qed.

(** X1.  In the text that the cleaning steps of [prepare_cypher] produce,
    every whitespace character is a blank, and the character after it, if
    there is one, is not whitespace. *)
Theorem clean_whitespace_is_single_blanks (cypher a b : str) (c : ascii) :
  clean cypher = a ++ c :: b -> isspace c = true ->
  c = " "%char /\ match b with [] => True | d :: _ => isspace d = false end.
Proof.
  intros H Hc. apply (kept_split false a b c); [|exact Hc].
  rewrite <- H. apply clean_kept.
Qed.

Lemma clean_whitespace_is_single_blanks_witness :
  let q := [ascii_of_N 9] ++ py "MATCH (n:Author)" ++ [ascii_of_N 10; ascii_of_N 9]
           ++ py "RETURN   n.name" in
  clean q = py "MATCH (n:Author)" ++ " "%char :: py "RETURN n.name"
  /\ " "%char = " "%char /\ isspace "R" = false.
Proof.
  split; [vm_compute; reflexivity|].
  apply (clean_whitespace_is_single_blanks
           ([ascii_of_N 9] ++ py "MATCH (n:Author)" ++ [ascii_of_N 10; ascii_of_N 9]
            ++ py "RETURN   n.name")
           (py "MATCH (n:Author)") (py "RETURN n.name") " "%char);
    vm_compute; reflexivity.
Defined.

Lemma lstrip_nil (s : str) :
  lstrip s = [] <-> Forall (fun c => isspace c = true) s.
Proof.
  induction s as [|c s IH]; [split; [constructor | reflexivity]|].
  cbn [lstrip]. destruct (isspace c) eqn:E.
  - rewrite IH. split; [now constructor | now inversion 1].
  - split; [discriminate|]. inversion 1. congruence.
Qed.

Lemma lstrip_head (s t : str) (c : ascii) : lstrip s = c :: t -> isspace c = false.
Proof.
  induction s as [|x s IH]; [discriminate|]. cbn [lstrip].
  destruct (isspace x) eqn:E; [exact IH|]. intros [= <- _]. exact E.
Qed.

Lemma strip_nil (s : str) :
  strip s = [] <-> Forall (fun c => isspace c = true) s.
Proof.
  unfold strip, rstrip. split.
  - intros H. apply (f_equal (@rev ascii)) in H. rewrite rev_involutive in H.
    cbn [rev] in H. apply lstrip_nil in H. apply Forall_rev in H.
    rewrite rev_involutive in H. apply lstrip_nil.
    destruct (lstrip s) as [|c t] eqn:E; [reflexivity|].
    apply lstrip_head in E. inversion H. congruence.
  - intros H. apply lstrip_nil in H. now rewrite H.
Qed.

(** X2.  On a query of ASCII characters, [prepare_cypher] raises the
    empty-query error, the one without a validation type, exactly when the
    query is made of whitespace only, the empty query among them. *)
Theorem prepare_cypher_blank (order : list str) (cypher : str) :
  ascii_only cypher = true ->
  (prepare_cypher order cypher = Raise (mkValidationError None None)
   <-> Forall (fun c => isspace c = true) cypher).
Proof.
  intros _. unfold prepare_cypher. split.
  - destruct (is_empty cypher || is_empty (strip cypher)) eqn:E.
    + intros _. apply orb_prop in E as [E | E].
      * destruct cypher; [constructor | discriminate].
      * apply strip_nil. destruct (strip cypher); [reflexivity | discriminate].
    + unfold assert_read_only, _validate_procedure_calls, error.
      destruct (first_bad _ order); [discriminate|].
      destruct (contains _ _); [|discriminate].
      destruct (first_bad _ _); discriminate.
  - intros H. apply strip_nil in H. rewrite H. cbn [is_empty]. now rewrite orb_true_r.
Qed.

Lemma prepare_cypher_blank_witness :
  prepare_cypher FORBIDDEN_KEYWORDS [ascii_of_N 32; ascii_of_N 9; ascii_of_N 10]
  = Raise (mkValidationError None None).
Proof.
  apply (proj2 (prepare_cypher_blank FORBIDDEN_KEYWORDS
                  [ascii_of_N 32; ascii_of_N 9; ascii_of_N 10] eq_refl)).
  repeat (constructor; [vm_compute; reflexivity|]). constructor.
Defined.

Lemma collapse_idem (p : bool) (s : str) : collapse p (collapse p s) = collapse p s.
Proof.
  revert p; induction s as [|c s IH]; intros p; [reflexivity|].
  cbn [collapse]. destruct (isspace c) eqn:E.
  - destruct p; [apply IH|].
    change (collapse false (" "%char :: collapse true s))
      with (" "%char :: collapse true (collapse true s)).
    now rewrite IH.
  - cbn [collapse]. rewrite E. now rewrite IH.
Qed.

Lemma lstrip_fixed (s : str) :
  lstrip s = s <-> match s with [] => True | c :: _ => isspace c = false end.
Proof.
  destruct s as [|c s]; [easy|]. cbn [lstrip]. destruct (isspace c) eqn:E.
  - split; [|discriminate]. intros H.
    destruct (lstrip_suffix s) as [a Ha]. rewrite H in Ha.
    apply (f_equal (@length ascii)) in Ha. rewrite length_app in Ha. cbn in Ha. lia.
  - easy.
Qed.

Lemma lstrip_lstrip (s : str) : lstrip (lstrip s) = lstrip s.
Proof.
  apply lstrip_fixed. destruct (lstrip s) as [|c t] eqn:E; [exact I|].
  now apply lstrip_head in E.
Qed.

Lemma strip_fixed (s : str) :
  lstrip s = s -> lstrip (rev s) = rev s -> strip s = s.
Proof.
  intros H1 H2. unfold strip, rstrip. now rewrite H1, H2, rev_involutive.
Qed.

(** What [strip] returns starts and ends with a character that is not
    whitespace. *)
Lemma strip_ends (s : str) :
  lstrip (strip s) = strip s /\ lstrip (rev (strip s)) = rev (strip s).
Proof.
  unfold strip, rstrip. rewrite rev_involutive. split; [|apply lstrip_lstrip].
  destruct (lstrip s) as [|c t] eqn:E; [reflexivity|].
  pose proof (lstrip_head _ _ _ E) as Hc.
  cbn [rev]. destruct (lstrip_keeps [c] (rev t) []) as [a' Ha]; [cbn; now rewrite Hc|].
  cbn [app] in Ha. rewrite Ha, rev_app_distr. cbn [rev app].
  apply lstrip_fixed. exact Hc.
Qed.

Lemma collapse_ends (s : str) :
  lstrip s = s -> lstrip (rev s) = rev s ->
  lstrip (collapse false s) = collapse false s
  /\ lstrip (rev (collapse false s)) = rev (collapse false s).
Proof.
  intros H1 H2. split.
  - apply lstrip_fixed. apply lstrip_fixed in H1. destruct s as [|c s]; [exact I|].
    cbn [collapse]. now rewrite H1.
  - apply lstrip_fixed. apply lstrip_fixed in H2.
    destruct (rev s) as [|c r] eqn:E.
    + apply (f_equal (@rev ascii)) in E. rewrite rev_involutive in E. now subst s.
    + apply (f_equal (@rev ascii)) in E. rewrite rev_involutive in E. cbn [rev] in E.
      subst s. destruct (collapse_app (rev r) [c] false) as [p' ->].
      cbn [collapse]. rewrite H2. rewrite rev_app_distr. cbn [rev app]. exact H2.
Qed.

Lemma startswith_collapse (n s : str) :
  Forall (fun c => isspace c = false) n ->
  startswith n (collapse false s) = true -> startswith n s = true.
Proof.
  intros Hn. revert s; induction Hn as [|x n Hx Hn IH]; intros s; [reflexivity|].
  destruct s as [|c s]; [discriminate|]. cbn [collapse]. destruct (isspace c) eqn:E.
  - cbn [startswith]. intros H. apply andb_prop in H as [H _]. apply eqc_true in H.
    subst x. discriminate.
  - cbn [startswith]. intros H. apply andb_prop in H as [H1 H2].
    rewrite H1. cbn [andb]. now apply IH.
Qed.

Lemma contains_collapse (n s : str) (p : bool) :
  n <> [] -> Forall (fun c => isspace c = false) n ->
  contains n (collapse p s) = true -> contains n s = true.
Proof.
  intros Hne Hn. revert p; induction s as [|c s IH]; intros p.
  - cbn [collapse]. now rewrite contains_nil.
  - cbn [collapse]. destruct (isspace c) eqn:E.
    + destruct p.
      * intros H. apply IH in H. cbn [contains]. rewrite H. apply orb_true_r.
      * cbn [contains]. intros H. apply orb_prop in H as [H | H].
        { destruct Hn as [|x n Hx Hn]; [now elim Hne|]. cbn [startswith] in H.
          apply andb_prop in H as [H _]. apply eqc_true in H. subst x. discriminate. }
        { apply IH in H. rewrite H. apply orb_true_r. }
    + cbn [contains]. intros H. apply orb_prop in H as [H | H].
      * replace (c :: collapse false s) with (collapse false (c :: s)) in H
          by (cbn [collapse]; now rewrite E).
        apply startswith_collapse in H; [|exact Hn]. now rewrite H.
      * apply IH in H. rewrite H. apply orb_true_r.
Qed.

Lemma collapse_without (n s : str) :
  n <> [] -> Forall (fun c => isspace c = false) n ->
  contains n s = false -> contains n (collapse false (strip s)) = false.
Proof.
  intros Hne Hn H. destruct (contains n (collapse false (strip s))) eqn:E; [|reflexivity].
  apply contains_collapse in E; [|exact Hne|exact Hn].
  apply (contains_strip n s) in H. congruence.
Qed.

Lemma clean_idempotent (cypher : str) :
  contains (py "//") cypher = false ->
  contains (py "/*") cypher = false ->
  clean (clean cypher) = clean cypher.
Proof.
  intros H1 H2. rewrite (clean_without_comments cypher H1 H2).
  rewrite clean_without_comments.
  - destruct (strip_ends cypher) as [E1 E2].
    destruct (collapse_ends _ E1 E2) as [F1 F2].
    rewrite (strip_fixed _ F1 F2). apply collapse_idem.
  - apply collapse_without; [discriminate | | exact H1].
    repeat (constructor; [reflexivity|]). constructor.
  - apply collapse_without; [discriminate | | exact H2].
    repeat (constructor; [reflexivity|]). constructor.
Qed.

Lemma prepare_cypher_Ok (order : list str) (cypher prepared : str) :
  prepare_cypher order cypher = Ok prepared ->
  strip cypher <> [] /\ prepared = clean cypher
  /\ assert_read_only order prepared = Ok tt.
Proof.
  unfold prepare_cypher.
  destruct (is_empty cypher || is_empty (strip cypher)) eqn:E; [discriminate|].
  apply orb_false_elim in E as [_ E].
  destruct (assert_read_only order (clean cypher)) as [[]|e] eqn:A; [|discriminate].
  cbn [mbind pyresult_bind]. intros [= <-]. repeat split; [|exact A].
  intros H. now rewrite H in E.
Qed.

(** X3.  On a query that has neither [//] nor [/*], cleaning twice is
    cleaning once, and the text that [prepare_cypher] returns is accepted
    again and returned unchanged. *)
Theorem prepare_cypher_idempotent (order : list str) (cypher prepared : str) :
  contains (py "//") cypher = false ->
  contains (py "/*") cypher = false ->
  clean (clean cypher) = clean cypher
  /\ (prepare_cypher order cypher = Ok prepared ->
      prepare_cypher order prepared = Ok prepared).
Proof.
  intros H1 H2. split; [now apply clean_idempotent|].
  intros H. destruct (prepare_cypher_Ok _ _ _ H) as (Hne & -> & A).
  unfold prepare_cypher. rewrite (clean_idempotent cypher H1 H2), A.
  assert (Hs : strip (clean cypher) = clean cypher).
  { rewrite (clean_without_comments cypher H1 H2).
    destruct (strip_ends cypher) as [E1 E2].
    destruct (collapse_ends _ E1 E2) as [F1 F2]. now apply strip_fixed. }
  rewrite Hs.
  assert (Hc : clean cypher <> []).
  { rewrite (clean_without_comments cypher H1 H2).
    destruct (strip_ends cypher) as [E1 _]. apply lstrip_fixed in E1.
    destruct (strip cypher) as [|c s]; [now elim Hne|].
    cbn [collapse]. rewrite E1. discriminate. }
  destruct (clean cypher); [now elim Hc | reflexivity].
Qed.

Lemma prepare_cypher_idempotent_witness :
  let q := py "  MATCH (n:Author)   RETURN n.name " in
  let p := py "MATCH (n:Author) RETURN n.name" in
  clean (clean q) = clean q /\ prepare_cypher FORBIDDEN_KEYWORDS p = Ok p.
Proof.
  destruct (prepare_cypher_idempotent FORBIDDEN_KEYWORDS
              (py "  MATCH (n:Author)   RETURN n.name ")
              (py "MATCH (n:Author) RETURN n.name")) as [H1 H2];
    [vm_compute; reflexivity | vm_compute; reflexivity |].
  split; [exact H1 | apply H2; vm_compute; reflexivity].
Defined.

Lemma findall_In {G} (m : matcher G) (g : G) (k : nat) (s : str) :
  In g (findall_from m k s) -> exists a t len, s = a ++ t /\ m t = Some (g, len).
Proof.
  revert k; induction s as [|c s IH]; intros k; [contradiction|].
  cbn [findall_from]. destruct k as [|k].
  - destruct (m (c :: s)) as [[g' len]|] eqn:E.
    + intros [<- | H]; [now exists [], (c :: s), len|].
      destruct (IH _ H) as (a & t & l & -> & Hm). now exists (c :: a), t, l.
    + intros H. destruct (IH _ H) as (a & t & l & -> & Hm). now exists (c :: a), t, l.
  - intros H. destruct (IH _ H) as (a & t & l & -> & Hm). now exists (c :: a), t, l.
Qed.

Lemma call_shape (t name : str) (len : nat) :
  call_pattern t = Some (name, len) ->
  exists c a l1 l2 w rest,
    t = c :: a :: l1 :: l2 :: w :: rest
    /\ upper [c; a; l1; l2] = py "CALL" /\ isspace w = true.
Proof.
  unfold call_pattern. destruct t as [|c [|a [|l1 [|l2 rest]]]]; try discriminate.
  destruct (eqs _ _) eqn:E; [|discriminate]. apply eqs_true in E.
  destruct (span_split isspace rest) as [Hr Hf].
  destruct (span isspace rest) as [ws rest'] eqn:S. cbn [fst snd] in Hr, Hf.
  destruct ws as [|w ws]; [discriminate|]. intros _.
  exists c, a, l1, l2, w, (ws ++ rest'). repeat split; [now rewrite Hr | exact E |].
  now inversion Hf.
Qed.

Lemma call_has_blank (prepared call : str) :
  kept false prepared = true ->
  In call (findall call_pattern prepared) ->
  contains (py "CALL ") (upper prepared) = true.
Proof.
  intros K H. apply findall_In in H as (pre & t & len & -> & Hm).
  apply call_shape in Hm as (c & a & l1 & l2 & w & rest & -> & Hu & Hw).
  change (pre ++ c :: a :: l1 :: l2 :: w :: rest)
    with (pre ++ [c; a; l1; l2] ++ w :: rest) in *.
  rewrite app_assoc in K. destruct (kept_split _ _ _ _ K Hw) as [-> _].
  apply contains_app. exists (upper pre), (upper rest).
  unfold upper in *. rewrite !map_app, Hu. reflexivity.
Qed.

Lemma prepare_cypher_no_keyword (order : list str) (cypher prepared : str) :
  Permutation order FORBIDDEN_KEYWORDS ->
  prepare_cypher order cypher = Ok prepared ->
  prepared = clean cypher
  /\ Forall (fun kw => contains kw (upper prepared) = false) FORBIDDEN_KEYWORDS.
Proof.
  intros P H. destruct (prepare_cypher_Ok _ _ _ H) as (_ & -> & A).
  split; [reflexivity|]. unfold assert_read_only in A.
  destruct (first_bad _ order) eqn:F; [discriminate|].
  apply first_bad_None. apply (first_bad_None_perm _ _ order); [|exact F].
  now apply Permutation_sym.
Qed.

(** X4.  A text that [prepare_cypher] returns is the cleaned query; its
    upper-case form contains no forbidden keyword, and every procedure it
    calls starts, in lower case, with an allowed prefix, whether or not the
    call is written with a blank after [CALL] in the query. *)
Theorem prepare_cypher_sound (order : list str) (cypher prepared : str) :
  Permutation order FORBIDDEN_KEYWORDS ->
  prepare_cypher order cypher = Ok prepared ->
  prepared = clean cypher
  /\ Forall (fun kw => contains kw (upper prepared) = false) FORBIDDEN_KEYWORDS
  /\ Forall (fun call => existsb (fun prefix => startswith prefix (lower call))
                                 ALLOWED_PROCEDURES = true)
            (findall call_pattern prepared).
Proof.
  intros P H. destruct (prepare_cypher_no_keyword _ _ _ P H) as [E K].
  split; [exact E|]. split; [exact K|].
  destruct (prepare_cypher_Ok _ _ _ H) as (_ & -> & A).
  unfold assert_read_only in A.
  destruct (first_bad _ order); [discriminate|].
  destruct (contains (py "CALL ") (upper (clean cypher))) eqn:C.
  - unfold _validate_procedure_calls in A.
    destruct (first_bad _ (findall _ _)) eqn:F'; [discriminate|].
    apply first_bad_None in F'. eapply List.Forall_impl; [|exact F'].
    cbv beta. intros call Hc. now apply negb_false_iff in Hc.
  - apply List.Forall_forall. intros call Hc.
    apply call_has_blank in Hc; [congruence | apply clean_kept].
Qed.

Lemma prepare_cypher_sound_witness :
  let q := py "CALL   db.labels() YIELD label RETURN label" in
  Forall (fun kw => contains kw (upper (clean q)) = false) FORBIDDEN_KEYWORDS
  /\ Forall (fun call => existsb (fun prefix => startswith prefix (lower call))
                                 ALLOWED_PROCEDURES = true)
            (findall call_pattern (clean q)).
Proof.
  apply (prepare_cypher_sound FORBIDDEN_KEYWORDS
           (py "CALL   db.labels() YIELD label RETURN label")
           (clean (py "CALL   db.labels() YIELD label RETURN label")));
    [apply Permutation_refl | vm_compute; reflexivity].
Defined.
End CleanedText.

(** ** Labels, relationship types and the full validation *)
Section RelationshipTypes.
Import PyStr Re Aux validators.

Lemma label_shape (s name : str) (len : nat) :
  label_pattern s = Some (name, len) ->
  exists c rest,
    s = ":"%char :: c :: rest /\ is_alpha c = true
    /\ name = c :: fst (span is_ident_char rest) /\ len = S (length name).
Proof.
  unfold label_pattern. destruct s as [|x [|c rest]]; try discriminate.
  - destruct x as [[] [] [] [] [] [] [] []]; discriminate.
  - destruct (Ascii.eqb_spec x ":"%char) as [-> | Hx].
    + destruct (is_alpha c) eqn:E; [|discriminate].
      intros [= <- <-]. now exists c, rest.
    + destruct x as [[] [] [] [] [] [] [] []]; try discriminate. now elim Hx.
Qed.

Lemma is_alpha_ident (c : ascii) : is_alpha c = true -> is_ident_char c = true.
Proof. unfold is_ident_char. now intros ->. Qed.

Lemma colon_starts_label (a rest : str) (c : ascii) (k : nat) :
  is_alpha c = true ->
  Forall (fun x => is_ident_char x = true) (firstn k (a ++ ":"%char :: c :: rest)) ->
  In (c :: fst (span is_ident_char rest))
     (findall_from label_pattern k (a ++ ":"%char :: c :: rest)).
Proof.
  intros Hc. revert k; induction a as [|x a IH]; intros k Hk.
  - destruct k as [|k]; [|cbn [app firstn] in Hk; inversion Hk; discriminate].
    cbn [app findall_from label_pattern]. rewrite Hc. now left.
  - cbn [app findall_from]. destruct k as [|k].
    + destruct (label_pattern (x :: a ++ ":"%char :: c :: rest))
        as [[name len]|] eqn:E.
      * right. destruct (label_shape _ _ _ E) as (c0 & r0 & Hs & Hc0 & Hn & ->).
        injection Hs as -> Hs. apply IH. cbn [Nat.pred]. rewrite Hs, Hn.
        destruct (span_split is_ident_char r0) as (Hr & Hf). rewrite Hr at 2.
        change (c0 :: ?u ++ ?v) with ((c0 :: u) ++ v).
        rewrite firstn_app, Nat.sub_diag, firstn_all. cbn [firstn]. rewrite app_nil_r.
        constructor; [now apply is_alpha_ident | exact Hf].
      * apply IH. constructor.
    + apply IH. cbn [app firstn] in Hk. now inversion Hk.
Qed.

Lemma rel_shape (t rel : str) (len : nat) :
  rel_pattern t = Some (rel, len) ->
  exists c tl after,
    t = "["%char :: ":"%char :: c :: tl ++ "]"%char :: after
    /\ rel = c :: tl
    /\ Forall (fun x => is_ident_char x = true) tl.
Proof.
  unfold rel_pattern. destruct t as [|x [|y [|c rest]]]; try discriminate.
  - destruct x as [[] [] [] [] [] [] [] []]; discriminate.
  - destruct x as [[] [] [] [] [] [] [] []]; try discriminate;
      destruct y as [[] [] [] [] [] [] [] []]; discriminate.
  - destruct (Ascii.eqb_spec x "["%char) as [-> | Hx];
      [|destruct x as [[] [] [] [] [] [] [] []]; try discriminate; now elim Hx].
    destruct (Ascii.eqb_spec y ":"%char) as [-> | Hy];
      [|destruct y as [[] [] [] [] [] [] [] []]; try discriminate; now elim Hy].
    destruct (is_alpha c || (code c =? 95)%N); [|discriminate].
    destruct (span_split is_ident_char rest) as [Hr Hf].
    destruct (span is_ident_char rest) as [tl after] eqn:S. cbn [fst snd] in Hr, Hf.
    destruct after as [|z after]; [discriminate|].
    destruct (Ascii.eqb_spec z "]"%char) as [-> | Hz];
      [|destruct z as [[] [] [] [] [] [] [] []]; try discriminate; now elim Hz].
    intros [= <- _]. exists c, tl, after. now rewrite Hr.
Qed.

(** A relationship type that starts with a letter is also what the label
    scan finds after its colon. *)
Lemma relationship_is_label (cypher rel : str) :
  In rel (findall rel_pattern cypher) ->
  match rel with c :: _ => is_alpha c = true | [] => False end ->
  In rel (findall label_pattern cypher).
Proof.
  intros H Hc. apply findall_In in H as (pre & t & len & -> & Hm).
  apply rel_shape in Hm as (c & tl & after & -> & -> & Hf).
  change (pre ++ "["%char :: ":"%char :: c :: tl ++ "]"%char :: after)
    with (pre ++ ["["%char] ++ ":"%char :: c :: tl ++ "]"%char :: after).
  rewrite app_assoc.
  replace tl with (fst (span is_ident_char (tl ++ "]"%char :: after))) at 1
    by (rewrite span_exact; [reflexivity | exact Hf | reflexivity]).
  apply colon_starts_label; [exact Hc | constructor].
Qed.

Lemma validate_labels_Ok (cypher : str) :
  validate_labels cypher = Ok tt ->
  Forall (fun label => In label VALID_LABELS) (findall label_pattern cypher).
Proof.
  unfold validate_labels. destruct (first_bad _ _) eqn:F; [discriminate|]. intros _.
  apply first_bad_None in F. eapply List.Forall_impl; [|exact F].
  cbv beta. intros l Hl. apply negb_false_iff in Hl. now apply mem_true.
Qed.

Lemma validate_relationships_Ok (cypher : str) :
  validate_relationships cypher = Ok tt
  <-> Forall (fun rel => In rel VALID_RELATIONSHIPS) (findall rel_pattern cypher).
Proof.
  unfold validate_relationships. split.
  - destruct (first_bad _ _) eqn:F; [discriminate|]. intros _.
    apply first_bad_None in F. eapply List.Forall_impl; [|exact F].
    cbv beta. intros l Hl. apply negb_false_iff in Hl. now apply mem_true.
  - intros H. replace (first_bad _ _) with (@None str); [reflexivity|].
    symmetry. apply first_bad_None. eapply List.Forall_impl; [|exact H].
    intros l Hl. apply mem_true in Hl. now rewrite Hl.
Qed.

Lemma valid_relationship_shape (rel : str) :
  In rel VALID_RELATIONSHIPS ->
  exists c tl, rel = c :: tl /\ is_alpha c = true
               /\ Forall (fun x => is_ident_char x = true) tl
               /\ ~ In rel VALID_LABELS.
Proof.
  intros H. cbn in H.
  repeat (destruct H as [<- | H];
          [eexists _, _; split; [reflexivity|]; split; [reflexivity|]; split;
           [repeat (constructor; [reflexivity|]); constructor
           | cbn; intros F; repeat (destruct F as [F | F]; [discriminate|]);
             contradiction]|]).
  contradiction.
Qed.

(** C2.  The packaged [validate_full] does not accept the canonical queries
    that the claim is about.  Whenever the cleaned text of a query of ASCII
    characters holds a relationship pattern [[:TYPE]] with a valid
    relationship type, [validate_full] does not return: the label scan reads
    the type as a node label.  The query of the repository's own test of
    valid labels, whose labels and relationship types are all canonical, is
    rejected with [label_validation] for [WORK_AUTHORED_BY], while the
    relationship check alone accepts it and the notebook-era gateway returns
    it.  The allowed procedure [db.relationshipTypes] is rejected as well:
    the lower-cased call is compared with the mixed-case entry. *)
Theorem validate_full_rejects_canonical_relationships :
  (forall order cypher a b rel prepared,
      ascii_only cypher = true ->
      In rel VALID_RELATIONSHIPS ->
      clean cypher = a ++ py "[:" ++ rel ++ py "]" ++ b ->
      validate_full order cypher <> Ok prepared)
  /\ (let q := py "MATCH (a:Author)-[:WORK_AUTHORED_BY]->(w:Work)-[:WORK_HAS_TOPIC]->(t:Topic) RETURN a, w, t" in
      clean q = q
      /\ findall rel_pattern q = [py "WORK_AUTHORED_BY"; py "WORK_HAS_TOPIC"]
      /\ validate_relationships q = Ok tt
      /\ validate_labels q = Raise (error (py "label_validation") (py "WORK_AUTHORED_BY"))
      /\ (forall order, Permutation order FORBIDDEN_KEYWORDS ->
            validate_full order q
            = Raise (error (py "label_validation") (py "WORK_AUTHORED_BY")))
      /\ (forall order', Permutation order' research_query_agent.FORBIDDEN_KEYWORDS ->
            research_query_agent.prepare_cypher order' q = Ok q))
  /\ (In (py "db.relationshipTypes") ALLOWED_PROCEDURES
      /\ forall order, Permutation order FORBIDDEN_KEYWORDS ->
           prepare_cypher order
             (py "CALL db.relationshipTypes() YIELD relationshipType RETURN relationshipType")
           = Raise (error (py "procedure_validation") (py "db.relationshipTypes"))).
Proof.
  split; [|split].
  - intros order cypher a b rel prepared _ Hr Hc H.
    rewrite validate_full_unfold in H.
    destruct (prepare_cypher order cypher) as [p|e] eqn:E; [|discriminate].
    cbn [mbind pyresult_bind] in H.
    destruct (validate_query_structure p) as [[]|e]; [|discriminate].
    destruct (validate_properties p) as [[]|e]; [|discriminate].
    destruct (validate_labels p) as [[]|e] eqn:L; [|discriminate].
    apply validate_labels_Ok in L.
    destruct (prepare_cypher_Ok _ _ _ E) as (_ & -> & _).
    destruct (valid_relationship_shape rel Hr) as (c & tl & -> & Hc0 & Hf & Hn).
    apply Hn. rewrite List.Forall_forall in L. apply L. rewrite Hc.
    assert (Hin : In (c :: fst (span is_ident_char (tl ++ "]"%char :: b)))
                     (findall_from label_pattern 0
                        ((a ++ ["["%char]) ++ ":"%char :: c :: tl ++ "]"%char :: b)))
      by (apply colon_starts_label; [exact Hc0 | constructor]).
    rewrite span_exact in Hin; [|exact Hf|reflexivity]. cbn [fst] in Hin.
    rewrite <- app_assoc in Hin. exact Hin.
  - cbv zeta. repeat split; try (vm_compute; reflexivity).
    + intros order P. rewrite (validate_full_unfold order).
      rewrite (prepare_cypher_miss order _ P);
        [vm_compute; reflexivity | vm_compute; reflexivity |].
      repeat (constructor; [vm_compute; reflexivity|]). constructor.
    + intros order' P. apply notebook_prepare_accepts; [exact P | |].
      * repeat (constructor; [vm_compute; reflexivity|]). constructor.
      * vm_compute. repeat constructor; (left + right); simpl; tauto.
  - split; [cbn; tauto|]. intros order P.
    rewrite (prepare_cypher_miss order _ P);
      [vm_compute; reflexivity | vm_compute; reflexivity |].
    repeat (constructor; [vm_compute; reflexivity|]). constructor.
Qed.

Lemma validate_full_rejects_canonical_relationships_witness :
  let q := py "MATCH (a:Author)-[:WORK_AUTHORED_BY]->(w:Work) RETURN a.name" in
  validate_full FORBIDDEN_KEYWORDS q <> Ok q
  /\ validate_full FORBIDDEN_KEYWORDS q
     = Raise (error (py "label_validation") (py "WORK_AUTHORED_BY")).
Proof.
  intros q. split; [|vm_compute; reflexivity].
  apply (proj1 validate_full_rejects_canonical_relationships FORBIDDEN_KEYWORDS q
               (py "MATCH (a:Author)-") (py "->(w:Work) RETURN a.name")
               (py "WORK_AUTHORED_BY") q);
    [vm_compute; reflexivity | cbn; tauto | vm_compute; reflexivity].
Defined.

(** X5.  A query that [validate_full] accepts has no relationship pattern
    at all: the label scan also reads the type of a pattern [[:TYPE]] as a
    label, and no relationship type is a valid label.  Every label of an
    accepted query is valid. *)
Theorem validate_full_accepts_no_relationship (order : list str) (cypher prepared : str) :
  validate_full order cypher = Ok prepared ->
  findall rel_pattern prepared = []
  /\ Forall (fun label => In label VALID_LABELS) (findall label_pattern prepared).
Proof.
  rewrite validate_full_unfold.
  destruct (prepare_cypher order cypher) as [p|e]; [|discriminate].
  cbn [mbind pyresult_bind].
  destruct (validate_query_structure p) as [[]|e]; [|discriminate].
  destruct (validate_properties p) as [[]|e]; [|discriminate].
  destruct (validate_labels p) as [[]|e] eqn:L; [|discriminate].
  destruct (validate_relationships p) as [[]|e] eqn:R; [|discriminate].
  cbn [mbind pyresult_bind]. intros [= <-].
  apply validate_labels_Ok in L. apply validate_relationships_Ok in R.
  split; [|exact L].
  destruct (findall rel_pattern p) as [|rel rels] eqn:F; [reflexivity|].
  exfalso. inversion R as [|? ? Hr _]; subst.
  assert (Hl : In rel (findall label_pattern p)).
  { apply relationship_is_label; [rewrite F; now left|].
    cbn in Hr. repeat (destruct Hr as [<- | Hr]; [reflexivity|]). contradiction. }
  rewrite List.Forall_forall in L. apply L in Hl.
  cbn in Hr, Hl.
  repeat (destruct Hr as [<- | Hr];
          [repeat (destruct Hl as [Hl | Hl]; [discriminate|]); contradiction|]).
  contradiction.
Qed.

Lemma validate_full_accepts_no_relationship_witness :
  let q := py "MATCH (a:Author) WHERE a.name = 'John Doe' RETURN a.name" in
  findall rel_pattern q = []
  /\ Forall (fun label => In label VALID_LABELS) (findall label_pattern q).
Proof.
  apply (validate_full_accepts_no_relationship FORBIDDEN_KEYWORDS
           (py "MATCH (a:Author) WHERE a.name = 'John Doe' RETURN a.name")
           (py "MATCH (a:Author) WHERE a.name = 'John Doe' RETURN a.name")).
  vm_compute; reflexivity.
Defined.

Lemma enhanced_relationships_Ok (cypher : str) :
  validate_enhanced_relationships cypher = Ok tt
  <-> Forall (fun rel => In rel ENHANCED_RELATIONSHIPS) (findall rel_pattern cypher).
Proof.
  assert (E : forall rel,
             negb (mem rel ENHANCED_RELATIONSHIPS) && negb (mem rel inference_patterns)
             = false <-> In rel ENHANCED_RELATIONSHIPS).
  { intros rel. rewrite <- mem_true. split.
    - intros H. apply andb_false_iff in H as [H | H]; [now apply negb_false_iff in H|].
      apply negb_false_iff, mem_true in H. apply mem_true. cbn in H |- *.
      repeat (destruct H as [<- | H]; [tauto|]). contradiction.
    - now intros ->. }
  unfold validate_enhanced_relationships. split.
  - destruct (first_bad _ _) eqn:F; [discriminate|]. intros _.
    apply first_bad_None in F. eapply List.Forall_impl; [|exact F].
    intros rel. apply E.
  - intros H. replace (first_bad _ _) with (@None str); [reflexivity|].
    symmetry. apply first_bad_None. eapply List.Forall_impl; [|exact H].
    intros rel. apply E.
Qed.

(** X6.  [validate_enhanced_relationships] accepts a query exactly when
    every relationship type in it is one of [ENHANCED_RELATIONSHIPS]: the
    list of inference patterns adds nothing to that set.  It accepts
    whatever [validate_relationships] accepts. *)
Theorem validate_enhanced_relationships_accepts (cypher : str) :
  (validate_enhanced_relationships cypher = Ok tt
   <-> Forall (fun rel => In rel ENHANCED_RELATIONSHIPS) (findall rel_pattern cypher))
  /\ (validate_relationships cypher = Ok tt ->
      validate_enhanced_relationships cypher = Ok tt).
Proof.
  split; [apply enhanced_relationships_Ok|]. intros H.
  apply enhanced_relationships_Ok. apply validate_relationships_Ok in H.
  eapply List.Forall_impl; [|exact H]. intros rel Hr. unfold ENHANCED_RELATIONSHIPS.
  apply in_or_app. now left.
Qed.

Lemma validate_enhanced_relationships_accepts_witness :
  validate_enhanced_relationships
    (py "MATCH (a:Author)-[:WORK_AUTHORED_BY]->(w:Work)-[:SIMILAR_TO]-(v:Work) RETURN a")
  = Ok tt.
Proof.
  apply (proj2 (proj1 (validate_enhanced_relationships_accepts
    (py "MATCH (a:Author)-[:WORK_AUTHORED_BY]->(w:Work)-[:SIMILAR_TO]-(v:Work) RETURN a")))).
  vm_compute. repeat constructor; tauto.
Defined.
End RelationshipTypes.

(** ** Replacing every match of a pattern *)
Section Rewriting.
Import PyStr Re Aux.

Context {G : Type} (t : ascii).

Lemma run_cons (c : ascii) (s : str) :
  run t (c :: s) = if eqc c t then [] else c :: run t s.
Proof.
  unfold run. cbn [span]. destruct (eqc c t); [reflexivity|]. cbn [negb].
  now destruct (span _ s).
Qed.

Lemma run_free (s : str) : Forall (fun c => eqc c t = false) (run t s).
Proof.
  unfold run. destruct (span_split (fun c => negb (eqc c t)) s) as [_ H].
  eapply List.Forall_impl; [|exact H]. intros c Hc. now apply negb_true_iff.
Qed.

Lemma run_firstn (s : str) (k : nat) :
  k <= length (run t s) -> Forall (fun c => eqc c t = false) (firstn k s).
Proof.
  revert k; induction s as [|c s IH]; intros k; [now rewrite firstn_nil|].
  rewrite run_cons. destruct k as [|k]; [constructor|].
  destruct (eqc c t) eqn:E; cbn [length firstn]; [lia|].
  intros H. constructor; [exact E | apply IH; lia].
Qed.

Lemma startswith_run (p s : str) :
  Forall (fun c => eqc c t = false) p ->
  startswith p s = startswith p (run t s).
Proof.
  intros Hp. revert s; induction Hp as [|x p Hx Hp IH]; intros s; [reflexivity|].
  destruct s as [|c s]; [reflexivity|]. rewrite run_cons.
  destruct (eqc c t) eqn:E.
  - apply eqc_true in E. subst c. cbn [startswith]. now rewrite Hx.
  - cbn [startswith]. now rewrite <- IH.
Qed.

Variables (m : matcher G) (repl : G -> str).
Hypothesis m_local : local_at t m.
Hypothesis repl_starts : forall g, exists r, repl g = t :: r.

Lemma no_match_elsewhere (c : ascii) (s : str) :
  eqc c t = false -> m (c :: s) = None.
Proof.
  intros E. destruct (m (c :: s)) eqn:M; [|reflexivity].
  destruct m_local as [H _]. apply H in M as [x [= -> _]].
  unfold eqc in E. now rewrite Ascii.eqb_refl in E.
Qed.

Lemma no_match_nil : m [] = None.
Proof.
  destruct (m []) eqn:M; [|reflexivity].
  destruct m_local as [H _]. now apply H in M as [x [=]].
Qed.

(** The text before the first [t] is copied. *)
Lemma sub_run (s : str) : run t (sub m repl s) = run t s.
Proof.
  unfold sub. induction s as [|c s IH]; [reflexivity|].
  cbn [sub_from]. destruct (eqc c t) eqn:E.
  - rewrite (run_cons c s), E. destruct (m (c :: s)) as [[g len]|].
    + destruct (repl_starts g) as [r ->]. cbn [app]. rewrite run_cons.
      unfold eqc. now rewrite Ascii.eqb_refl.
    + now rewrite run_cons, E.
  - rewrite (no_match_elsewhere _ _ E), !run_cons, E. now rewrite IH.
Qed.

Lemma sub_no_match (s : str) : search m s = false -> sub m repl s = s.
Proof.
  unfold sub. induction s as [|c s IH]; [reflexivity|].
  cbn [search sub_from]. destruct (m (c :: s)); [discriminate|].
  intros H. now rewrite IH.
Qed.

Lemma search_app_free (m' : matcher G) (r s : str) :
  (forall s g, m' s = Some g -> exists x, s = t :: x) ->
  Forall (fun c => eqc c t = false) r ->
  search m' (r ++ s) = search m' s.
Proof.
  intros Hs Hr. induction Hr as [|c r Hc Hr IH]; [reflexivity|].
  cbn [app search]. destruct (m' (c :: r ++ s)) eqn:M; [|exact IH].
  apply Hs in M as [x [= -> _]]. unfold eqc in Hc. now rewrite Ascii.eqb_refl in Hc.
Qed.
End Rewriting.

Section RewritingTwo.
Import PyStr Re Aux.
Context {G : Type} (t : ascii).
Variables (m m' : matcher G) (good : str).
Hypothesis m_local : local_at t m.
Hypothesis m'_local : local_at t m'.
Hypothesis good_free : Forall (fun c => eqc c t = false) good.
(** [m'] does not match the replacement. *)
Hypothesis good_quiet : forall y, m' (t :: good ++ y) = None.

(** Where [m] is replaced, no match of [m'] appears that was not there. *)
Lemma sub_quiet (s : str) (k : nat) :
  m' = m \/ search m' s = false ->
  search m' (sub_from m (fun _ => t :: good) k s) = false.
Proof.
  revert k; induction s as [|c s IH]; intros k H.
  - cbn [sub_from search]. now rewrite (no_match_nil t m' m'_local).
  - assert (H' : m' = m \/ search m' s = false).
    { destruct H as [H | H]; [now left | right]. cbn [search] in H.
      now destruct (m' (c :: s)). }
    cbn [sub_from]. destruct k as [|k]; [|now apply IH].
    destruct (m (c :: s)) as [[g len]|] eqn:M.
    + cbn [app search]. rewrite good_quiet.
      rewrite (search_app_free t); [now apply IH | apply m'_local | exact good_free].
    + cbn [search]. rewrite (IH 0 H').
      destruct (eqc c t) eqn:E.
      * apply eqc_true in E. subst c.
        destruct m'_local as (_ & L & _). rewrite L.
        change (sub_from m (fun _ => t :: good) 0 s)
          with (sub m (fun _ => t :: good) s).
        rewrite (sub_run t m _ m_local); [|intros _; now exists good].
        rewrite <- L. destruct H as [-> | H]; [now rewrite M|].
        cbn [search] in H. now destruct (m' (t :: s)).
      * now rewrite (no_match_elsewhere t m' m'_local).
Qed.
End RewritingTwo.

Section RewritingKeeps.
Import PyStr Re Aux.
Context {G : Type} (t : ascii).
Variables (m : matcher G) (good needle : str).
Hypothesis m_local : local_at t m.
Hypothesis needle_free : Forall (fun c => eqc c t = false) needle.
(** [m] does not match where [t :: needle] starts. *)
Hypothesis needle_quiet : forall y, m (t :: needle ++ y) = None.

(** An occurrence of [t :: needle] stays when the matches of [m] are
    replaced. *)
Lemma sub_keeps (s : str) (k : nat) :
  Forall (fun c => eqc c t = false) (firstn k s) ->
  contains (t :: needle) s = true ->
  contains (t :: needle) (sub_from m (fun _ => t :: good) k s) = true.
Proof.
  revert k; induction s as [|c s IH]; intros k Hk H; [discriminate|].
  cbn [contains] in H. cbn [sub_from]. destruct k as [|k].
  - destruct (m (c :: s)) as [[g len]|] eqn:M.
    + assert (Hc : c = t).
      { destruct m_local as [Hs _]. now apply Hs in M as [x [= -> _]]. }
      subst c. apply orb_prop in H as [H | H].
      * cbn [startswith] in H. apply andb_prop in H as [_ H].
        apply startswith_app in H as [y ->]. now rewrite needle_quiet in M.
      * apply contains_app. destruct m_local as (_ & _ & Hl).
        apply Hl in M. apply (IH (Nat.pred len)) in H; [|apply run_firstn; lia].
        apply contains_app in H as (a & b & ->).
        exists (t :: good ++ a), b. cbn [app]. now rewrite <- app_assoc.
    + apply orb_prop in H as [H | H].
      * cbn [contains]. apply orb_true_intro. left.
        cbn [startswith] in H |- *. apply andb_prop in H as [H1 H2]. rewrite H1.
        cbn [andb]. rewrite (startswith_run t) in H2 |- *; try exact needle_free.
        change (sub_from m (fun _ => t :: good) 0 s)
          with (sub m (fun _ => t :: good) s).
        rewrite (sub_run t m _ m_local); [exact H2 | intros _; now exists good].
      * cbn [contains]. rewrite (IH 0); [apply orb_true_r | constructor | exact H].
  - cbn [firstn] in Hk. inversion Hk as [|? ? Hc Hk']; subst.
    apply orb_prop in H as [H | H].
    + cbn [startswith] in H. apply andb_prop in H as [H _]. apply eqc_true in H.
      subst c. unfold eqc in Hc. now rewrite Ascii.eqb_refl in Hc.
    + now apply IH.
Qed.

(** The replacement is there when something was replaced. *)
Lemma sub_inserts (s : str) (k : nat) :
  search m (skipn k s) = true ->
  contains (t :: good) (sub_from m (fun _ => t :: good) k s) = true.
Proof.
  revert k; induction s as [|c s IH]; intros k H.
  - rewrite skipn_nil in H. cbn [search] in H.
    now rewrite (no_match_nil t m m_local) in H.
  - cbn [sub_from]. destruct k as [|k]; [|now apply IH].
    cbn [skipn search] in H. destruct (m (c :: s)) as [[g len]|] eqn:M.
    + apply contains_app. exists [], (sub_from m (fun _ => t :: good) (Nat.pred len) s).
      reflexivity.
    + cbn [contains]. rewrite (IH 0 H). apply orb_true_r.
Qed.
End RewritingKeeps.

Section RewritingMatch.
Import PyStr Re Aux.
Context {G : Type} (t : ascii).
Variables (m m' : matcher G) (good : str).
Hypothesis m_local : local_at t m.
Hypothesis m'_local : local_at t m'.
(** [m] and [m'] never match at the same place. *)
Hypothesis exclusive : forall x g, m (t :: x) = Some g -> m' (t :: x) = None.

Lemma search_suffix (r s : str) : search m' s = true -> search m' (r ++ s) = true.
Proof.
  intros H. induction r as [|c r IH]; [exact H|].
  cbn [app search]. rewrite IH. now destruct (m' _).
Qed.

(** A match of [m'] stays when the matches of [m] are replaced. *)
Lemma sub_keeps_match (s : str) (k : nat) :
  Forall (fun c => eqc c t = false) (firstn k s) ->
  search m' s = true ->
  search m' (sub_from m (fun _ => t :: good) k s) = true.
Proof.
  revert k; induction s as [|c s IH]; intros k Hk H.
  - cbn [search] in H. now rewrite (no_match_nil t m' m'_local) in H.
  - cbn [search] in H. cbn [sub_from]. destruct k as [|k].
    + destruct (m (c :: s)) as [[g len]|] eqn:M.
      * assert (Hc : c = t).
        { destruct m_local as [Hs _]. now apply Hs in M as [x [= -> _]]. }
        subst c. rewrite (exclusive _ _ M) in H.
        destruct m_local as (_ & _ & Hl). apply Hl in M.
        apply (search_suffix (t :: good)). apply IH; [apply run_firstn; lia | exact H].
      * cbn [search]. destruct (m' (c :: s)) eqn:M'.
        { assert (Hc : c = t).
          { destruct m'_local as [Hs _]. now apply Hs in M' as [x [= -> _]]. }
          subst c. destruct m'_local as (_ & L & _). rewrite L.
          change (sub_from m (fun _ => t :: good) 0 s)
            with (sub m (fun _ => t :: good) s).
          rewrite (sub_run t m _ m_local); [|intros _; now exists good].
          rewrite <- L. now rewrite M'. }
        { rewrite (IH 0 (List.Forall_nil _) H).
          destruct (m' (c :: sub_from m (fun _ => t :: good) 0 s)); reflexivity. }
    + cbn [firstn] in Hk. inversion Hk as [|? ? Hc Hk']; subst.
      rewrite (no_match_elsewhere t m' m'_local _ _ Hc) in H. now apply IH.
Qed.
End RewritingMatch.

(** ** A table of aliases applied in turn *)
Section AliasTable.
Import PyStr Re Aux.
Variables (t : ascii) (mk : str -> matcher unit).

Lemma rewrite_all_quiet (l : list (str * str)) (s bad : str) :
  local_at t (mk bad) ->
  (forall b g, In (b, g) l ->
     local_at t (mk b) /\ Forall (fun c => eqc c t = false) g
     /\ forall y, mk bad (t :: g ++ y) = None) ->
  In bad (map fst l) \/ search (mk bad) s = false ->
  search (mk bad) (rewrite_all t mk l s) = false.
Proof.
  intros Hbad. unfold rewrite_all. revert s; induction l as [|[b g] l IH]; intros s Hl H.
  - destruct H as [[] | H]. exact H.
  - cbn [fold_left]. destruct (Hl b g (or_introl eq_refl)) as (Lb & Fg & Q).
    apply IH; [intros b' g' Hin; apply Hl; now right|].
    destruct (search (mk bad) (sub (mk b) (fun _ => t :: g) s)) eqn:E; [|now right].
    left. destruct H as [[<- | H] | H]; [| exact H |].
    + cbn [fst] in E. unfold sub in E.
      rewrite (sub_quiet t (mk b) (mk b) g Lb Lb Fg Q) in E; [discriminate | now left].
    + unfold sub in E.
      rewrite (sub_quiet t (mk b) (mk bad) g Lb Hbad Fg Q) in E; [discriminate | now right].
Qed.

Lemma rewrite_all_fixed (l : list (str * str)) (s : str) :
  (forall b g, In (b, g) l -> search (mk b) s = false) ->
  rewrite_all t mk l s = s.
Proof.
  unfold rewrite_all. induction l as [|[b g] l IH]; intros H; [reflexivity|].
  cbn [fold_left]. rewrite sub_no_match; [|apply (H b g); now left].
  apply IH. intros b' g' Hin. apply (H b' g'). now right.
Qed.

Lemma rewrite_all_inserts (l : list (str * str)) (s bad good : str) :
  local_at t (mk bad) ->
  Forall (fun c => eqc c t = false) good ->
  (forall b g, In (b, g) l ->
     local_at t (mk b)
     /\ (forall y, mk b (t :: good ++ y) = None)
     /\ (g = good \/ forall x u, mk b (t :: x) = Some u -> mk bad (t :: x) = None)) ->
  (In (bad, good) l /\ search (mk bad) s = true) \/ contains (t :: good) s = true ->
  contains (t :: good) (rewrite_all t mk l s) = true.
Proof.
  intros Hbad Fgood. unfold rewrite_all.
  revert s; induction l as [|[b g] l IH]; intros s Hl H.
  - destruct H as [[[] _] | H]. exact H.
  - cbn [fold_left]. destruct (Hl b g (or_introl eq_refl)) as (Lb & Q & D).
    apply IH; [intros b' g' Hin; apply Hl; now right|].
    destruct H as [[Hin H] | H].
    + destruct (search (mk b) s) eqn:S.
      * destruct D as [-> | D].
        { right. apply (sub_inserts t (mk b) good Lb s 0). exact S. }
        { destruct Hin as [[= -> ->] | Hin].
          - right. apply (sub_inserts t (mk bad) good Lb s 0). exact S.
          - left. split; [exact Hin|].
            apply (sub_keeps_match t (mk b) (mk bad) g Lb Hbad D s 0);
              [constructor | exact H]. }
      * rewrite sub_no_match by exact S. destruct Hin as [[= -> ->] | Hin].
        { congruence. }
        { left. now split. }
    + right. apply (sub_keeps t (mk b) g good Lb Fgood Q s 0); [constructor | exact H].
Qed.
End AliasTable.

(** ** The normalizers of the notebook-era validator *)
Section Normalizers.
Import PyStr Re Aux research_query_agent.

Lemma startswith_length (p s : str) : startswith p s = true -> length p <= length s.
Proof.
  intros H. apply startswith_app in H as [u ->]. rewrite length_app. lia.
Qed.

Lemma dot_name_tail (n : nat) (bad x : str) :
  Forall (fun c => eqc c "." = false) bad ->
  (if startswith bad x
   then match skipn (length bad) x with
        | [] => Some (tt, n)
        | c :: _ => if is_word c then None else Some (tt, n)
        end
   else None)
  = (if startswith bad (run "." x)
     then match skipn (length bad) (run "." x) with
          | [] => Some (tt, n)
          | c :: _ => if is_word c then None else Some (tt, n)
          end
     else None).
Proof.
  intros Hb. revert x; induction Hb as [|b bad Hb _ IH]; intros x.
  - cbn [startswith length skipn]. destruct x as [|c x]; [reflexivity|].
    rewrite run_cons. destruct (eqc c ".") eqn:E; [|reflexivity].
    apply eqc_true in E. now subst c.
  - destruct x as [|c x]; [reflexivity|].
    rewrite run_cons. destruct (eqc c ".") eqn:E.
    + apply eqc_true in E. subst c. cbn [startswith]. now rewrite Hb.
    + cbn [startswith length skipn]. destruct (eqc b c); [apply IH | reflexivity].
Qed.

Lemma dot_name_local (bad : str) :
  Forall (fun c => eqc c "." = false) bad -> local_at "." (dot_name bad).
Proof.
  intros Hb. repeat split.
  - intros s g. unfold dot_name. destruct s as [|c s]; [discriminate|].
    destruct (Ascii.eqb_spec c "."%char) as [-> | Hc]; [now exists s|].
    destruct c as [[] [] [] [] [] [] [] []]; try discriminate. now elim Hc.
  - intros x. cbn [dot_name]. apply dot_name_tail. exact Hb.
  - intros x g len. cbn [dot_name].
    rewrite (startswith_run "." bad x Hb).
    destruct (startswith bad (run "." x)) eqn:S; [|discriminate].
    apply startswith_length in S.
    destruct (skipn _ x) as [|c r]; [|destruct (is_word c); [discriminate|]];
      intros [= <-]; cbn; lia.
Qed.

Lemma literal_local (bad : str) :
  Forall (fun c => eqc c ":" = false) bad -> local_at ":" (literal (":"%char :: bad)).
Proof.
  intros Hb. unfold literal. repeat split.
  - intros s g. destruct s as [|c s]; [discriminate|]. cbn [startswith].
    destruct (eqc ":" c) eqn:E; [|discriminate]. apply eqc_true in E. subst c.
    now exists s.
  - intros x. cbn [startswith]. now rewrite (startswith_run ":" bad x Hb).
  - intros x g len. cbn [startswith]. rewrite (startswith_run ":" bad x Hb).
    unfold eqc. rewrite Ascii.eqb_refl. cbn [andb].
    destruct (startswith bad (run ":" x)) eqn:S; [|discriminate].
    apply startswith_length in S. intros [= <-]. cbn [length]. lia.
Qed.

Lemma search_literal (old s : str) : search (literal old) s = contains old s.
Proof.
  induction s as [|c s IH]; cbn [search contains]; unfold literal at 1.
  - destruct (startswith old []); reflexivity.
  - destruct (startswith old (c :: s)); [reflexivity | exact IH].
Qed.

Lemma normalize_properties_table (cypher : str) :
  normalize_properties cypher = rewrite_all "." dot_name PROPERTY_ALIASES cypher.
Proof. reflexivity. Qed.

Lemma normalize_relationships_table (cypher : str) :
  normalize_relationships cypher
  = rewrite_all ":" (fun bad => literal (":"%char :: bad)) RELATIONSHIP_CANONICAL cypher.
Proof. reflexivity. Qed.

Lemma property_alias_shape (bad good : str) :
  In (bad, good) PROPERTY_ALIASES ->
  good = py "publication_date"
  /\ Forall (fun c => eqc c "." = false) bad
  /\ forall y, startswith bad (py "publication_date" ++ y) = false.
Proof.
  intros H. cbn in H.
  repeat (destruct H as [[= <- <-] | H];
          [split; [reflexivity|]; split;
           [repeat (constructor; [reflexivity|]); constructor
           | intros y; vm_compute; reflexivity]|]).
  contradiction.
Qed.

Lemma property_alias_quiet (bad good good' y : str) :
  In (bad, good) PROPERTY_ALIASES -> good' = py "publication_date" ->
  dot_name bad ("."%char :: good' ++ y) = None.
Proof.
  intros H ->. apply property_alias_shape in H as (_ & _ & H).
  cbn [dot_name]. now rewrite H.
Qed.

(** X7.  On a query of ASCII characters: after [normalize_properties] no
    alias of [PROPERTY_ALIASES] is left as a property name, that is, none of
    the three patterns matches anywhere in the result, and normalizing a
    second time changes nothing. *)
Theorem normalize_properties_removes_aliases (cypher : str) :
  ascii_only cypher = true ->
  (forall bad good, In (bad, good) PROPERTY_ALIASES ->
     search (dot_name bad) (normalize_properties cypher) = false)
  /\ normalize_properties (normalize_properties cypher) = normalize_properties cypher.
Proof.
  intros _.
  assert (Q : forall bad good, In (bad, good) PROPERTY_ALIASES ->
                search (dot_name bad) (normalize_properties cypher) = false).
  { intros bad good H. rewrite normalize_properties_table.
    apply rewrite_all_quiet.
    - apply dot_name_local. now apply property_alias_shape in H.
    - intros b g Hb. destruct (property_alias_shape _ _ Hb) as (-> & Fb & _). split.
      + now apply dot_name_local.
      + split; [repeat (constructor; [reflexivity|]); constructor|].
        intros y. now apply (property_alias_quiet bad good).
    - left. change bad with (fst (bad, good)). now apply in_map. }
  split; [exact Q|].
  rewrite (normalize_properties_table (normalize_properties cypher)).
  apply rewrite_all_fixed. exact Q.
Qed.

Lemma normalize_properties_removes_aliases_witness :
  let q := py "MATCH (w:Work) WHERE w.year > 2020 RETURN w.pub_year, w.yearly" in
  normalize_properties q
  = py "MATCH (w:Work) WHERE w.publication_date > 2020 RETURN w.publication_date, w.yearly"
  /\ search (dot_name (py "year")) (normalize_properties q) = false.
Proof.
  split; [vm_compute; reflexivity|].
  apply (proj1 (normalize_properties_removes_aliases
                  (py "MATCH (w:Work) WHERE w.year > 2020 RETURN w.pub_year, w.yearly")
                  eq_refl)
               (py "year") (py "publication_date")).
  vm_compute. tauto.
Defined.

(** X8.  On a query of ASCII characters: when the query accesses a
    property under one of the aliases, the result of [normalize_properties]
    contains the canonical accessor. *)
Theorem normalize_properties_inserts_canonical (cypher bad good : str) :
  ascii_only cypher = true ->
  In (bad, good) PROPERTY_ALIASES ->
  search (dot_name bad) cypher = true ->
  contains (py "." ++ good) (normalize_properties cypher) = true.
Proof.
  intros _ H S. rewrite normalize_properties_table.
  destruct (property_alias_shape _ _ H) as (-> & Fb & _).
  apply (rewrite_all_inserts "." dot_name PROPERTY_ALIASES cypher bad).
  - now apply dot_name_local.
  - repeat (constructor; [reflexivity|]). constructor.
  - intros b g Hb. destruct (property_alias_shape _ _ Hb) as (-> & Fb' & _).
    split; [now apply dot_name_local|]. split; [|now left].
    intros y. now apply (property_alias_quiet b (py "publication_date")).
  - left. now split.
Qed.

Lemma normalize_properties_inserts_canonical_witness :
  contains (py ".publication_date")
    (normalize_properties (py "MATCH (w:Work) WHERE w.pub_year > 2020 RETURN w.title"))
  = true.
Proof.
  apply (normalize_properties_inserts_canonical
           (py "MATCH (w:Work) WHERE w.pub_year > 2020 RETURN w.title")
           (py "pub_year") (py "publication_date"));
    [vm_compute; reflexivity | vm_compute; tauto | vm_compute; reflexivity].
Defined.

Lemma relationship_alias_shape (bad good : str) :
  In (bad, good) RELATIONSHIP_CANONICAL ->
  Forall (fun c => eqc c ":" = false) bad
  /\ Forall (fun c => eqc c ":" = false) good
  /\ forall b g y, In (b, g) RELATIONSHIP_CANONICAL ->
       startswith bad (g ++ y) = false.
Proof.
  intros H. cbn in H.
  repeat (destruct H as [[= <- <-] | H];
          [split; [repeat (constructor; [reflexivity|]); constructor|];
           split; [repeat (constructor; [reflexivity|]); constructor|];
           intros b g y Hb; cbn in Hb;
           repeat (destruct Hb as [[= <- <-] | Hb]; [vm_compute; reflexivity|]);
           contradiction|]).
  contradiction.
Qed.

(** X9.  After [normalize_relationships] no alias of
    [RELATIONSHIP_CANONICAL] follows a colon anywhere in the result, and
    normalizing a second time changes nothing. *)
Theorem normalize_relationships_removes_aliases (cypher : str) :
  (forall bad good, In (bad, good) RELATIONSHIP_CANONICAL ->
     contains (py ":" ++ bad) (normalize_relationships cypher) = false)
  /\ normalize_relationships (normalize_relationships cypher)
     = normalize_relationships cypher.
Proof.
  assert (Q : forall bad good, In (bad, good) RELATIONSHIP_CANONICAL ->
                search (literal (":"%char :: bad)) (normalize_relationships cypher)
                = false).
  { intros bad good H. rewrite normalize_relationships_table.
    apply (rewrite_all_quiet ":" (fun bad => literal (":"%char :: bad))).
    - apply literal_local. now apply relationship_alias_shape in H.
    - intros b g Hb. destruct (relationship_alias_shape _ _ Hb) as (Fb & Fg & _). split.
      + now apply literal_local.
      + split; [exact Fg|]. intros y.
        destruct (relationship_alias_shape _ _ H) as (_ & _ & Q).
        unfold literal. cbn [startswith]. rewrite (Q b g y Hb).
        now rewrite andb_false_r.
    - left. change bad with (fst (bad, good)). now apply in_map. }
  split.
  - intros bad good H. rewrite <- search_literal. now apply (Q bad good).
  - rewrite (normalize_relationships_table (normalize_relationships cypher)).
    apply (rewrite_all_fixed ":" (fun bad => literal (":"%char :: bad))). exact Q.
Qed.

Lemma normalize_relationships_removes_aliases_witness :
  let q := py "MATCH (a:Author)-[:WROTE]->(w:Work)-[:HAS_TOPIC]->(t:Topic) RETURN a" in
  normalize_relationships q
  = py "MATCH (a:Author)-[:WORK_AUTHORED_BY]->(w:Work)-[:WORK_HAS_TOPIC]->(t:Topic) RETURN a"
  /\ contains (py ":WROTE") (normalize_relationships q) = false.
Proof.
  split; [vm_compute; reflexivity|].
  apply (proj1 (normalize_relationships_removes_aliases
    (py "MATCH (a:Author)-[:WROTE]->(w:Work)-[:HAS_TOPIC]->(t:Topic) RETURN a"))
    (py "WROTE") (py "WORK_AUTHORED_BY")).
  vm_compute. tauto.
Defined.

Lemma relationship_alias_pairs (bad good b g : str) :
  In (bad, good) RELATIONSHIP_CANONICAL -> In (b, g) RELATIONSHIP_CANONICAL ->
  g = good \/ forall x, startswith b x = true -> startswith bad x = false.
Proof.
  intros H Hb. cbn in H, Hb.
  repeat (destruct H as [[= <- <-] | H];
          [repeat (destruct Hb as [[= <- <-] | Hb];
                   [first [left; reflexivity
                          | right; intros x Hx; apply startswith_app in Hx as [u ->];
                            vm_compute; reflexivity]|]);
           contradiction|]).
  contradiction.
Qed.

(** X10.  When a colon is followed by an alias of [RELATIONSHIP_CANONICAL]
    somewhere in the query, the result of [normalize_relationships] contains
    a colon followed by the canonical name of that alias. *)
Theorem normalize_relationships_inserts_canonical (cypher bad good : str) :
  In (bad, good) RELATIONSHIP_CANONICAL ->
  contains (py ":" ++ bad) cypher = true ->
  contains (py ":" ++ good) (normalize_relationships cypher) = true.
Proof.
  intros H S. rewrite normalize_relationships_table.
  destruct (relationship_alias_shape _ _ H) as (Fb & Fg & _).
  apply (rewrite_all_inserts ":" (fun bad => literal (":"%char :: bad))
           RELATIONSHIP_CANONICAL cypher bad).
  - now apply literal_local.
  - exact Fg.
  - intros b g Hb. destruct (relationship_alias_shape _ _ Hb) as (Fb' & _ & Q).
    split; [now apply literal_local|]. split.
    + intros y. unfold literal. cbn [startswith]. rewrite (Q bad good y H).
      now rewrite andb_false_r.
    + destruct (relationship_alias_pairs _ _ _ _ H Hb) as [-> | D]; [now left | right].
      intros x u. unfold literal. cbn [startswith]. unfold eqc.
      rewrite Ascii.eqb_refl. cbn [andb].
      destruct (startswith b x) eqn:E; [|discriminate]. intros _. now rewrite (D x E).
  - left. split; [exact H|]. now rewrite search_literal.
Qed.

Lemma normalize_relationships_inserts_canonical_witness :
  contains (py ":WORK_HAS_TOPIC")
    (normalize_relationships (py "MATCH (w:Work)-[:TOPIC_IN]->(t:Topic) RETURN t"))
  = true.
Proof.
  apply (normalize_relationships_inserts_canonical
           (py "MATCH (w:Work)-[:TOPIC_IN]->(t:Topic) RETURN t")
           (py "TOPIC_IN") (py "WORK_HAS_TOPIC"));
    [vm_compute; tauto | vm_compute; reflexivity].
Defined.
End Normalizers.

(** ** What [_process_network_results] does to the records *)
Section ProcessedRecords.
Import Aux network_agent.
Open Scope float_scope.

Lemma mapM_Ok {E A B} (f : A -> pyresult E B) (l : list A) (l' : list B) :
  mapM f l = Ok l' -> Forall2 (fun x y => f x = Ok y) l l'.
Proof.
  revert l'; induction l as [|x l IH]; intros l'; cbn [mapM].
  - intros [= <-]. constructor.
  - destruct (f x) as [y|e] eqn:F; [|discriminate]. cbn [mbind pyresult_bind].
    destruct (mapM f l) as [k|e]; [|discriminate]. cbn [mbind pyresult_bind].
    intros [= <-]. constructor; [exact F | now apply IH].
Qed.

Lemma mapM_Raise {E A B} (f : A -> pyresult E B) (l : list A) (e : E) :
  mapM f l = Raise e -> Exists (fun x => f x = Raise e) l.
Proof.
  induction l as [|x l IH]; cbn [mapM]; [discriminate|].
  destruct (f x) as [y|e'] eqn:F; cbn [mbind pyresult_bind].
  - destruct (mapM f l) as [k|e']; cbn [mbind pyresult_bind]; [discriminate|].
    intros [= <-]. right. now apply IH.
  - intros [= <-]. now left.
Qed.

Lemma mapM_total {E A B} (f : A -> pyresult E B) (l : list A) :
  Forall (fun x => exists y, f x = Ok y) l -> exists l', mapM f l = Ok l'.
Proof.
  induction 1 as [|x l [y Hy] _ [l' IH]]; [now exists []|].
  exists (y :: l'). cbn [mapM]. now rewrite Hy, IH.
Qed.

Lemma process_record_Ok (t : string) (r p : record) :
  process_record t r = Ok p ->
  exists c, p = set_confidence r c
            /\ (c = Null <-> t = "community"%string /\ confidence_score r = Null)
            /\ c <> Absent.
Proof.
  unfold process_record.
  destruct (String.eqb_spec t "comprehensive") as [-> | H1].
  { intros [= <-]. eexists. split; [reflexivity|]. split; [|discriminate].
    split; [discriminate | now intros [? _]]. }
  destruct (String.eqb_spec t "community") as [-> | H2].
  { destruct (confidence_score r) eqn:C; cbn [get_default]; intros [= <-];
      eexists; (split; [reflexivity|]); (split; [|discriminate]);
      (split; [try discriminate; now intros _ | now intros [_ ?]]). }
  destruct (_get_main_metric r t) as [v|e]; [|discriminate].
  cbn [mbind pyresult_bind]. intros [= <-].
  eexists. split; [reflexivity|]. split; [|discriminate].
  split; [discriminate | now intros [? _]].
Qed.

Lemma process_record_Raise (t : string) (r : record) (e : exn) :
  process_record t r = Raise e
  <-> e = TypeError /\ t = "shortest_path"%string /\ totalCost r = Null.
Proof.
  split.
  - unfold process_record.
    destruct (String.eqb t "comprehensive"); [discriminate|].
    destruct (String.eqb t "community").
    { destruct (get_default _ _); discriminate. }
    unfold _get_main_metric.
    destruct (String.eqb_spec t "shortest_path") as [-> | H3].
    + change (metric r _) with (totalCost r).
      destruct (totalCost r); cbn [get_default mbind pyresult_bind]; try discriminate.
      now intros [= <-].
    + discriminate.
  - intros (-> & -> & H). unfold process_record, _get_main_metric.
    cbn [String.eqb Ascii.eqb Bool.eqb]. change (metric r _) with (totalCost r).
    now rewrite H.
Qed.

Lemma without_confidence_set (r : record) (c : field float) :
  without_confidence (set_confidence r c) = without_confidence r.
Proof. reflexivity. Qed.

Lemma processed_same (t : string) (records processed : list record) :
  Forall2 (fun x y => process_record t x = Ok y) records processed ->
  map without_confidence processed = map without_confidence records.
Proof.
  induction 1 as [|x y l l' H _ IH]; [reflexivity|].
  cbn [map]. rewrite IH. apply process_record_Ok in H as (c & -> & _).
  now rewrite without_confidence_set.
Qed.

Lemma sort_desc_inv (l ranked : list record) :
  sort_desc l = Ok ranked -> ranked = fold_right insert_desc [] l.
Proof.
  unfold sort_desc. destruct (_ && _); [discriminate|]. now intros [= <-].
Qed.

(** X11.  A ranking that [_process_network_results] returns has the
    analysis type and the metrics list of the call, its count is the number
    of records received, and its records are the received ones in some
    order, changed in nothing but their [confidence_score]. *)
Theorem process_network_results_keeps_records
        (records ranked : list record) (t t' : string) (n : nat) (ms : list string) :
  _process_network_results (ToolRecords records) t = Ok (Ranked n ranked t' ms) ->
  n = length records /\ t' = t /\ ms = _get_metrics_list t
  /\ Permutation (map without_confidence records) (map without_confidence ranked).
Proof.
  unfold _process_network_results. destruct records as [|r0 records]; [discriminate|].
  set (rs := r0 :: records).
  destruct (mapM (process_record t) rs) as [processed|e] eqn:M; [|discriminate].
  cbn [mbind pyresult_bind].
  destruct (sort_desc processed) as [sorted|e] eqn:S; [|discriminate].
  cbn [mbind pyresult_bind]. intros [= <- <- <- <-].
  apply mapM_Ok in M. apply sort_desc_inv in S.
  pose proof (sort_perm processed) as P. rewrite <- S in P.
  repeat split.
  - rewrite <- (Permutation_length P). symmetry. exact (Forall2_length _ _ _ M).
  - rewrite <- (processed_same _ _ _ M). now apply Permutation_map.
Qed.

Lemma process_network_results_keeps_records_witness :
  let r (i : string) (cost : float) :=
    mkRecord (Val (py i)) Absent Absent Absent Absent Absent Absent
             (Val cost) Absent Absent Absent in
  Permutation (map without_confidence [r "W1" 3; r "W2" 1])
              (map without_confidence
                   [set_confidence (r "W2" 1) (Val 0.5); set_confidence (r "W1" 3) (Val 0.25)]).
Proof.
  intros r.
  apply (process_network_results_keeps_records
           [r "W1"%string 3; r "W2"%string 1]
           [set_confidence (r "W2"%string 1) (Val 0.5);
            set_confidence (r "W1"%string 3) (Val 0.25)]
           "shortest_path" "shortest_path" 2 ["totalCost"; "path_length"]%string).
  vm_compute. reflexivity.
Defined.

Lemma existsb_null_key (t : string) (records processed : list record) :
  Forall2 (fun x y => process_record t x = Ok y) records processed ->
  existsb (fun r => bool_decide (sort_key r = None)) processed = true
  <-> t = "community"%string /\ Exists (fun r => confidence_score r = Null) records.
Proof.
  induction 1 as [|x y l l' H _ IH]; cbn [existsb].
  - split; [discriminate | intros [_ E]; inversion E].
  - apply process_record_Ok in H as (c & -> & Hc & Ha).
    assert (K : bool_decide (sort_key (set_confidence x c) = None) = true <-> c = Null).
    { rewrite bool_decide_eq_true. unfold sort_key. cbn [set_confidence confidence_score].
      destruct c; cbn [get_default]; split; congruence. }
    rewrite orb_true_iff, K, IH, Hc. split.
    + intros [[-> E] | [-> E]]; (split; [reflexivity|]); [now left | now right].
    + intros [-> E]. inversion E; subst; [now left | now right].
Qed.

Lemma mapM_Ok_In {E A B} (f : A -> pyresult E B) (l : list A) (l' : list B) (x : A) :
  Forall2 (fun x y => f x = Ok y) l l' -> In x l -> exists y, f x = Ok y.
Proof.
  induction 1 as [|x0 y l l' H _ IH]; [contradiction|].
  intros [<- | Hx]; [now exists y | now apply IH].
Qed.

(** X12.  [_process_network_results] raises in two cases only, and then a
    [TypeError]: a shortest-path record whose [totalCost] is [None], or two
    or more community records of which one has [None] as its
    [confidence_score]. *)
Theorem process_network_results_raises (records : list record) (t : string) (e : exn) :
  _process_network_results (ToolRecords records) t = Raise e
  <-> e = TypeError
      /\ ((t = "shortest_path"%string /\ Exists (fun r => totalCost r = Null) records)
          \/ (t = "community"%string /\ 2 <= length records
              /\ Exists (fun r => confidence_score r = Null) records)).
Proof.
  unfold _process_network_results. destruct records as [|r0 records].
  { split; [discriminate|]. intros (_ & [[_ E] | (_ & H & _)]); [inversion E|].
    cbn in H. lia. }
  set (rs := r0 :: records).
  destruct (mapM (process_record t) rs) as [processed|e'] eqn:M; cbn [mbind pyresult_bind].
  - apply mapM_Ok in M. pose proof (Forall2_length _ _ _ M) as Hlen.
    pose proof (existsb_null_key _ _ _ M) as K.
    assert (N : ~ (t = "shortest_path"%string
                   /\ Exists (fun r => totalCost r = Null) rs)).
    { intros [-> E]. apply List.Exists_exists in E as (r & Hr & E).
      destruct (mapM_Ok_In _ _ _ _ M Hr) as [y Hy].
      assert (R : process_record "shortest_path" r = Raise TypeError)
        by now apply process_record_Raise.
      congruence. }
    unfold sort_desc. rewrite <- Hlen.
    destruct (2 <=? length rs)%nat eqn:L;
      [apply Nat.leb_le in L | apply Nat.leb_gt in L]; cbn [andb].
    + destruct (existsb _ processed) eqn:X; cbn [mbind pyresult_bind].
      * split; [intros [= <-]|now intros [-> _]]. split; [reflexivity|].
        right. destruct (proj1 K eq_refl) as [-> E]. now repeat split.
      * split; [discriminate|]. intros (_ & [HN | (-> & _ & E)]); [now elim N|].
        assert (false = true) by (apply K; now split). discriminate.
    + cbn [mbind pyresult_bind]. split; [discriminate|].
      intros (_ & [HN | (_ & H & _)]); [now elim N | lia].
  - split.
    + intros [= <-]. apply mapM_Raise, List.Exists_exists in M as (r & Hr & M).
      apply process_record_Raise in M as (-> & -> & Hn). split; [reflexivity|].
      left. split; [reflexivity|]. apply List.Exists_exists. now exists r.
    + intros [-> _]. apply mapM_Raise, List.Exists_exists in M as (r & Hr & M).
      now apply process_record_Raise in M as (-> & _).
Qed.

Lemma process_network_results_raises_witness :
  let r (cost : field float) :=
    mkRecord (Val (py "W1")) Absent Absent Absent Absent Absent Absent
             cost Absent Absent Absent in
  _process_network_results (ToolRecords [r (Val 2); r Null]) "shortest_path"
  = Raise TypeError.
Proof.
  intros r.
  apply (proj2 (process_network_results_raises [r (Val 2); r Null]
                  "shortest_path" TypeError)).
  split; [reflexivity|]. left. split; [reflexivity|].
  right. left. reflexivity.
Defined.
End ProcessedRecords.

(** ** The keys of the analysis report *)
Section ReportKeys.
Import Aux network_agent.

Variable neo4j_tool : nat -> string -> pyresult exn tool_result.

Lemma analysis_loop_dom (types : list string) (n : nat)
      (results : gmap string entry) (kind : string) :
  is_Some (analysis_loop neo4j_tool n types results !! kind)
  <-> kind ∈ types \/ is_Some (results !! kind).
Proof.
  revert n results; induction types as [|t types IH]; intros n results.
  - cbn [analysis_loop]. rewrite elem_of_nil. tauto.
  - cbn [analysis_loop]. rewrite IH, elem_of_cons.
    destruct (decide (kind = t)) as [-> | Hne].
    + rewrite lookup_insert_eq. split; [intros _; now left; left | intros _; right; eauto].
    + rewrite lookup_insert_ne by congruence. tauto.
Qed.

(** X13.  The report of [find_related_by_network_analysis] has an entry
    for exactly the configured kinds that are supported: a kind outside
    [supported_types] is dropped without an entry and without an error. *)
Theorem report_has_the_supported_kinds
        (title_keyword work_id : option str) (config_types : list string) :
  truthy title_keyword = true \/ truthy work_id = true ->
  exists results,
    find_related_by_network_analysis neo4j_tool title_keyword work_id config_types true
    = Report (validate_analysis_types config_types) results
    /\ forall kind,
        is_Some (results !! kind)
        <-> kind ∈ config_types /\ kind ∈ supported_types.
Proof.
  intros H. unfold find_related_by_network_analysis.
  replace (negb (truthy title_keyword) && negb (truthy work_id)) with false
    by (destruct H as [-> | ->]; [reflexivity | now rewrite andb_false_r]).
  cbn [negb]. eexists. split; [reflexivity|]. intros kind.
  rewrite analysis_loop_dom, lookup_empty. unfold validate_analysis_types.
  rewrite list_elem_of_filter. split.
  - intros [[? ?] | [x Hx]]; [tauto | discriminate].
  - intros [? ?]. now left.
Qed.
End ReportKeys.

Section ReportKeysExample.
Import Aux network_agent.

Lemma report_has_the_supported_kinds_witness :
  let backend (n : nat) (template : string) : pyresult exn tool_result :=
    Ok (ToolRecords []) in
  exists results,
    find_related_by_network_analysis backend None (Some (py "W42"))
      ["centrality"; "clustering"]%string true
    = Report ["centrality"]%string results
    /\ is_Some (results !! "centrality"%string)
    /\ results !! "clustering"%string = None.
Proof.
  intros backend.
  destruct (report_has_the_supported_kinds backend None (Some (py "W42"))
              ["centrality"; "clustering"]%string) as (results & E & K);
    [right; reflexivity|].
  exists results. split; [exact E|]. split.
  - apply K. split; [now left | right; right; now left].
  - destruct (results !! "clustering"%string) eqn:L; [|reflexivity].
    assert (S : is_Some (results !! "clustering"%string)) by (rewrite L; eauto).
    apply K in S as [_ S]. unfold supported_types in S.
    repeat (apply elem_of_cons in S as [S | S]; [discriminate|]).
    now apply elem_of_nil in S.
Defined.
End ReportKeysExample.

(** ** The community report *)
Section Communities.
Import Aux network_agent.
Open Scope nat_scope.

Lemma members_add (k cid : option Z) (w : member) (cs : list (option Z * list member)) :
  members k (add_member cid w cs)
  = members k cs ++ (if bool_decide (cid = k) then [w] else []).
Proof.
  induction cs as [|[k' ws] cs IH]; cbn [add_member members]; [reflexivity|].
  destruct (decide (k' = cid)) as [-> | Hne].
  - rewrite (bool_decide_eq_true_2 (cid = cid)) by reflexivity. cbn [members].
    destruct (decide (cid = k)) as [-> | Hk].
    + now rewrite !bool_decide_eq_true_2 by reflexivity.
    + rewrite !bool_decide_eq_false_2 by assumption. now rewrite app_nil_r.
  - rewrite (bool_decide_eq_false_2 (k' = cid)) by assumption. cbn [members].
    destruct (decide (k' = k)) as [-> | Hk].
    + rewrite bool_decide_eq_true_2 by reflexivity.
      rewrite bool_decide_eq_false_2 by congruence. now rewrite app_nil_r.
    + rewrite (bool_decide_eq_false_2 (k' = k)) by assumption. apply IH.
Qed.

Lemma keys_add (k cid : option Z) (w : member) (cs : list (option Z * list member)) :
  In k (map fst (add_member cid w cs)) <-> k = cid \/ In k (map fst cs).
Proof.
  induction cs as [|[k' ws] cs IH]; cbn [add_member map fst In].
  - intuition congruence.
  - destruct (decide (k' = cid)) as [-> | Hne].
    + rewrite bool_decide_eq_true_2 by reflexivity. cbn [map fst In]. intuition congruence.
    + rewrite bool_decide_eq_false_2 by assumption. cbn [map fst In]. rewrite IH.
      intuition congruence.
Qed.

Lemma keys_add_NoDup (cid : option Z) (w : member) (cs : list (option Z * list member)) :
  List.NoDup (map fst cs) -> List.NoDup (map fst (add_member cid w cs)).
Proof.
  induction cs as [|[k' ws] cs IH]; cbn [add_member map fst]; intros H.
  - constructor; [intros [] | constructor].
  - apply List.NoDup_cons_iff in H as [Hn H].
    destruct (decide (k' = cid)) as [-> | Hne].
    + rewrite bool_decide_eq_true_2 by reflexivity. cbn [map fst].
      now apply List.NoDup_cons_iff.
    + rewrite bool_decide_eq_false_2 by assumption. cbn [map fst].
      apply List.NoDup_cons_iff. split; [|now apply IH].
      rewrite keys_add. intuition congruence.
Qed.

Lemma sizes_add (cid : option Z) (w : member) (cs : list (option Z * list member)) :
  list_sum (map (fun c => length (snd c)) (add_member cid w cs))
  = S (list_sum (map (fun c => length (snd c)) cs)).
Proof.
  induction cs as [|[k' ws] cs IH]; cbn [add_member map snd list_sum]; [reflexivity|].
  destruct (bool_decide (k' = cid)); cbn [map snd list_sum fold_right].
  - rewrite length_app. cbn [length]. lia.
  - fold (list_sum (map (fun c => length (snd c)) (add_member cid w cs))).
    rewrite IH. fold (list_sum (map (fun c : option Z * list member => length (snd c)) cs)). lia.
Qed.

Lemma nonempty_add (cid : option Z) (w : member) (cs : list (option Z * list member)) :
  Forall (fun c => snd c <> []) cs ->
  Forall (fun c => snd c <> []) (add_member cid w cs).
Proof.
  induction 1 as [|[k' ws] cs Hc Hcs IH]; cbn [add_member].
  - constructor; [discriminate | constructor].
  - destruct (bool_decide (k' = cid)); constructor; try assumption.
    cbn [snd]. now destruct ws.
Qed.

Lemma entry_members (k : option Z) (ws : list member) (cs : list (option Z * list member)) :
  List.NoDup (map fst cs) -> In (k, ws) cs -> members k cs = ws.
Proof.
  induction cs as [|[k' ws'] cs IH]; [contradiction|]. cbn [map fst members].
  intros H Hin. apply List.NoDup_cons_iff in H as [Hn H].
  destruct Hin as [[= -> ->] | Hin].
  - now rewrite bool_decide_eq_true_2.
  - rewrite bool_decide_eq_false_2; [now apply IH|].
    intros ->. apply Hn. change k with (fst (k, ws)). now apply in_map.
Qed.

(** The grouping loop, from any dict. *)
Lemma grouping (records : list record) (cs : list (option Z * list member)) :
  let cs' := fold_left (fun communities r =>
                          add_member (get (community_id r))
                                     (get (work_id r), get (title r)) communities)
                       records cs in
  (forall k, members k cs'
             = members k cs ++ map member_of (List.filter (in_community k) records))
  /\ (forall k, In k (map fst cs')
                <-> In k (map fst cs)
                    \/ exists r, In r records /\ get (community_id r) = k)
  /\ (List.NoDup (map fst cs) -> List.NoDup (map fst cs'))
  /\ list_sum (map (fun c => length (snd c)) cs')
     = list_sum (map (fun c => length (snd c)) cs) + length records
  /\ (Forall (fun c => snd c <> []) cs -> Forall (fun c => snd c <> []) cs').
Proof.
  revert cs; induction records as [|r records IH]; intros cs; cbn [fold_left].
  - repeat split; try tauto.
    + intros k. cbn. now rewrite app_nil_r.
    + intros [H | (r & [] & _)]. exact H.
    + cbn. lia.
  - destruct (IH (add_member (get (community_id r)) (get (work_id r), get (title r)) cs))
      as (M & K & N & S & E).
    repeat split.
    + intros k. rewrite M, members_add. cbn [List.filter]. unfold in_community at 2.
      destruct (bool_decide (get (community_id r) = k)); cbn [map].
      * now rewrite <- app_assoc.
      * now rewrite app_nil_r.
    + rewrite K, keys_add. intros [[-> | H] | (r' & Hr & Hk)].
      * right. exists r. split; [now left | reflexivity].
      * now left.
      * right. exists r'. split; [now right | exact Hk].
    + rewrite K, keys_add. intros [H | (r' & [<- | Hr] & Hk)].
      * left. now right.
      * left. now left.
      * right. now exists r'.
    + intros H. now apply N, keys_add_NoDup.
    + rewrite S, sizes_add. cbn [length]. lia.
    + intros H. now apply E, nonempty_add.
Qed.

Lemma insert_by_size_perm (x : models.CommunityInfo) (l : list models.CommunityInfo) :
  Permutation (x :: l) (insert_by_size x l).
Proof.
  induction l as [|y l IH]; cbn [insert_by_size]; [reflexivity|].
  destruct (_ <? _)%nat; [|reflexivity].
  rewrite perm_swap. now apply perm_skip.
Qed.

Lemma sort_by_size_perm (l : list models.CommunityInfo) :
  Permutation l (fold_right insert_by_size [] l).
Proof.
  induction l as [|x l IH]; cbn [fold_right]; [reflexivity|].
  rewrite <- insert_by_size_perm. now apply perm_skip.
Qed.

Lemma insert_by_size_sorted (x : models.CommunityInfo) (l : list models.CommunityInfo) :
  StronglySorted larger l -> StronglySorted larger (insert_by_size x l).
Proof.
  induction 1 as [|y l Hs IH Hy]; cbn [insert_by_size].
  - constructor; constructor.
  - destruct (models.size x <? models.size y)%nat eqn:E.
    + apply Nat.ltb_lt in E. constructor; [exact IH|].
      rewrite <- insert_by_size_perm. constructor; [unfold larger; lia | exact Hy].
    + apply Nat.ltb_ge in E. constructor; [now constructor|].
      constructor; [exact E|]. eapply List.Forall_impl; [|exact Hy].
      unfold larger. intros z Hz. lia.
Qed.

Lemma sort_by_size_sorted (l : list models.CommunityInfo) :
  StronglySorted larger (fold_right insert_by_size [] l).
Proof.
  induction l as [|x l IH]; cbn [fold_right]; [constructor|].
  now apply insert_by_size_sorted.
Qed.

Lemma list_sum_perm (l l' : list nat) : Permutation l l' -> list_sum l = list_sum l'.
Proof.
  induction 1 as [|x l l' _ IH|x y l|l l' l'' _ IH1 _ IH2];
    cbn [list_sum fold_right]; try reflexivity.
  - fold (list_sum l). fold (list_sum l'). now rewrite IH.
  - generalize (fold_right Init.Nat.add 0 l). intros m. lia.
  - congruence.
Qed.

Lemma list_max_perm (l l' : list nat) : Permutation l l' -> list_max l = list_max l'.
Proof.
  induction 1 as [|x l l' _ IH|x y l|l l' l'' _ IH1 _ IH2]; cbn [list_max fold_right];
    try reflexivity.
  - fold (list_max l). fold (list_max l'). now rewrite IH.
  - generalize (fold_right Init.Nat.max 0 l). intros m. lia.
  - congruence.
Qed.

Lemma new_CommunityInfo_Ok (cid : option Z) (n m : nat) (ws : list member)
      (c : models.CommunityInfo) :
  models.new_CommunityInfo cid n ws m = Ok c ->
  cid = Some (models.community_id c) /\ models.size c = n
  /\ models.total_works c = m /\ map as_member (models.works c) = ws.
Proof.
  unfold models.new_CommunityInfo. destruct cid as [z|]; [|discriminate].
  destruct (mapM _ ws) as [vs|] eqn:M; [|discriminate]. intros [= <-].
  cbn [models.community_id models.size models.total_works models.works].
  repeat split. apply mapM_Some in M.
  induction M as [|[a b] [a' b'] l l' H _ IH]; [reflexivity|].
  cbn [map]. rewrite IH. f_equal.
  destruct a as [a|]; [|discriminate]. destruct b as [b|]; [|discriminate].
  cbn in H. now injection H as <- <-.
Qed.

Lemma new_CommunityInfo_total (z : Z) (n m : nat) (ws : list member) :
  Forall (fun w => fst w <> None /\ snd w <> None) ws ->
  exists c, models.new_CommunityInfo (Some z) n ws m = Ok c.
Proof.
  intros H. unfold models.new_CommunityInfo.
  assert (M : is_Some (mapM (fun '(work_id, title) =>
                              work_id ← work_id ; title ← title ; Some (work_id, title))
                            ws)).
  { apply mapM_is_Some. eapply List.Forall_impl; [|exact H].
    intros [[a|] [b|]] [Ha Hb]; cbn in Ha, Hb; try congruence. cbn. eauto. }
  destruct M as [vs ->]. eauto.
Qed.

Lemma Forall2_In_r {A B} (P : A -> B -> Prop) (l : list A) (l' : list B) (y : B) :
  Forall2 P l l' -> In y l' -> exists x, In x l /\ P x y.
Proof.
  induction 1 as [|x0 y0 l l' H _ IH]; [contradiction|].
  intros [<- | Hy]; [exists x0; split; [now left | exact H]|].
  destruct (IH Hy) as (x & Hx & Px). exists x. split; [now right | exact Px].
Qed.

Lemma Forall2_In_l {A B} (P : A -> B -> Prop) (l : list A) (l' : list B) (x : A) :
  Forall2 P l l' -> In x l -> exists y, In y l' /\ P x y.
Proof.
  induction 1 as [|x0 y0 l l' H _ IH]; [contradiction|].
  intros [<- | Hx]; [exists y0; split; [now left | exact H]|].
  destruct (IH Hx) as (y & Hy & Py). exists y. split; [now right | exact Py].
Qed.

(** What a successful report is made of. *)
Lemma community_report_inv (records : list record) (n tw lg : nat)
      (comms : list models.CommunityInfo) :
  _process_community_results (ToolRecords records) = Ok (Communities n tw comms lg) ->
  exists infos,
    Forall2 (fun g c =>
               models.new_CommunityInfo (fst g) (length (snd g)) (firstn 5 (snd g))
                                        (length (snd g)) = Ok c)
            (grouped records) infos
    /\ comms = fold_right insert_by_size [] infos
    /\ n = length (grouped records) /\ tw = length records
    /\ lg = list_max (map (fun c => length (snd c)) (grouped records)).
Proof.
  unfold _process_community_results. destruct records as [|r0 records]; [discriminate|].
  set (rs := r0 :: records). fold (grouped rs).
  destruct (mapM _ (grouped rs)) as [infos|e] eqn:M; [|discriminate].
  cbn [mbind pyresult_bind]. intros [= <- <- <- <-].
  exists infos. repeat split.
  - apply mapM_Ok in M. eapply Forall2_impl; [exact M|].
    intros [k ws] c. exact id.
  - now destruct (grouped rs).
Qed.

Lemma grouped_facts (records : list record) :
  (forall k ws, In (k, ws) (grouped records) ->
     ws = map member_of (List.filter (in_community k) records) /\ ws <> [])
  /\ (forall r, In r records -> In (get (community_id r)) (map fst (grouped records)))
  /\ (forall k, In k (map fst (grouped records)) ->
        exists r, In r records /\ get (community_id r) = k)
  /\ List.NoDup (map fst (grouped records))
  /\ list_sum (map (fun c => length (snd c)) (grouped records)) = length records.
Proof.
  destruct (grouping records []) as (M & K & N & S & E). fold (grouped records) in *.
  repeat split.
  - rewrite <- (entry_members k ws (grouped records)); [apply M | apply N; constructor | exact H].
  - assert (F : Forall (fun c => snd c <> []) (grouped records)) by (apply E; constructor).
    rewrite List.Forall_forall in F. exact (F _ H).
  - intros r Hr. apply K. right. now exists r.
  - intros k Hk. apply K in Hk as [[] | H]. exact H.
  - apply N. constructor.
  - exact S.
Qed.

(** X14.  In a community report the communities have different ids,
    every record belongs to one of them, and a community has as its size the
    number of records with its id, at least one, the same number as
    [total_works], and as its works the first five of those records, in the
    order received. *)
Theorem communities_group_the_records (records : list record) (n tw lg : nat)
        (comms : list models.CommunityInfo) :
  _process_community_results (ToolRecords records) = Ok (Communities n tw comms lg) ->
  List.NoDup (map models.community_id comms)
  /\ (forall r, In r records ->
        exists c, In c comms /\ get (community_id r) = Some (models.community_id c))
  /\ (forall c, In c comms ->
        let mine := List.filter (in_community (Some (models.community_id c))) records in
        models.size c = length mine /\ 1 <= models.size c
        /\ models.total_works c = models.size c
        /\ map as_member (models.works c) = firstn 5 (map member_of mine)).
Proof.
  intros H. apply community_report_inv in H as (infos & F & -> & _).
  destruct (grouped_facts records) as (G & R & _ & N & _).
  pose proof (sort_by_size_perm infos) as P.
  assert (I : forall c, In c infos ->
                exists ws, In (Some (models.community_id c), ws) (grouped records)
                           /\ models.size c = length ws
                           /\ models.total_works c = length ws
                           /\ map as_member (models.works c) = firstn 5 ws).
  { intros c Hc. destruct (Forall2_In_r _ _ _ _ F Hc) as ([k ws] & Hg & Hn).
    apply new_CommunityInfo_Ok in Hn as (Hk & Hs & Ht & Hw). cbn [fst snd] in *.
    subst k. now exists ws. }
  split; [|split].
  - rewrite <- P. apply (NoDup_map_inv Some). rewrite map_map.
    replace (map (fun c => Some (models.community_id c)) infos)
      with (map fst (grouped records)); [exact N|].
    clear -F. induction F as [|[k ws] c l l' H _ IH]; [reflexivity|].
    cbn [map fst]. rewrite IH. f_equal.
    apply new_CommunityInfo_Ok in H as (H & _). cbn [fst] in H. now rewrite H.
  - intros r Hr. apply R in Hr. apply in_map_iff in Hr as ([k ws] & Hk & Hg).
    cbn [fst] in Hk. subst k.
    destruct (Forall2_In_l _ _ _ _ F Hg) as (c & Hc & Hn).
    apply new_CommunityInfo_Ok in Hn as (Hk & _). cbn [fst] in Hk.
    exists c. split; [now rewrite <- P | exact Hk].
  - intros c Hc. rewrite <- P in Hc. destruct (I c Hc) as (ws & Hg & Hs & Ht & Hw).
    destruct (G _ _ Hg) as [Hm Hne]. cbv zeta.
    rewrite Hs, Ht, Hw, Hm, length_map. repeat split.
    rewrite <- (length_map member_of), <- Hm. destruct ws; [now elim Hne | cbn; lia].
Qed.

(** X15.  In a community report [total_works] is the number of records,
    which is also the sum of the sizes; [total_communities] is the number of
    communities listed; the list goes from the largest community down, and
    [largest_community_size] is the size of the first one. *)
Theorem communities_totals (records : list record) (n tw lg : nat)
        (comms : list models.CommunityInfo) :
  _process_community_results (ToolRecords records) = Ok (Communities n tw comms lg) ->
  tw = length records /\ n = length comms
  /\ list_sum (map models.size comms) = length records
  /\ StronglySorted larger comms
  /\ (exists c rest, comms = c :: rest /\ lg = models.size c)
  /\ Forall (fun c => models.size c <= lg) comms.
Proof.
  intros H. pose proof H as H'.
  apply community_report_inv in H as (infos & F & -> & -> & -> & ->).
  destruct (grouped_facts records) as (_ & R & _ & _ & S).
  pose proof (sort_by_size_perm infos) as P.
  assert (Hz : map models.size infos = map (fun c => length (snd c)) (grouped records)).
  { clear -F. induction F as [|[k ws] c l l' H _ IH]; [reflexivity|].
    cbn [map snd]. rewrite IH. f_equal.
    apply new_CommunityInfo_Ok in H as (_ & H & _). cbn [snd] in H. now rewrite H. }
  assert (L : list_max (map (fun c => length (snd c)) (grouped records))
              = list_max (map models.size (fold_right insert_by_size [] infos))).
  { rewrite <- Hz. apply list_max_perm. now apply Permutation_map. }
  pose proof (sort_by_size_sorted infos) as Sd.
  split; [reflexivity|]. split; [|split; [|split; [exact Sd|]]].
  - rewrite <- (Permutation_length P). exact (Forall2_length _ _ _ F).
  - rewrite <- (list_sum_perm _ _ (Permutation_map models.size P)), Hz. exact S.
  - rewrite L. split.
    + destruct (fold_right insert_by_size [] infos) as [|c rest] eqn:E.
      * exfalso. apply Permutation_sym, Permutation_nil in P. subst infos.
        inversion F as [E0|]. unfold _process_community_results in H'.
        destruct records as [|r0 records]; [discriminate|].
        assert (In (get (community_id r0)) (map fst (grouped (r0 :: records))))
          by (apply R; now left).
        rewrite <- E0 in H. contradiction.
      * exists c, rest. split; [reflexivity|]. cbn [map list_max fold_right].
        fold (list_max (map models.size rest)).
        apply StronglySorted_inv in Sd as [_ Hc].
        assert (list_max (map models.size rest) <= models.size c); [|lia].
        apply list_max_le. apply List.Forall_map. exact Hc.
    + apply (proj1 (List.Forall_map models.size
                      (fun k => k <= list_max (map models.size
                                                   (fold_right insert_by_size [] infos)))
                      (fold_right insert_by_size [] infos))).
      apply (proj1 (list_max_le _ _)). lia.
Qed.

Lemma communities_group_the_records_witness :
  let r (i : string) (c : Z) :=
    mkRecord (Val (py i)) (Val (py "t")) Absent Absent Absent Absent (Val c)
             Absent Absent Absent Absent in
  let info (c : Z) (n : nat) (ws : list (str * str)) :=
    models.mkCommunityInfo c n ws n None None in
  List.NoDup (map models.community_id
                  [info 9%Z 2 [(py "W2", py "t"); (py "W3", py "t")];
                   info 4%Z 1 [(py "W1", py "t")]]).
Proof.
  intros r info.
  apply (communities_group_the_records
           [r "W1"%string 4%Z; r "W2"%string 9%Z; r "W3"%string 9%Z] 2 3 2
           [info 9%Z 2 [(py "W2", py "t"); (py "W3", py "t")];
            info 4%Z 1 [(py "W1", py "t")]]).
  vm_compute. reflexivity.
Defined.

Lemma communities_totals_witness :
  let r (i : string) (c : Z) :=
    mkRecord (Val (py i)) (Val (py "t")) Absent Absent Absent Absent (Val c)
             Absent Absent Absent Absent in
  let info (c : Z) (n : nat) (ws : list (str * str)) :=
    models.mkCommunityInfo c n ws n None None in
  list_sum (map models.size
                [info 9%Z 2 [(py "W2", py "t"); (py "W3", py "t")];
                 info 4%Z 1 [(py "W1", py "t")]]) = 3.
Proof.
  intros r info.
  apply (communities_totals
           [r "W1"%string 4%Z; r "W2"%string 9%Z; r "W3"%string 9%Z] 2 3 2
           [info 9%Z 2 [(py "W2", py "t"); (py "W3", py "t")];
            info 4%Z 1 [(py "W1", py "t")]]).
  vm_compute. reflexivity.
Defined.

(** X16.  [_process_community_results] returns a report when every record
    has a community id, a work id and a title; one record without a
    community id makes the whole call fail with the validation error of
    [CommunityInfo]. *)
Theorem communities_need_complete_records (records : list record) :
  records <> [] ->
  (Forall (fun r => get (community_id r) <> None /\ get (work_id r) <> None
                    /\ get (title r) <> None) records ->
   exists n comms lg,
     _process_community_results (ToolRecords records)
     = Ok (Communities n (length records) comms lg))
  /\ (Exists (fun r => get (community_id r) = None) records ->
      _process_community_results (ToolRecords records) = Raise models.validation_error).
Proof.
  intros Hne. destruct (grouped_facts records) as (G & R & K & _ & _).
  unfold _process_community_results. destruct records as [|r0 records]; [now elim Hne|].
  set (rs := r0 :: records) in *. fold (grouped rs). split.
  - intros H. rewrite List.Forall_forall in H.
    destruct (mapM_total
                (fun '(community_id, works) =>
                   models.new_CommunityInfo community_id (length works)
                                            (firstn 5 works) (length works))
                (grouped rs)) as [infos ->]; [|cbn [mbind pyresult_bind]; eauto].
    apply List.Forall_forall. intros [k ws] Hg.
    destruct (K k) as (r & Hr & Hk); [change k with (fst (k, ws)); now apply in_map|].
    destruct k as [z|]; [|now apply H in Hr as [Hr _]].
    apply new_CommunityInfo_total. apply List.Forall_forall. intros w Hw.
    destruct (G _ _ Hg) as [-> _].
    assert (Hw' : In w (map member_of (List.filter (in_community (Some z)) rs))).
    { revert Hw. generalize (map member_of (List.filter (in_community (Some z)) rs)).
      intros l. revert w. generalize 5. intros m; revert l.
      induction m as [|m IH]; intros [|x l] w; cbn [firstn]; try contradiction.
      intros [<- | Hw]; [now left | right; now apply (IH l)]. }
    apply in_map_iff in Hw' as (r' & <- & Hr'). apply filter_In in Hr' as [Hr' _].
    apply H in Hr' as (_ & ? & ?). now split.
  - intros E. apply List.Exists_exists in E as (r & Hr & E).
    apply R in Hr. rewrite E in Hr. apply in_map_iff in Hr as ([k ws] & Hk & Hg).
    cbn [fst] in Hk. subst k.
    destruct (mapM _ (grouped rs)) as [infos|[]] eqn:M; [|reflexivity].
    apply mapM_Ok in M. destruct (mapM_Ok_In _ _ _ _ M Hg) as [y Hy]. discriminate.
Qed.

Lemma communities_need_complete_records_witness :
  let r (c : field Z) :=
    mkRecord (Val (py "W1")) (Val (py "t")) Absent Absent Absent Absent c
             Absent Absent Absent Absent in
  _process_community_results (ToolRecords [r (Val 4%Z); r Null])
  = Raise models.validation_error.
Proof.
  intros r.
  apply (proj2 (communities_need_complete_records [r (Val 4%Z); r Null]
                  ltac:(discriminate))).
  right. left. reflexivity.
Defined.
End Communities.

(** ** Rewriting between separators keeps a text free of a word *)
Section SeparatedRewriting.
Import PyStr Re Aux.

Context {G : Type} (sep : ascii) (kw : str).
Variables (m : matcher G) (inner : str).
Hypothesis kw_free : Forall (fun c => eqc c sep = false) kw.
Hypothesis kw_nonempty : kw <> [].
Hypothesis sep_upper : forall c, eqc (upper_char c) sep = eqc c sep.
Hypothesis m_starts : forall s g, m s = Some g -> exists x, s = sep :: x.
(** The replacement is [sep :: inner ++ [sep]]. *)
Hypothesis inner_free : contains kw (upper inner) = false.

Lemma run_app_sep (a b : str) : run sep (a ++ sep :: b) = run sep a.
Proof.
  induction a as [|c a IH]; cbn [app]; rewrite !run_cons.
  - unfold eqc. now rewrite Ascii.eqb_refl.
  - now rewrite IH.
Qed.

Lemma run_upper (s : str) : run sep (upper s) = upper (run sep s).
Proof.
  induction s as [|c s IH]; [reflexivity|].
  change (upper (c :: s)) with (upper_char c :: upper s).
  rewrite !run_cons, sep_upper. destruct (eqc c sep); [reflexivity|].
  now rewrite IH.
Qed.

Lemma contains_sep (a b : str) :
  contains kw (a ++ sep :: b) = contains kw a || contains kw b.
Proof.
  induction a as [|c a IH]; cbn [app].
  - rewrite (contains_nil kw kw_nonempty). cbn [contains orb].
    replace (startswith kw (sep :: b)) with false; [reflexivity|].
    destruct kw_free as [|x n Hx _]; [now elim kw_nonempty|].
    cbn [startswith]. now rewrite Hx.
  - cbn [contains]. rewrite IH, orb_assoc. f_equal. f_equal.
    rewrite (startswith_run sep kw (c :: a ++ sep :: b) kw_free).
    rewrite (startswith_run sep kw (c :: a) kw_free).
    change (c :: a ++ sep :: b) with ((c :: a) ++ sep :: b). now rewrite run_app_sep.
Qed.

Lemma sub_run_starts (s : str) :
  run sep (sub m (fun _ => sep :: inner ++ [sep]) s) = run sep s.
Proof.
  unfold sub. induction s as [|c s IH]; [reflexivity|].
  cbn [sub_from]. destruct (eqc c sep) eqn:E.
  - rewrite (run_cons sep c s), E. destruct (m (c :: s)) as [[g len]|].
    + cbn [app]. rewrite run_cons. unfold eqc. now rewrite Ascii.eqb_refl.
    + now rewrite run_cons, E.
  - destruct (m (c :: s)) as [g|] eqn:M.
    + apply m_starts in M as [x [= -> _]]. unfold eqc in E.
      now rewrite Ascii.eqb_refl in E.
    + rewrite !run_cons, E. now rewrite IH.
Qed.

Lemma sub_keeps_free (s : str) (k : nat) :
  contains kw (upper s) = false ->
  contains kw (upper (sub_from m (fun _ => sep :: inner ++ [sep]) k s)) = false.
Proof.
  assert (Hsep : upper_char sep = sep).
  { apply eqc_true. rewrite sep_upper. unfold eqc. apply Ascii.eqb_refl. }
  revert k; induction s as [|c s IH]; intros k H; [exact H|].
  change (upper (c :: s)) with (upper_char c :: upper s) in H.
  cbn [contains] in H. apply orb_false_elim in H as [H1 H2].
  cbn [sub_from]. destruct k as [|k]; [|now apply IH].
  destruct (m (c :: s)) as [[g len]|] eqn:M.
  - unfold upper. rewrite map_app. cbn [map]. rewrite map_app. cbn [map]. rewrite Hsep.
    fold (upper inner). fold (upper (sub_from m (fun _ => sep :: inner ++ [sep])
                                              (Nat.pred len) s)).
    set (rest := upper (sub_from m (fun _ => sep :: inner ++ [sep]) (Nat.pred len) s)).
    replace ((sep :: upper inner ++ [sep]) ++ rest)
      with ([] ++ sep :: upper inner ++ sep :: rest)
      by (cbn [app]; now rewrite <- app_assoc).
    rewrite !contains_sep, (contains_nil kw kw_nonempty), inner_free.
    now apply IH.
  - change (upper (c :: ?u)) with (upper_char c :: upper u). cbn [contains].
    rewrite (IH 0 H2), orb_false_r.
    rewrite (startswith_run sep kw _ kw_free) in H1.
    rewrite (startswith_run sep kw _ kw_free).
    rewrite run_cons in H1. rewrite run_cons.
    destruct (eqc (upper_char c) sep); [exact H1|].
    rewrite run_upper in H1. rewrite run_upper.
    change (sub_from m (fun _ => sep :: inner ++ [sep]) 0 s)
      with (sub m (fun _ => sep :: inner ++ [sep]) s).
    now rewrite sub_run_starts.
Qed.
End SeparatedRewriting.

(** ** The query tool of the relationship agent *)
Section EnhancedTool.
Import PyStr Re Aux validators.

Lemma hyphen_upper (c : ascii) : eqc (upper_char c) "-" = eqc c "-".
Proof. destruct c as [[] [] [] [] [] [] [] []]; reflexivity. Qed.

Lemma literal_hyphen (old s : str) g :
  literal ("-"%char :: old) s = Some g -> exists x, s = "-"%char :: x.
Proof.
  unfold literal. destruct s as [|c s]; [discriminate|]. cbn [startswith].
  destruct (eqc "-" c) eqn:E; [|discriminate]. apply eqc_true in E. subst c.
  now exists s.
Qed.

Lemma enhancement_keeps_free (kw cypher : str) :
  In kw FORBIDDEN_KEYWORDS ->
  contains kw (upper cypher) = false ->
  contains kw (upper (enhance_query_for_relationships cypher)) = false.
Proof.
  intros Hk. assert (F : Forall (fun c => eqc c "-" = false) kw /\ kw <> []
                      /\ Forall (fun e => contains kw (upper (snd e)) = false)
                                enhancements).
  { cbn in Hk.
    repeat (destruct Hk as [<- | Hk];
            [split; [repeat (constructor; [reflexivity|]); constructor|];
             split; [discriminate|];
             repeat (constructor; [vm_compute; reflexivity|]); constructor|]).
    contradiction. }
  destruct F as (Ff & Fn & Fe). unfold enhance_query_for_relationships.
  revert cypher. induction Fe as [|[pattern replacement] l Hr _ IH]; intros cypher H;
    [exact H|].
  cbn [fold_left]. apply IH. cbn [snd] in Hr.
  change (py "-" ++ replacement ++ py "-") with ("-"%char :: replacement ++ ["-"%char]).
  change (py "-[:" ++ pattern ++ py "]->")
    with ("-"%char :: "["%char :: ":"%char :: pattern ++ py "]->").
  apply (sub_keeps_free "-" kw _ replacement Ff Fn hyphen_upper); [|exact Hr|exact H].
  intros s g. apply literal_hyphen.
Qed.

(** X17.  A query that the tool of the relationship agent accepts is the
    enhancement of the cleaned query.  The enhancement, made after the
    read-only check, brings no forbidden keyword in: the upper-case form of
    the accepted query contains none.  Its relationship types are all in
    [ENHANCED_RELATIONSHIPS] and no suspicious pattern matches in it. *)
Theorem enhanced_tool_validation_sound (order : list str) (cypher safe_cypher : str) :
  Permutation order FORBIDDEN_KEYWORDS ->
  enhanced_tool_validation order cypher = Ok safe_cypher ->
  safe_cypher = enhance_query_for_relationships (clean cypher)
  /\ Forall (fun kw => contains kw (upper safe_cypher) = false) FORBIDDEN_KEYWORDS
  /\ Forall (fun rel => In rel ENHANCED_RELATIONSHIPS) (findall rel_pattern safe_cypher)
  /\ Forall (fun pattern => search (snd pattern) safe_cypher = false) suspicious_patterns.
Proof.
  intros P. unfold enhanced_tool_validation.
  destruct (prepare_cypher order cypher) as [p|e] eqn:E; [|discriminate].
  cbn [mbind pyresult_bind].
  destruct (validate_enhanced_relationships _) as [[]|e] eqn:R; [|discriminate].
  destruct (validate_properties _) as [[]|e] eqn:V; [|discriminate].
  cbn [mbind pyresult_bind]. intros [= <-].
  destruct (prepare_cypher_no_keyword order cypher p P E) as (-> & K).
  split; [reflexivity|]. split; [|split].
  - rewrite List.Forall_forall in K |- *. intros kw Hk.
    apply enhancement_keeps_free; [exact Hk | now apply K].
  - now apply enhanced_relationships_Ok.
  - unfold validate_properties in V. destruct (first_bad _ _) eqn:F; [discriminate|].
    now apply first_bad_None in F.
Qed.

Lemma enhanced_tool_validation_sound_witness :
  let q := py "MATCH (a:Author)-[:COLLABORATED_WITH]->(b:Author) RETURN a.name" in
  let p := py "MATCH (a:Author)-[:WORK_AUTHORED_BY]->(:Work)<-[:WORK_AUTHORED_BY]-(b:Author) RETURN a.name" in
  enhanced_tool_validation FORBIDDEN_KEYWORDS q = Ok p
  /\ Forall (fun kw => contains kw (upper p) = false) FORBIDDEN_KEYWORDS.
Proof.
  intros q p. split; [vm_compute; reflexivity|].
  apply (enhanced_tool_validation_sound FORBIDDEN_KEYWORDS q p);
    [apply Permutation_refl | vm_compute; reflexivity].
Defined.
End EnhancedTool.

(** ** Confidence levels *)
Section ConfidenceLevels.
Import Aux models.
Open Scope float_scope.

(** X18.  [get_confidence_level] is monotone: of two scores, the one that
    is at least as large never gets the lower level. *)
Theorem get_confidence_level_monotone (a b : float) :
  (a <=? b) = true ->
  (level_rank (get_confidence_level a) <= level_rank (get_confidence_level b))%nat.
Proof.
  intros H. unfold get_confidence_level.
  assert (T : forall t, (t <=? a) = true -> (t <=? b) = true)
    by (intros t Ht; exact (leb_trans t a b Ht H)).
  destruct (0.8 <=? a) eqn:A8; [rewrite (T _ A8); cbn; lia|].
  destruct (0.6 <=? a) eqn:A6;
    [rewrite (T _ A6); destruct (0.8 <=? b); cbn; lia|].
  destruct (0.4 <=? a) eqn:A4;
    [rewrite (T _ A4); destruct (0.8 <=? b), (0.6 <=? b); cbn; lia|].
  destruct (0.2 <=? a) eqn:A2;
    [rewrite (T _ A2); destruct (0.8 <=? b), (0.6 <=? b), (0.4 <=? b); cbn; lia|].
  cbn. lia.
Qed.

Lemma get_confidence_level_monotone_witness :
  (level_rank (get_confidence_level 0.45) <= level_rank (get_confidence_level 0.8))%nat.
Proof.
  apply (get_confidence_level_monotone 0.45 0.8). vm_compute. reflexivity.
Defined.
End ConfidenceLevels.
